(** * Optimized Timetable System: the scheduling engine

    A shallow embedding of the JavaScript scheduling engine
    (fitness calculator, genetic algorithm, constraint checker and the
    schedule model's conflict detection) followed by the properties
    stated about it.

    Modelling conventions.
    - JavaScript numbers that the engine uses as counters, slot numbers,
      hours and weights are integers ([Z]); averages, rates and the
      sizes of the genetic algorithm's configuration, which the
      constructor takes as they come, are rationals ([Q]).  The one
      quotient that the engine counts with, hours per week by session
      duration, is rounded as a double; averages are exact.
    - Mongo identifiers are the strings their [toString()] yields.
    - A JavaScript [Map] with string keys is an insertion ordered
      association list ([JsMap]): [set] on a present key keeps the
      position of the key, as in JavaScript.
    - Gene objects live in a store and chromosomes hold references into
      it, because crossover copies references and mutation writes
      through them.
    - [Math.random()] reads the next value of an ambient sequence of
      reals of the interval [0, 1).
    - [console.log] and friends are not modelled. *)

From Stdlib Require Import ZArith QArith Qround String Ascii Lia.
From stdpp Require Import prelude strings pretty.

Close Scope Q_scope.
Local Open Scope string_scope.
Local Open Scope list_scope.
Local Open Scope Z_scope.

(** ** JavaScript helpers *)

(** [x || d] on an optional number: [undefined] and [0] are falsy. *)
Definition js_or (x : option Z) (d : Z) : Z :=
  match x with
  | Some v => if v =? 0 then d else v
  | None => d
  end.

(** Template-literal rendering of an integer. *)
Definition js_num (n : Z) : string := pretty n.

(** [String.prototype.toLowerCase] on ASCII text. *)
Definition lower_ascii (c : ascii) : ascii :=
  let n := nat_of_ascii c in
  if (65 <=? n)%nat && (n <=? 90)%nat then ascii_of_nat (n + 32) else c.

Fixpoint toLowerCase (s : string) : string :=
  match s with
  | EmptyString => EmptyString
  | String c s' => String (lower_ascii c) (toLowerCase s')
  end.

(** [String.prototype.includes]. *)
Definition includes (s sub : string) : bool :=
  match String.index 0 sub s with
  | Some _ => true
  | None => false
  end.

(** [s.split(c)] for a one-character separator. *)
Fixpoint split_go (c : ascii) (cur : string) (s : string) : list string :=
  match s with
  | EmptyString => [String.rev cur]
  | String a s' =>
      if Ascii.eqb a c then String.rev cur :: split_go c EmptyString s'
      else split_go c (String a cur) s'
  end.

Definition split (c : ascii) (s : string) : list string :=
  split_go c EmptyString s.

(** [arr.sort((a, b) => a - b)]: ascending, stable. *)
Fixpoint insert_asc (x : Z) (l : list Z) : list Z :=
  match l with
  | [] => [x]
  | y :: l' => if x <? y then x :: y :: l' else y :: insert_asc x l'
  end.

Definition sort_asc (l : list Z) : list Z :=
  fold_left (fun acc x => insert_asc x acc) l [].

(** ** JavaScript [Map] with string keys, in insertion order *)

Module JsMap.

Definition t (V : Type) : Type := list (string * V).

Definition empty {V} : t V := [].

Fixpoint get {V} (k : string) (m : t V) : option V :=
  match m with
  | [] => None
  | (k', v) :: m' => if String.eqb k' k then Some v else get k m'
  end.

Definition has {V} (k : string) (m : t V) : bool :=
  match get k m with
  | Some _ => true
  | None => false
  end.

Fixpoint set {V} (k : string) (v : V) (m : t V) : t V :=
  match m with
  | [] => [(k, v)]
  | (k', v') :: m' =>
      if String.eqb k' k then (k', v) :: m' else (k', v') :: set k v m'
  end.

Definition keys {V} (m : t V) : list string := map fst m.

Definition values {V} (m : t V) : list V := map snd m.

(** [new Map(entries)] *)
Definition of_entries {V} (entries : list (string * V)) : t V :=
  fold_left (fun m kv => set (fst kv) (snd kv) m) entries empty.

End JsMap.

(** ** Domain model *)

Inductive Day : Type :=
  Monday | Tuesday | Wednesday | Thursday | Friday | Saturday.

(** The string a day is stored as (the schema's enum). *)
Definition day_name (d : Day) : string :=
  match d with
  | Monday => "Monday" | Tuesday => "Tuesday" | Wednesday => "Wednesday"
  | Thursday => "Thursday" | Friday => "Friday" | Saturday => "Saturday"
  end.

Inductive SessionType : Type := theory | lab.

Definition sessionType_name (t : SessionType) : string :=
  match t with theory => "theory" | lab => "lab" end.

Inductive RoomType : Type := classroom | lab_room | seminar_hall | auditorium.

(** The time slot copied into a gene. *)
Record GeneTimeSlot : Type := {
  day : Day;
  slotNumber : Z;
  startTime : string;
  endTime : string
}.

(** One class assignment. *)
Record Gene : Type := {
  courseId : string;
  courseCode : string;
  courseName : string;
  section : string;
  sessionType : SessionType;
  timeSlot : GeneTimeSlot;
  facultyId : string;
  facultyName : string;
  roomId : string;
  roomNumber : string;
  duration : Z;
  consecutiveSlots : Z
}.

(** A [TimeSlot] document. *)
Record TimeSlot : Type := {
  ts_slotNumber : Z;
  ts_day : Day;
  ts_startTime : string;
  ts_endTime : string
}.

(** One availability window of a faculty member. *)
Record Window : Type := {
  w_startTime : string;
  w_endTime : string
}.

Record Workload : Type := {
  maxHoursPerWeek : option Z;
  minHoursPerWeek : option Z
}.

(** An entry of [subjects]; the schema does not require [courseId]. *)
Record Subject : Type := {
  sub_courseId : option string
}.

(** A [Faculty] document; [availability d] is the array stored under
    the lower cased name of [d]. *)
Record Faculty : Type := {
  f_id : string;
  f_name : string;
  subjects : list Subject;
  availability : option (Day -> list Window);
  workload : option Workload;
  f_isActive : bool
}.

Record Room : Type := {
  r_id : string;
  r_roomNumber : string;
  capacity : Z;
  r_type : RoomType;
  labType : option string;
  r_isActive : bool
}.

Record Section : Type := {
  sectionName : string;
  strength : Z
}.

(** The hours of a course, in whole hours. *)
Record Hours : Type := {
  hoursPerWeek : Z;
  sessionDuration : Z
}.

(** A [Course] document; [specificLabType] is
    [roomRequirements?.lab?.specificLabType]. *)
Record Course : Type := {
  c_id : string;
  c_courseCode : string;
  c_courseName : string;
  theoryHours : Hours;
  labHours : Hours;
  sections : list Section;
  isElective : bool;
  electiveGroup : option string;
  specificLabType : option string
}.

Inductive ConstraintKind : Type := hard | soft.

Inductive Category : Type :=
  | faculty_workload | room_allocation | time_slot | student_section
  | lab_continuity | elective_grouping | preference | institutional_policy.

(** A [Constraint] document. *)
Record Constraint : Type := {
  name : string;
  kind : ConstraintKind;
  category : Category;
  description : string;
  priority : Z;
  weight : Z;
  isActive : bool
}.

(** ** FitnessCalculator *)

(** The penalty per single violation. *)
Record Weights : Type := {
  facultyDoubleBooking : Z;
  roomDoubleBooking : Z;
  sectionConflict : Z;
  facultyUnavailable : Z;
  labContinuity : Z;
  roomCapacity : Z;
  workloadExceeded : Z;
  workloadUnderUtilized : Z;
  studentGaps : Z;
  facultyGaps : Z;
  workloadBalance : Z;
  preferenceMatch : Z;
  consecutiveHours : Z;
  dailyDistribution : Z
}.

(** The [weights] object a caller passes: every entry may be absent. *)
Record WeightOptions : Type := {
  o_facultyDoubleBooking : option Z;
  o_roomDoubleBooking : option Z;
  o_sectionConflict : option Z;
  o_facultyUnavailable : option Z;
  o_labContinuity : option Z;
  o_roomCapacity : option Z;
  o_workloadExceeded : option Z;
  o_workloadUnderUtilized : option Z;
  o_studentGaps : option Z;
  o_facultyGaps : option Z;
  o_workloadBalance : option Z;
  o_preferenceMatch : option Z;
  o_consecutiveHours : option Z;
  o_dailyDistribution : option Z
}.

(** [constructor(weights = {})] *)
Definition FitnessCalculator (weights : option WeightOptions) : Weights :=
  let opt (f : WeightOptions -> option Z) := weights ≫= f in
  {| facultyDoubleBooking := js_or (opt o_facultyDoubleBooking) 1000;
     roomDoubleBooking := js_or (opt o_roomDoubleBooking) 1000;
     sectionConflict := js_or (opt o_sectionConflict) 1000;
     facultyUnavailable := js_or (opt o_facultyUnavailable) 900;
     labContinuity := js_or (opt o_labContinuity) 800;
     roomCapacity := js_or (opt o_roomCapacity) 800;
     workloadExceeded := js_or (opt o_workloadExceeded) 100;
     workloadUnderUtilized := js_or (opt o_workloadUnderUtilized) 80;
     studentGaps := js_or (opt o_studentGaps) 50;
     facultyGaps := js_or (opt o_facultyGaps) 40;
     workloadBalance := js_or (opt o_workloadBalance) 60;
     preferenceMatch := js_or (opt o_preferenceMatch) 30;
     consecutiveHours := js_or (opt o_consecutiveHours) 50;
     dailyDistribution := js_or (opt o_dailyDistribution) 40 |}.

(** *** Double bookings *)

Definition timeKey (ts : GeneTimeSlot) : string :=
  day_name (day ts) +:+ "-" +:+ js_num (slotNumber ts).

(** [`${gene.facultyId}-${gene.timeSlot.day}-${gene.timeSlot.slotNumber}`] *)
Definition facultyConflictKey (gene : Gene) : string :=
  facultyId gene +:+ "-" +:+ timeKey (timeSlot gene).

Definition roomConflictKey (gene : Gene) : string :=
  roomId gene +:+ "-" +:+ timeKey (timeSlot gene).

Definition sectionConflictKey (gene : Gene) : string :=
  section gene +:+ "-" +:+ timeKey (timeSlot gene).

(** The body the three conflict checks share: [conflicts] is the map of
    the keys seen so far, [count] the duplicates met. *)
Fixpoint conflictLoop (key : Gene -> string) (genes : list Gene)
    (conflicts : JsMap.t bool) (count : Z) : Z * JsMap.t bool :=
  match genes with
  | [] => (count, conflicts)
  | gene :: rest =>
      let k := key gene in
      let count' := if JsMap.has k conflicts then count + 1 else count in
      conflictLoop key rest (JsMap.set k true conflicts) count'
  end.

(** The returned [{ count, conflicts }]. *)
Definition checkConflicts (key : Gene -> string) (genes : list Gene)
    : Z * list string :=
  let r := conflictLoop key genes JsMap.empty 0 in
  (fst r, JsMap.keys (snd r)).

Definition checkFacultyConflicts (genes : list Gene) : Z * list string :=
  checkConflicts facultyConflictKey genes.

Definition checkRoomConflicts (genes : list Gene) : Z * list string :=
  checkConflicts roomConflictKey genes.

Definition checkSectionConflicts (genes : list Gene) : Z * list string :=
  checkConflicts sectionConflictKey genes.

(** *** Faculty availability *)

Definition idMap {A} (id : A -> string) (docs : list A) : JsMap.t A :=
  JsMap.of_entries (map (fun d => (id d, d)) docs).

(** The inner loop over the windows of the day. *)
Definition withinSomeWindow (ts : GeneTimeSlot) (dayAvailability : list Window)
    : bool :=
  existsb (fun slot =>
             String.leb (w_startTime slot) (startTime ts)
             && String.leb (endTime ts) (w_endTime slot))
          dayAvailability.

Definition availabilityStep (facultyMap : JsMap.t Faculty) (count : Z)
    (gene : Gene) : Z :=
  match JsMap.get (facultyId gene) facultyMap with
  | Some facultyMember =>
      match availability facultyMember with
      | Some avail =>
          let dayAvailability := avail (day (timeSlot gene)) in
          if (length dayAvailability =? 0)%nat then count + 1
          else if withinSomeWindow (timeSlot gene) dayAvailability then count
          else count + 1
      | None => count
      end
  | None => count
  end.

Definition checkFacultyAvailability (genes : list Gene) (faculty : list Faculty)
    : Z :=
  fold_left (availabilityStep (idMap f_id faculty)) genes 0.

(** *** Lab continuity *)

Definition isLab (g : Gene) : bool :=
  match sessionType g with lab => true | theory => false end.

Definition checkLabContinuity (genes : list Gene) : Z :=
  let labSessions := List.filter isLab genes in
  fold_left (fun count session =>
               if consecutiveSlots session >? 1 then count + 0 else count)
            labSessions 0.

(** *** Room capacity *)

Definition capacityStep (roomMap : JsMap.t Room) (courseMap : JsMap.t Course)
    (count : Z) (gene : Gene) : Z :=
  match JsMap.get (roomId gene) roomMap, JsMap.get (courseId gene) courseMap with
  | Some room, Some course =>
      match List.find (fun s => String.eqb (sectionName s) (section gene))
                      (sections course) with
      | Some sec => if capacity room <? strength sec then count + 1 else count
      | None => count
      end
  | _, _ => count
  end.

Definition checkRoomCapacity (genes : list Gene) (courses : list Course)
    (rooms : list Room) : Z :=
  fold_left (capacityStep (idMap r_id rooms) (idMap c_id courses)) genes 0.

(** *** Workload *)

(** Hours per faculty id, in order of first appearance. *)
Definition workloadOf (genes : list Gene) : JsMap.t Z :=
  fold_left (fun workload gene =>
               let current := js_or (JsMap.get (facultyId gene) workload) 0 in
               JsMap.set (facultyId gene) (current + duration gene) workload)
            genes JsMap.empty.

Definition maxHours (f : Faculty) : Z :=
  js_or (workload f ≫= maxHoursPerWeek) 18.

Definition minHours (f : Faculty) : Z :=
  js_or (workload f ≫= minHoursPerWeek) 12.

(** Returns [(exceeded, underUtilized)]. *)
Definition checkWorkloadConstraints (genes : list Gene) (faculty : list Faculty)
    : Z * Z :=
  let workload := workloadOf genes in
  fold_left (fun acc facultyMember =>
               let assigned := js_or (JsMap.get (f_id facultyMember) workload) 0 in
               if assigned >? maxHours facultyMember then (fst acc + 1, snd acc)
               else if assigned <? minHours facultyMember then (fst acc, snd acc + 1)
               else acc)
            faculty (0, 0).

(** *** Gaps *)

(** [if (!m.has(key)) m.set(key, []); m.get(key).push(x)] *)
Definition pushTo (key : string) (x : Z) (m : JsMap.t (list Z)) : JsMap.t (list Z) :=
  match JsMap.get key m with
  | Some l => JsMap.set key (l ++ [x]) m
  | None => JsMap.set key [x] m
  end.

Definition schedulesBy (key : Gene -> string) (genes : list Gene)
    : JsMap.t (list Z) :=
  fold_left (fun m gene => pushTo (key gene) (slotNumber (timeSlot gene)) m)
            genes JsMap.empty.

Definition sectionDayKey (gene : Gene) : string :=
  section gene +:+ "-" +:+ day_name (day (timeSlot gene)).

Definition facultyDayKey (gene : Gene) : string :=
  facultyId gene +:+ "-" +:+ day_name (day (timeSlot gene)).

(** The sum of [slots[i] - slots[i-1] - 1] over [i = 1 .. length - 1]. *)
Fixpoint gapsOf (slots : list Z) : Z :=
  match slots with
  | a :: (b :: _) as rest => (b - a - 1) + gapsOf rest
  | _ => 0
  end.

Definition totalGapsBy (key : Gene -> string) (genes : list Gene) : Z :=
  fold_left (fun totalGaps kv => totalGaps + gapsOf (sort_asc (snd kv)))
            (schedulesBy key genes) 0.

Definition calculateStudentGaps (genes : list Gene) : Z :=
  totalGapsBy sectionDayKey genes.

Definition calculateFacultyGaps (genes : list Gene) : Z :=
  totalGapsBy facultyDayKey genes.

(** *** Workload balance *)

Definition sumQ (l : list Q) : Q := fold_left Qplus l (0#1)%Q.

(** [Math.floor(Math.sqrt(v))] for a non-negative rational, with the
    exact square root. *)
Definition floor_sqrt (v : Q) : Z := Z.sqrt (Qfloor v).

(** Returns [(imbalance, variance)]; the variance is kept exact
    ([toFixed(2)] only formats it). *)
Definition evaluateWorkloadBalance (genes : list Gene) (faculty : list Faculty)
    : Z * Q :=
  let workloads := map inject_Z (JsMap.values (workloadOf genes)) in
  if (length workloads =? 0)%nat then (0, (0#1)%Q)
  else
    let n := inject_Z (Z.of_nat (length workloads)) in
    let mean := (sumQ workloads / n)%Q in
    let variance :=
      (sumQ (map (fun w => (w - mean) * (w - mean)) workloads) / n)%Q in
    (floor_sqrt variance, Qred variance).

(** *** Consecutive hours *)

(** The walk over one sorted day: [consecutive] is the current run. *)
Fixpoint consecutiveWalk (slots : list Z) (consecutive count : Z) : Z :=
  match slots with
  | a :: (b :: _) as rest =>
      if b - a =? 1 then
        let consecutive' := consecutive + 1 in
        consecutiveWalk rest consecutive'
          (if consecutive' >? 3 then count + 1 else count)
      else consecutiveWalk rest 1 count
  | _ => count
  end.

Definition checkConsecutiveHours (genes : list Gene) (faculty : list Faculty)
    : Z :=
  fold_left (fun count kv => consecutiveWalk (sort_asc (snd kv)) 1 count)
            (schedulesBy facultyDayKey genes) 0.

(** *** The score *)

(** An entry of the [details] breakdown.  Entries of type
    ['workload_imbalance'] and ['workload_balance'] have their own
    shape; all other entries carry [type], [count] and [penalty]. *)
Inductive DetailEntry : Type :=
  | CountDetail (type : string) (count penalty : Z)
  | WorkloadDetail (exceeded underUtilized penalty : Z)
  | BalanceDetail (variance : Q) (penalty : Z).

Record Details : Type := {
  hardConstraints : list DetailEntry;
  softConstraints : list DetailEntry
}.

(** What [calculate] returns. *)
Record Evaluation : Type := {
  ev_fitness : Z;
  ev_hardViolations : Z;
  ev_softViolations : Z;
  ev_details : Details
}.

(** [if (cond) list.push(entry)] *)
Definition pushIf (cond : bool) (entry : DetailEntry) (l : list DetailEntry)
    : list DetailEntry :=
  if cond then l ++ [entry] else l.

(** [calculate(chromosome, courses, faculty, rooms, constraints)], on the
    genes the chromosome holds. *)
Definition calculate (w : Weights) (genes : list Gene) (courses : list Course)
    (faculty : list Faculty) (rooms : list Room) (constraints : list Constraint)
    : Evaluation :=
  let fitness := 1000 in
  let hardViolations := 0 in
  let softViolations := 0 in
  let hardC := [] in
  let softC := [] in
  (* hard constraints *)
  let facultyConflicts := fst (checkFacultyConflicts genes) in
  let hardViolations := hardViolations + facultyConflicts in
  let fitness := fitness - facultyConflicts * facultyDoubleBooking w in
  let hardC := pushIf (facultyConflicts >? 0)
    (CountDetail "faculty_double_booking" facultyConflicts
       (facultyConflicts * facultyDoubleBooking w)) hardC in
  let roomConflicts := fst (checkRoomConflicts genes) in
  let hardViolations := hardViolations + roomConflicts in
  let fitness := fitness - roomConflicts * roomDoubleBooking w in
  let hardC := pushIf (roomConflicts >? 0)
    (CountDetail "room_double_booking" roomConflicts
       (roomConflicts * roomDoubleBooking w)) hardC in
  let sectionConflicts := fst (checkSectionConflicts genes) in
  let hardViolations := hardViolations + sectionConflicts in
  let fitness := fitness - sectionConflicts * sectionConflict w in
  let hardC := pushIf (sectionConflicts >? 0)
    (CountDetail "section_conflict" sectionConflicts
       (sectionConflicts * sectionConflict w)) hardC in
  let unavailableSlots := checkFacultyAvailability genes faculty in
  let hardViolations := hardViolations + unavailableSlots in
  let fitness := fitness - unavailableSlots * facultyUnavailable w in
  let hardC := pushIf (unavailableSlots >? 0)
    (CountDetail "faculty_unavailable" unavailableSlots
       (unavailableSlots * facultyUnavailable w)) hardC in
  let labCont := checkLabContinuity genes in
  let hardViolations := hardViolations + labCont in
  let fitness := fitness - labCont * labContinuity w in
  let hardC := pushIf (labCont >? 0)
    (CountDetail "lab_continuity_broken" labCont
       (labCont * labContinuity w)) hardC in
  let capacityIssues := checkRoomCapacity genes courses rooms in
  let hardViolations := hardViolations + capacityIssues in
  let fitness := fitness - capacityIssues * roomCapacity w in
  let hardC := pushIf (capacityIssues >? 0)
    (CountDetail "room_capacity_exceeded" capacityIssues
       (capacityIssues * roomCapacity w)) hardC in
  (* soft constraints *)
  let workloadViolations := checkWorkloadConstraints genes faculty in
  let exceeded := fst workloadViolations in
  let underUtilized := snd workloadViolations in
  let softViolations := softViolations + (exceeded + underUtilized) in
  let fitness := fitness - exceeded * workloadExceeded w in
  let fitness := fitness - underUtilized * workloadUnderUtilized w in
  let softC := pushIf (exceeded + underUtilized >? 0)
    (WorkloadDetail exceeded underUtilized
       (exceeded * workloadExceeded w
        + underUtilized * workloadUnderUtilized w)) softC in
  let studentGapsTotal := calculateStudentGaps genes in
  let softViolations := softViolations + studentGapsTotal in
  let fitness := fitness - studentGapsTotal * studentGaps w in
  let softC := pushIf (studentGapsTotal >? 0)
    (CountDetail "student_gaps" studentGapsTotal
       (studentGapsTotal * studentGaps w)) softC in
  let facultyGapsTotal := calculateFacultyGaps genes in
  let softViolations := softViolations + facultyGapsTotal in
  let fitness := fitness - facultyGapsTotal * facultyGaps w in
  let softC := pushIf (facultyGapsTotal >? 0)
    (CountDetail "faculty_gaps" facultyGapsTotal
       (facultyGapsTotal * facultyGaps w)) softC in
  let balance := evaluateWorkloadBalance genes faculty in
  let imbalance := fst balance in
  let softViolations := softViolations + imbalance in
  let fitness := fitness - imbalance * workloadBalance w in
  let softC := pushIf (imbalance >? 0)
    (BalanceDetail (snd balance) (imbalance * workloadBalance w)) softC in
  let consecutive := checkConsecutiveHours genes faculty in
  let softViolations := softViolations + consecutive in
  let fitness := fitness - consecutive * consecutiveHours w in
  let softC := pushIf (consecutive >? 0)
    (CountDetail "excessive_consecutive_hours" consecutive
       (consecutive * consecutiveHours w)) softC in
  (* the score is not negative *)
  let fitness := Z.max 0 fitness in
  {| ev_fitness := fitness;
     ev_hardViolations := hardViolations;
     ev_softViolations := softViolations;
     ev_details := {| hardConstraints := hardC; softConstraints := softC |} |}.

(** The entry of the weight table a detail type is charged at. *)
Definition weightOfType (w : Weights) (type : string) : Z :=
  if String.eqb type "faculty_double_booking" then facultyDoubleBooking w
  else if String.eqb type "room_double_booking" then roomDoubleBooking w
  else if String.eqb type "section_conflict" then sectionConflict w
  else if String.eqb type "faculty_unavailable" then facultyUnavailable w
  else if String.eqb type "lab_continuity_broken" then labContinuity w
  else if String.eqb type "room_capacity_exceeded" then roomCapacity w
  else if String.eqb type "student_gaps" then studentGaps w
  else if String.eqb type "faculty_gaps" then facultyGaps w
  else if String.eqb type "excessive_consecutive_hours" then consecutiveHours w
  else 0.

(** The penalty recomputed from the counts an entry reports; the
    ['workload_balance'] entry reports no count, its penalty is taken as
    recorded. *)
Definition entryCharge (w : Weights) (d : DetailEntry) : Z :=
  match d with
  | CountDetail type count _ => count * weightOfType w type
  | WorkloadDetail exceeded underUtilized _ =>
      exceeded * workloadExceeded w + underUtilized * workloadUnderUtilized w
  | BalanceDetail _ penalty => penalty
  end.

Definition entryPenalty (d : DetailEntry) : Z :=
  match d with
  | CountDetail _ _ penalty => penalty
  | WorkloadDetail _ _ penalty => penalty
  | BalanceDetail _ penalty => penalty
  end.

Definition sumZ (l : list Z) : Z := fold_right Z.add 0 l.

(** The sum of [count * weight] over the whole breakdown. *)
Definition detailsCharge (w : Weights) (d : Details) : Z :=
  sumZ (map (entryCharge w) (hardConstraints d ++ softConstraints d)).

(** ** The world the genetic algorithm runs in *)

Inductive JsError : Type := TypeError | SyntaxError.

(** A real of [0, 1): the fraction [u_num / (u_num + u_gap + 1)]. *)
Record U01 : Type := {
  u_num : nat;
  u_gap : nat
}.

Definition u_den (u : U01) : nat := (u_num u + u_gap u + 1)%nat.

Definition u_value (u : U01) : Q :=
  (Z.of_nat (u_num u) # Pos.of_nat (u_den u))%Q.

(** [Math.floor(u * n)] *)
Definition floorTimes (u : U01) (n : nat) : nat :=
  (u_num u * n / u_den u)%nat.

Definition Qltb (a b : Q) : bool := negb (Qle_bool b a).

(** What a progress callback is handed. *)
Record Progress : Type := {
  p_generation : nat;
  p_maxGenerations : Q;
  p_progress : Q;
  p_bestFitness : Z;
  p_avgFitness : Q;
  p_hardViolations : Z
}.

(** The gene objects, the ambient random sequence with the number of
    values read so far, and the progress records handed out. *)
Record World : Type := {
  store : list Gene;
  random : nat -> U01;
  drawn : nat;
  notified : list Progress
}.

(** How a call ends: with a value, with an exception thrown in some
    state of the world, or not at all.  [Unmodelled] is not an end: the
    call has stored [null] where the model keeps chromosomes, and the
    model does not follow it further. *)
Inductive Outcome (A : Type) : Type :=
  | Ok (a : A)
  | Throw (e : JsError) (w : World)
  | Diverge
  | Unmodelled.

Arguments Ok {A} a.
Arguments Throw {A} e w.
Arguments Diverge {A}.
Arguments Unmodelled {A}.

Definition M (A : Type) : Type := World -> Outcome (A * World).

Definition ret {A} (a : A) : M A := fun w => Ok (a, w).

Definition bind {A B} (m : M A) (f : A -> M B) : M B :=
  fun w =>
    match m w with
    | Ok (a, w') => f a w'
    | Throw e w' => Throw e w'
    | Diverge => Diverge
    | Unmodelled => Unmodelled
    end.

Definition throw {A} (e : JsError) : M A := fun w => Throw e w.

Definition diverge {A} : M A := fun _ => Diverge.

Definition unmodelled {A} : M A := fun _ => Unmodelled.

Notation "x <- m ;; k" := (bind m (fun x => k))
  (at level 62, m at next level, right associativity).

(** [Math.random()] *)
Definition Math_random : M U01 :=
  fun w =>
    Ok (random w (drawn w),
        {| store := store w; random := random w;
           drawn := S (drawn w); notified := notified w |}).

(** A fresh gene object. *)
Definition alloc (g : Gene) : M nat :=
  fun w =>
    Ok (length (store w),
        {| store := store w ++ [g]; random := random w;
           drawn := drawn w; notified := notified w |}).

(** Reading through a reference; a reference to no object reads as
    [undefined], whose property access is a [TypeError]. *)
Definition deref (r : nat) : M Gene :=
  fun w =>
    match store w !! r with
    | Some g => Ok (g, w)
    | None => Throw TypeError w
    end.

(** Writing a gene object in place. *)
Definition assign (r : nat) (g : Gene) : M unit :=
  fun w =>
    Ok (tt, {| store := <[r := g]> (store w); random := random w;
               drawn := drawn w; notified := notified w |}).

Definition notify (p : Progress) : M unit :=
  fun w =>
    Ok (tt, {| store := store w; random := random w;
               drawn := drawn w; notified := notified w ++ [p] |}).

Fixpoint mapM {A B} (f : A -> M B) (l : list A) : M (list B) :=
  match l with
  | [] => ret []
  | a :: l' => b <- f a ;; bs <- mapM f l' ;; ret (b :: bs)
  end.

(** ** GeneticAlgorithm *)

(** A schedule: the gene objects it refers to and the cached result of
    its last evaluation. *)
Record Chromosome : Type := {
  genes : list nat;
  fitness : Z;
  hardViolations : Z;
  softViolations : Z;
  details : option Details
}.

Record HistoryRecord : Type := {
  generation : nat;
  bestFitness : Z;
  avgFitness : Q;
  h_hardViolations : Z;
  h_softViolations : Z
}.

(** The options object: numbers, as the caller gives them. *)
Record Config : Type := {
  cfg_populationSize : option Q;
  cfg_maxGenerations : option Q;
  cfg_mutationRate : option Q;
  cfg_crossoverRate : option Q;
  cfg_elitismCount : option Q;
  cfg_tournamentSize : option Q;
  cfg_weights : option WeightOptions;
  cfg_seed : option Z
}.

(** The problem data handed to [initialize]. *)
Record Data : Type := {
  d_courses : list Course;
  d_faculty : list Faculty;
  d_rooms : list Room;
  d_timeSlots : list TimeSlot;
  d_constraints : list Constraint
}.

(** The fields of a [GeneticAlgorithm] object. *)
Record GeneticAlgorithm : Type := {
  populationSize : Q;
  maxGenerations : Q;
  mutationRate : Q;
  crossoverRate : Q;
  elitismCount : Q;
  tournamentSize : Q;
  fitnessCalculator : Weights;
  courses : list Course;
  faculty : list Faculty;
  rooms : list Room;
  timeSlots : list TimeSlot;
  constraints : list Constraint;
  population : list Chromosome;
  bestChromosome : option Chromosome;
  generationHistory : list HistoryRecord
}.

(** [x || d] on an optional number: a negative number and a fraction
    are truthy and stay. *)
Definition js_or_Q (x : option Q) (d : Q) : Q :=
  match x with
  | Some v => if Qeq_bool v (0 # 1) then d else v
  | None => d
  end.

(** The rounds of [for (let i = 0; i < bound; i++)], and the least
    length that is not below [bound]: none for a negative bound, three
    for 2.5. *)
Definition loopCount (bound : Q) : nat := Z.to_nat (Qceiling bound).

(** [constructor(config = {})] *)
Definition GeneticAlgorithm_new (config : Config) : GeneticAlgorithm :=
  {| populationSize := js_or_Q (cfg_populationSize config) (100 # 1);
     maxGenerations := js_or_Q (cfg_maxGenerations config) (1000 # 1);
     mutationRate := js_or_Q (cfg_mutationRate config) (1 # 10);
     crossoverRate := js_or_Q (cfg_crossoverRate config) (8 # 10);
     elitismCount := js_or_Q (cfg_elitismCount config) (5 # 1);
     tournamentSize := js_or_Q (cfg_tournamentSize config) (5 # 1);
     fitnessCalculator := FitnessCalculator (cfg_weights config);
     courses := []; faculty := []; rooms := []; timeSlots := [];
     constraints := [];
     population := [];
     bestChromosome := None;
     generationHistory := [] |}.

Definition initialize (data : Data) (ga : GeneticAlgorithm) : GeneticAlgorithm :=
  {| populationSize := populationSize ga;
     maxGenerations := maxGenerations ga;
     mutationRate := mutationRate ga;
     crossoverRate := crossoverRate ga;
     elitismCount := elitismCount ga;
     tournamentSize := tournamentSize ga;
     fitnessCalculator := fitnessCalculator ga;
     courses := d_courses data;
     faculty := d_faculty data;
     rooms := d_rooms data;
     timeSlots := d_timeSlots data;
     constraints := d_constraints data;
     population := population ga;
     bestChromosome := bestChromosome ga;
     generationHistory := generationHistory ga |}.

Definition set_population (p : list Chromosome) (ga : GeneticAlgorithm)
    : GeneticAlgorithm :=
  {| populationSize := populationSize ga;
     maxGenerations := maxGenerations ga;
     mutationRate := mutationRate ga;
     crossoverRate := crossoverRate ga;
     elitismCount := elitismCount ga;
     tournamentSize := tournamentSize ga;
     fitnessCalculator := fitnessCalculator ga;
     courses := courses ga; faculty := faculty ga; rooms := rooms ga;
     timeSlots := timeSlots ga; constraints := constraints ga;
     population := p;
     bestChromosome := bestChromosome ga;
     generationHistory := generationHistory ga |}.

Definition set_bestChromosome (b : option Chromosome) (ga : GeneticAlgorithm)
    : GeneticAlgorithm :=
  {| populationSize := populationSize ga;
     maxGenerations := maxGenerations ga;
     mutationRate := mutationRate ga;
     crossoverRate := crossoverRate ga;
     elitismCount := elitismCount ga;
     tournamentSize := tournamentSize ga;
     fitnessCalculator := fitnessCalculator ga;
     courses := courses ga; faculty := faculty ga; rooms := rooms ga;
     timeSlots := timeSlots ga; constraints := constraints ga;
     population := population ga;
     bestChromosome := b;
     generationHistory := generationHistory ga |}.

Definition push_history (h : HistoryRecord) (ga : GeneticAlgorithm)
    : GeneticAlgorithm :=
  {| populationSize := populationSize ga;
     maxGenerations := maxGenerations ga;
     mutationRate := mutationRate ga;
     crossoverRate := crossoverRate ga;
     elitismCount := elitismCount ga;
     tournamentSize := tournamentSize ga;
     fitnessCalculator := fitnessCalculator ga;
     courses := courses ga; faculty := faculty ga; rooms := rooms ga;
     timeSlots := timeSlots ga; constraints := constraints ga;
     population := population ga;
     bestChromosome := bestChromosome ga;
     generationHistory := generationHistory ga ++ [h] |}.

(** *** Random construction *)

(** A required session. *)
Record Session : Type := {
  s_type : SessionType;
  s_duration : Z;
  s_consecutiveSlots : Z
}.

(** The quotient [h / d] of the program is a double: the rational
    quotient rounded to the nearest of them, a tie to the even
    significand.  [roundHalfEven n d] is the whole number nearest to
    [n / d], for [0 < d]. *)
Definition roundHalfEven (n d : Z) : Z :=
  let q := n / d in
  match 2 * (n mod d) ?= d with
  | Lt => q
  | Gt => q + 1
  | Eq => if Z.even q then q else q + 1
  end.

(** The exponent of the last place of the double nearest to [n / d],
    for [0 < n] and [0 < d]: the [e] with
    [2^52 <= (n / d) / 2^e < 2^53], and [-1074] among the subnormal
    numbers. *)
Definition ulpExponent (n d : Z) : Z :=
  let l := Z.log2 n - Z.log2 d in
  let reaches := if 0 <=? l then d * 2 ^ l <=? n else d <=? n * 2 ^ (- l) in
  Z.max (-1074) ((if reaches then l else l - 1) - 52).

(** [n / d] as a double, for [0 <= n] and [0 < d]; [None] is
    [Infinity]. *)
Definition nearestDouble (n d : Z) : option Q :=
  if n =? 0 then Some (0 # 1)%Q
  else
    let e := ulpExponent n d in
    let m := roundHalfEven (n * 2 ^ Z.max 0 (- e)) (d * 2 ^ Z.max 0 e) in
    if (971 <? e) || ((e =? 971) && (m =? 2 ^ 53)) then None
    else Some (m * 2 ^ Z.max 0 e # Z.to_pos (2 ^ Z.max 0 (- e)))%Q.

(** The number of rounds of [for (i = 0; i < Math.ceil(h / d); i++)]
    for doubles [h > 0] and [d]; [h / 0] is [Infinity] and the loop has
    no end: [None].  A negative quotient gives no round. *)
Definition numSessionsOfDoubles (h d : Q) : option nat :=
  if Qeq_bool d (0 # 1) then None
  else
    let q := (h / d)%Q in
    match nearestDouble (Z.abs (Qnum q)) (Zpos (Qden q)) with
    | None => if 0 <? Qnum q then None else Some 0%nat
    | Some x => Some (if 0 <? Qnum q then Z.to_nat (Qceiling x) else 0%nat)
    end.

(** The rounds for the hours of a course document, whole numbers in the
    model. *)
Definition numSessions (h : Hours) : option nat :=
  numSessionsOfDoubles (inject_Z (hoursPerWeek h))
                       (inject_Z (sessionDuration h)).

(** [getRequiredSessions(course)]; [None] when a loop has no end. *)
Definition getRequiredSessions (course : Course) : option (list Session) :=
  theorySessions ←
    (if hoursPerWeek (theoryHours course) >? 0 then
       n ← numSessions (theoryHours course);
       Some (replicate n {| s_type := theory;
                            s_duration := sessionDuration (theoryHours course);
                            s_consecutiveSlots := 1 |})
     else Some []);
  labSessions ←
    (if hoursPerWeek (labHours course) >? 0 then
       n ← numSessions (labHours course);
       Some (replicate n {| s_type := lab;
                            s_duration := sessionDuration (labHours course);
                            s_consecutiveSlots := sessionDuration (labHours course) |})
     else Some []);
  Some (theorySessions ++ labSessions).

(** [subjects.some(s => s.courseId.toString() === id)]: the entries
    are read up to the first that matches, and reading [toString] of a
    missing [courseId] is a [TypeError], here [None]. *)
Fixpoint teaches (subjects : list Subject) (id : string) : option bool :=
  match subjects with
  | [] => Some false
  | s :: rest =>
      match sub_courseId s with
      | None => None
      | Some c => if String.eqb c id then Some true else teaches rest id
      end
  end.

(** The test of the faculty filter, [some(...) && f.isActive]. *)
Definition isEligibleFaculty (course : Course) (f : Faculty) : option bool :=
  match teaches (subjects f) (c_id course) with
  | None => None
  | Some b => Some (b && f_isActive f)
  end.

(** [docs.filter(test)] for a test that may throw: [None] when it
    does. *)
Fixpoint filterThrowing {A} (test : A -> option bool) (docs : list A)
    : option (list A) :=
  match docs with
  | [] => Some []
  | d :: rest =>
      match test d with
      | None => None
      | Some b =>
          match filterThrowing test rest with
          | None => None
          | Some l => Some (if b then d :: l else l)
          end
      end
  end.

Definition optionStringEqb (a : option string) (b : string) : bool :=
  match a with
  | Some s => String.eqb s b
  | None => false
  end.

Definition isRoomSuitable (room : Room) (course : Course)
    (sessionType : SessionType) (section : Section) : bool :=
  if negb (r_isActive room) then false
  else if capacity room <? strength section then false
  else
    match sessionType with
    | lab =>
        match r_type room with
        | lab_room =>
            match specificLabType course with
            | Some (String c s) =>
                let requiredType := toLowerCase (String c s) in
                if negb (optionStringEqb (labType room) requiredType)
                   && negb (String.eqb requiredType "general")
                then false else true
            | _ => true
            end
        | _ => false
        end
    | theory =>
        match r_type room with
        | classroom | seminar_hall => true
        | _ => false
        end
    end.

Definition geneTimeSlot (ts : TimeSlot) : GeneTimeSlot :=
  {| day := ts_day ts; slotNumber := ts_slotNumber ts;
     startTime := ts_startTime ts; endTime := ts_endTime ts |}.

Definition eligibleFaculty (ga : GeneticAlgorithm) (course : Course)
    : option (list Faculty) :=
  filterThrowing (isEligibleFaculty course) (faculty ga).

Definition eligibleRooms (ga : GeneticAlgorithm) (course : Course)
    (sessionType : SessionType) (section : Section) : list Room :=
  List.filter (fun r => isRoomSuitable r course sessionType section) (rooms ga).

(** [createRandomGene(course, section, session)]: [None] is [null].
    A faculty filter that throws, and reading a field of an [undefined]
    array element, throw inside the [try] and are caught. *)
Definition createRandomGene (ga : GeneticAlgorithm) (course : Course)
    (section : Section) (session : Session) : M (option Gene) :=
  u1 <- Math_random ;;
  let timeSlot := timeSlots ga !! floorTimes u1 (length (timeSlots ga)) in
  match eligibleFaculty ga course with
  | None => ret None
  | Some eligible =>
      if (length eligible =? 0)%nat then ret None
      else
        u2 <- Math_random ;;
        let facultyMember := eligible !! floorTimes u2 (length eligible) in
        let suitable := eligibleRooms ga course (s_type session) section in
        if (length suitable =? 0)%nat then ret None
        else
          u3 <- Math_random ;;
          let room := suitable !! floorTimes u3 (length suitable) in
          match timeSlot, facultyMember, room with
          | Some ts, Some f, Some r =>
              ret (Some {| courseId := c_id course;
                           courseCode := c_courseCode course;
                           courseName := c_courseName course;
                           section := sectionName section;
                           sessionType := s_type session;
                           timeSlot := geneTimeSlot ts;
                           facultyId := f_id f;
                           facultyName := f_name f;
                           roomId := r_id r;
                           roomNumber := r_roomNumber r;
                           duration := s_duration session;
                           consecutiveSlots := s_consecutiveSlots session |})
          | _, _, _ => ret None
          end
  end.

Fixpoint forSessions (ga : GeneticAlgorithm) (course : Course)
    (section : Section) (sessions : list Session) (acc : list nat)
    : M (list nat) :=
  match sessions with
  | [] => ret acc
  | session :: rest =>
      gene <- createRandomGene ga course section session ;;
      match gene with
      | Some g => r <- alloc g ;; forSessions ga course section rest (acc ++ [r])
      | None => forSessions ga course section rest acc
      end
  end.

Fixpoint forSections (ga : GeneticAlgorithm) (course : Course)
    (sessions : list Session) (secs : list Section) (acc : list nat)
    : M (list nat) :=
  match secs with
  | [] => ret acc
  | section :: rest =>
      acc' <- forSessions ga course section sessions acc ;;
      forSections ga course sessions rest acc'
  end.

Fixpoint forCourses (ga : GeneticAlgorithm) (cs : list Course)
    (acc : list nat) : M (list nat) :=
  match cs with
  | [] => ret acc
  | course :: rest =>
      match getRequiredSessions course with
      | None => diverge
      | Some sessions =>
          acc' <- forSections ga course sessions (sections course) acc ;;
          forCourses ga rest acc'
      end
  end.

Definition createRandomChromosome (ga : GeneticAlgorithm) : M Chromosome :=
  gs <- forCourses ga (courses ga) [] ;;
  ret {| genes := gs; fitness := 0; hardViolations := 0;
         softViolations := 0; details := None |}.

Fixpoint populate (ga : GeneticAlgorithm) (n : nat) (acc : list Chromosome)
    : M (list Chromosome) :=
  match n with
  | O => ret acc
  | S n' =>
      chromosome <- createRandomChromosome ga ;;
      populate ga n' (acc ++ [chromosome])
  end.

Definition generateInitialPopulation (ga : GeneticAlgorithm)
    : M GeneticAlgorithm :=
  p <- populate ga (loopCount (populationSize ga)) [] ;;
  ret (set_population p ga).

(** *** Evaluation *)

(** The gene objects of a chromosome, as they are now. *)
Definition resolve (c : Chromosome) : M (list Gene) :=
  mapM deref (genes c).

Definition evaluateChromosome (ga : GeneticAlgorithm) (chromosome : Chromosome)
    : M Chromosome :=
  gs <- resolve chromosome ;;
  let evaluation :=
    calculate (fitnessCalculator ga) gs (courses ga) (faculty ga) (rooms ga)
              (constraints ga) in
  ret {| genes := genes chromosome;
         fitness := ev_fitness evaluation;
         hardViolations := ev_hardViolations evaluation;
         softViolations := ev_softViolations evaluation;
         details := Some (ev_details evaluation) |}.

Definition evaluatePopulation (ga : GeneticAlgorithm) : M GeneticAlgorithm :=
  p <- mapM (evaluateChromosome ga) (population ga) ;;
  ret (set_population p ga).

(** *** Evolution *)

(** [JSON.parse(JSON.stringify(chromosome))]: the same values in fresh
    gene objects. *)
Definition deepCopy (c : Chromosome) : M Chromosome :=
  gs <- resolve c ;;
  rs <- mapM alloc gs ;;
  ret {| genes := rs; fitness := fitness c;
         hardViolations := hardViolations c;
         softViolations := softViolations c; details := details c |}.

(** [sort((a, b) => b.fitness - a.fitness)]: descending, stable. *)
Fixpoint insert_desc (c : Chromosome) (l : list Chromosome) : list Chromosome :=
  match l with
  | [] => [c]
  | y :: l' =>
      if fitness y <? fitness c then c :: y :: l' else y :: insert_desc c l'
  end.

Definition sortByFitness (l : list Chromosome) : list Chromosome :=
  fold_left (fun acc c => insert_desc c acc) l [].

(** The elitism loop, [n] rounds from index [i]; the copy of an
    [undefined] element fails in [JSON.parse]. *)
Fixpoint elites (sorted : list Chromosome) (i n : nat)
    (newPopulation : list Chromosome) : M (list Chromosome) :=
  match n with
  | O => ret newPopulation
  | S n' =>
      match sorted !! i with
      | None => throw SyntaxError
      | Some c =>
          copy <- deepCopy c ;;
          elites sorted (S i) n' (newPopulation ++ [copy])
      end
  end.

Definition better (candidate : Chromosome) (best : option Chromosome)
    : bool :=
  match best with
  | None => true
  | Some b => fitness candidate >? fitness b
  end.

(** The rounds of a tournament.  A candidate drawn from an empty
    population is [undefined]; while [best] is [null] or [undefined],
    [!best] holds and the candidate is taken as it is. *)
Fixpoint tournamentLoop (ga : GeneticAlgorithm) (n : nat)
    (best : option Chromosome) : M (option Chromosome) :=
  match n with
  | O => ret best
  | S n' =>
      u <- Math_random ;;
      match population ga !! floorTimes u (length (population ga)) with
      | None =>
          match best with
          | None => tournamentLoop ga n' None
          | Some _ => throw TypeError
          end
      | Some candidate =>
          tournamentLoop ga n'
            (if better candidate best then Some candidate else best)
      end
  end.

(** [tournamentSelection()]: [None] is the [null] of a tournament
    without a round, and otherwise the [undefined] drawn from an empty
    population. *)
Definition tournamentSelection (ga : GeneticAlgorithm)
    : M (option Chromosome) :=
  tournamentLoop ga (loopCount (tournamentSize ga)) None.

(** Single point crossover: the offspring holds the parents' gene
    objects, not copies of them. *)
Definition crossover (parent1 parent2 : Chromosome) : M Chromosome :=
  u <- Math_random ;;
  let crossoverPoint := floorTimes u (length (genes parent1)) in
  ret {| genes := take crossoverPoint (genes parent1)
                  ++ drop crossoverPoint (genes parent2);
         fitness := 0; hardViolations := 0; softViolations := 0;
         details := None |}.

Definition withTimeSlot (ts : GeneTimeSlot) (g : Gene) : Gene :=
  {| courseId := courseId g; courseCode := courseCode g;
     courseName := courseName g; section := section g;
     sessionType := sessionType g; timeSlot := ts;
     facultyId := facultyId g; facultyName := facultyName g;
     roomId := roomId g; roomNumber := roomNumber g;
     duration := duration g; consecutiveSlots := consecutiveSlots g |}.

Definition withFaculty (f : Faculty) (g : Gene) : Gene :=
  {| courseId := courseId g; courseCode := courseCode g;
     courseName := courseName g; section := section g;
     sessionType := sessionType g; timeSlot := timeSlot g;
     facultyId := f_id f; facultyName := f_name f;
     roomId := roomId g; roomNumber := roomNumber g;
     duration := duration g; consecutiveSlots := consecutiveSlots g |}.

Definition withRoom (r : Room) (g : Gene) : Gene :=
  {| courseId := courseId g; courseCode := courseCode g;
     courseName := courseName g; section := section g;
     sessionType := sessionType g; timeSlot := timeSlot g;
     facultyId := facultyId g; facultyName := facultyName g;
     roomId := r_id r; roomNumber := r_roomNumber r;
     duration := duration g; consecutiveSlots := consecutiveSlots g |}.

Definition findCourse (ga : GeneticAlgorithm) (g : Gene) : option Course :=
  List.find (fun c => String.eqb (c_id c) (courseId g)) (courses ga).

Definition findSection (course : Course) (g : Gene) : option Section :=
  List.find (fun s => String.eqb (sectionName s) (section g)) (sections course).

(** [mutate(chromosome)]: writes through one gene reference. *)
Definition mutate (ga : GeneticAlgorithm) (chromosome : Chromosome) : M unit :=
  if (length (genes chromosome) =? 0)%nat then ret tt
  else
    u <- Math_random ;;
    let geneIndex := floorTimes u (length (genes chromosome)) in
    match genes chromosome !! geneIndex with
    | None => throw TypeError
    | Some r =>
        mutationType <- Math_random ;;
        if Qltb (u_value mutationType) (33 # 100) then
          u' <- Math_random ;;
          match timeSlots ga !! floorTimes u' (length (timeSlots ga)) with
          | None => throw TypeError
          | Some newTimeSlot =>
              gene <- deref r ;;
              assign r (withTimeSlot (geneTimeSlot newTimeSlot) gene)
          end
        else if Qltb (u_value mutationType) (66 # 100) then
          gene <- deref r ;;
          match findCourse ga gene with
          | Some course =>
              match eligibleFaculty ga course with
              | None => throw TypeError
              | Some eligible =>
                  if (0 <? length eligible)%nat then
                    u' <- Math_random ;;
                    match eligible !! floorTimes u' (length eligible) with
                    | None => throw TypeError
                    | Some newFaculty => assign r (withFaculty newFaculty gene)
                    end
                  else ret tt
              end
          | None => ret tt
          end
        else
          gene <- deref r ;;
          match findCourse ga gene with
          | Some course =>
              match findSection course gene with
              | Some sec =>
                  let suitable := eligibleRooms ga course (sessionType gene) sec in
                  if (0 <? length suitable)%nat then
                    u' <- Math_random ;;
                    match suitable !! floorTimes u' (length suitable) with
                    | None => throw TypeError
                    | Some newRoom => assign r (withRoom newRoom gene)
                    end
                  else ret tt
              | None => ret tt
              end
          | None => ret tt
          end
    end.

(** [this.crossover(parent1, parent2)] on what the tournaments handed
    back: a parent that is [null] or [undefined] has no [genes], which
    shows after the crossover point has been drawn. *)
Definition crossoverOf (parent1 parent2 : option Chromosome)
    : M (option Chromosome) :=
  match parent1, parent2 with
  | Some p1, Some p2 => offspring <- crossover p1 p2 ;; ret (Some offspring)
  | _, _ => _ <- Math_random ;; throw TypeError
  end.

(** [JSON.parse(JSON.stringify(parent1))]: [null] is copied to [null]
    ([None]), and [undefined] has no JSON text to parse. *)
Definition copyOfParent (ga : GeneticAlgorithm) (parent1 : option Chromosome)
    : M (option Chromosome) :=
  match parent1 with
  | Some p1 => offspring <- deepCopy p1 ;; ret (Some offspring)
  | None =>
      if (loopCount (tournamentSize ga) =? 0)%nat then ret None
      else throw SyntaxError
  end.

(** [this.mutate(offspring)]: an offspring that is [null] has no
    [genes]. *)
Definition mutateOffspring (ga : GeneticAlgorithm)
    (offspring : option Chromosome) : M unit :=
  match offspring with
  | Some c => mutate ga c
  | None => throw TypeError
  end.

(** The [while (newPopulation.length < this.populationSize)] loop, which
    adds one offspring per round: [rounds] is the number of rounds left.
    An offspring that is [null] would be pushed like any other; the
    model, whose populations hold chromosomes only, stops there. *)
Fixpoint offspringLoop (ga : GeneticAlgorithm) (rounds : nat)
    (newPopulation : list Chromosome) : M (list Chromosome) :=
  match rounds with
  | O => ret newPopulation
  | S rounds' =>
      parent1 <- tournamentSelection ga ;;
      parent2 <- tournamentSelection ga ;;
      u <- Math_random ;;
      offspring <-
        (if Qltb (u_value u) (crossoverRate ga)
         then crossoverOf parent1 parent2
         else copyOfParent ga parent1) ;;
      u' <- Math_random ;;
      _ <- (if Qltb (u_value u') (mutationRate ga)
            then mutateOffspring ga offspring
            else ret tt) ;;
      match offspring with
      | Some c => offspringLoop ga rounds' (newPopulation ++ [c])
      | None => unmodelled
      end
  end.

(** [evolve()]: the elitism loop runs for the indices below
    [elitismCount], the offspring loop until the length is no longer
    below [populationSize]. *)
Definition evolve (ga : GeneticAlgorithm) : M GeneticAlgorithm :=
  let sortedPopulation := sortByFitness (population ga) in
  newPopulation <-
    elites sortedPopulation 0 (loopCount (elitismCount ga)) [] ;;
  newPopulation <-
    offspringLoop ga (loopCount (populationSize ga) - length newPopulation)
                  newPopulation ;;
  ret (set_population newPopulation ga).

(** *** The driver *)

(** [population.reduce((best, current) => ...)]; on an empty array
    [reduce] without initial value throws. *)
Definition getBestChromosome (ga : GeneticAlgorithm) : M Chromosome :=
  match population ga with
  | [] => throw TypeError
  | c :: rest =>
      ret (fold_left (fun best current =>
                        if fitness current >? fitness best then current
                        else best)
                     rest c)
  end.

(** [(bestFitness, avgFitness)].  The driver reads the statistics after
    [getBestChromosome] has returned, on a population that is not empty
    (for no element [Math.max()] is not a finite number). *)
Definition getGenerationStats (ga : GeneticAlgorithm) : Z * Q :=
  let fitnesses := map fitness (population ga) in
  let sum := fold_left Z.add fitnesses 0 in
  (match fitnesses with
   | [] => 0
   | f :: fs => fold_left Z.max fs f
   end,
   Qred (sum # Pos.of_nat (length fitnesses))).

(** [if (!this.bestChromosome || currentBest.fitness > ...)] *)
Definition trackBest (ga : GeneticAlgorithm) (currentBest : Chromosome)
    : M GeneticAlgorithm :=
  if better currentBest (bestChromosome ga) then
    copy <- deepCopy currentBest ;;
    ret (set_bestChromosome (Some copy) ga)
  else ret ga.

(** Reading a field of [this.bestChromosome]. *)
Definition theBest (ga : GeneticAlgorithm) : M Chromosome :=
  match bestChromosome ga with
  | Some b => ret b
  | None => throw TypeError
  end.

(** One round of the evolution loop; the flag tells whether the loop
    was left by [break]. *)
Definition generationBody (hasCallback : bool) (gen : nat)
    (ga : GeneticAlgorithm) : M (bool * GeneticAlgorithm) :=
  ga <- evaluatePopulation ga ;;
  currentBest <- getBestChromosome ga ;;
  ga <- trackBest ga currentBest ;;
  let stats := getGenerationStats ga in
  best <- theBest ga ;;
  let ga := push_history {| generation := gen;
                            bestFitness := fst stats;
                            avgFitness := snd stats;
                            h_hardViolations := hardViolations best;
                            h_softViolations := softViolations best |} ga in
  _ <- (if hasCallback && (gen mod 10 =? 0)%nat then
          notify {| p_generation := gen;
                    p_maxGenerations := maxGenerations ga;
                    p_progress :=
                      Qred (inject_Z (Z.of_nat gen) / maxGenerations ga
                            * (100 # 1))%Q;
                    p_bestFitness := fst stats;
                    p_avgFitness := snd stats;
                    p_hardViolations := hardViolations best |}
        else ret tt) ;;
  if (hardViolations best =? 0) && (fitness best >? 950) then ret (true, ga)
  else ga <- evolve ga ;; ret (false, ga).

(** [rounds] rounds of the loop from generation [gen] on. *)
Fixpoint generationLoop (hasCallback : bool) (rounds gen : nat)
    (ga : GeneticAlgorithm) : M (bool * GeneticAlgorithm) :=
  match rounds with
  | O => ret (false, ga)
  | S rounds' =>
      r <- generationBody hasCallback gen ga ;;
      if fst r then ret r
      else generationLoop hasCallback rounds' (S gen) (snd r)
  end.

(** What [optimize] returns, without the wall-clock [computationTime];
    [scheduleGenes] are the gene objects of [schedule]. *)
Record Result : Type := {
  schedule : Chromosome;
  scheduleGenes : list Gene;
  generations : list HistoryRecord
}.

Definition optimize (hasCallback : bool) (ga : GeneticAlgorithm)
    : M (Result * GeneticAlgorithm) :=
  ga <- generateInitialPopulation ga ;;
  r <- generationLoop hasCallback (loopCount (maxGenerations ga)) 0 ga ;;
  let ga := snd r in
  best <- theBest ga ;;
  gs <- resolve best ;;
  ret ({| schedule := best; scheduleGenes := gs;
          generations := generationHistory ga |}, ga).

Definition newWorld (rnd : nat -> U01) : World :=
  {| store := []; random := rnd; drawn := 0; notified := [] |}.

(** A whole run: construct, initialize, optimize. *)
Definition run (config : Config) (data : Data) (hasCallback : bool)
    (rnd : nat -> U01) : Outcome (Result * World) :=
  match optimize hasCallback (initialize data (GeneticAlgorithm_new config))
                 (newWorld rnd) with
  | Ok (r, _, w) => Ok (r, w)
  | Throw e w => Throw e w
  | Diverge => Diverge
  | Unmodelled => Unmodelled
  end.

(** ** The schedule model: entries and [detectConflicts] *)

(** A schedule entry, as the controller builds it from a gene. *)
Record Entry : Type := {
  e_day : Day;
  e_slotNumber : Z;
  e_startTime : string;
  e_endTime : string;
  e_course : string;
  e_courseCode : string;
  e_courseName : string;
  e_sessionType : SessionType;
  e_section : string;
  e_faculty : string;
  e_facultyName : string;
  e_room : string;
  e_roomNumber : string;
  e_duration : Z;
  e_consecutiveSlots : Z
}.

(** [result.schedule.genes.map(gene => ({ ... }))] *)
Definition entryOfGene (gene : Gene) : Entry :=
  {| e_day := day (timeSlot gene);
     e_slotNumber := slotNumber (timeSlot gene);
     e_startTime := startTime (timeSlot gene);
     e_endTime := endTime (timeSlot gene);
     e_course := courseId gene;
     e_courseCode := courseCode gene;
     e_courseName := courseName gene;
     e_sessionType := sessionType gene;
     e_section := section gene;
     e_faculty := facultyId gene;
     e_facultyName := facultyName gene;
     e_room := roomId gene;
     e_roomNumber := roomNumber gene;
     e_duration := duration gene;
     e_consecutiveSlots := consecutiveSlots gene |}.

Record AffectedEntities : Type := {
  a_faculty : option string;
  a_room : option string;
  a_section : option string;
  a_timeSlot : option string
}.

Record Conflict : Type := {
  cf_type : string;
  cf_severity : string;
  cf_description : string;
  cf_affectedEntities : AffectedEntities
}.

(** A [Set] of strings. *)
Definition setHas (x : string) (s : list string) : bool :=
  existsb (String.eqb x) s.

Definition setAdd (x : string) (s : list string) : list string :=
  if setHas x s then s else s ++ [x].

(** [if (!m.has(k)) m.set(k, new Set()); ... m.get(k).has(t) ...;
    m.get(k).add(t)]: whether [t] was there, and the map afterwards. *)
Definition bookSlot (k t : string) (m : JsMap.t (list string))
    : bool * JsMap.t (list string) :=
  let s := default [] (JsMap.get k m) in
  (setHas t s, JsMap.set k (setAdd t s) m).

Definition entryTimeKey (entry : Entry) : string :=
  day_name (e_day entry) +:+ "-" +:+ js_num (e_slotNumber entry).

Definition slotText (entry : Entry) : string :=
  day_name (e_day entry) +:+ " slot " +:+ js_num (e_slotNumber entry).

Record ConflictState : Type := {
  cs_conflicts : list Conflict;
  facultySchedule : JsMap.t (list string);
  roomSchedule : JsMap.t (list string);
  sectionSchedule : JsMap.t (list string)
}.

Definition detectStep (st : ConflictState) (entry : Entry) : ConflictState :=
  let tk := entryTimeKey entry in
  let conflicts := cs_conflicts st in
  let fb := bookSlot (e_faculty entry) tk (facultySchedule st) in
  let conflicts :=
    if fst fb then
      conflicts ++
      [{| cf_type := "faculty_double_booking"; cf_severity := "critical";
          cf_description := "Faculty " +:+ e_facultyName entry
                            +:+ " has multiple classes at " +:+ slotText entry;
          cf_affectedEntities :=
            {| a_faculty := Some (e_facultyName entry); a_room := None;
               a_section := None; a_timeSlot := Some tk |} |}]
    else conflicts in
  let rb := bookSlot (e_room entry) tk (roomSchedule st) in
  let conflicts :=
    if fst rb then
      conflicts ++
      [{| cf_type := "room_double_booking"; cf_severity := "critical";
          cf_description := "Room " +:+ e_roomNumber entry
                            +:+ " is double-booked at " +:+ slotText entry;
          cf_affectedEntities :=
            {| a_faculty := None; a_room := Some (e_roomNumber entry);
               a_section := None; a_timeSlot := Some tk |} |}]
    else conflicts in
  let sb := bookSlot (e_section entry) tk (sectionSchedule st) in
  let conflicts :=
    if fst sb then
      conflicts ++
      [{| cf_type := "student_section_conflict"; cf_severity := "critical";
          cf_description := "Section " +:+ e_section entry
                            +:+ " has overlapping classes at " +:+ slotText entry;
          cf_affectedEntities :=
            {| a_faculty := None; a_room := None;
               a_section := Some (e_section entry); a_timeSlot := Some tk |} |}]
    else conflicts in
  {| cs_conflicts := conflicts; facultySchedule := snd fb;
     roomSchedule := snd rb; sectionSchedule := snd sb |}.

(** [detectConflicts()]: the conflicts, which are also stored in the
    schedule. *)
Definition initialConflictState : ConflictState :=
  {| cs_conflicts := []; facultySchedule := JsMap.empty;
     roomSchedule := JsMap.empty; sectionSchedule := JsMap.empty |}.

Definition detectConflicts (entries : list Entry) : list Conflict :=
  cs_conflicts (fold_left detectStep entries initialConflictState).

(** [this.metrics.hardConstraintViolations] after [detectConflicts()]. *)
Definition detectedHardViolations (entries : list Entry) : nat :=
  length (List.filter (fun c => String.eqb (cf_severity c) "critical")
                      (detectConflicts entries)).

(** ** ConstraintChecker *)

Inductive ViolationDetail : Type :=
  | OverMax (facultyName : string) (assigned max violation : Z)
  | UnderMin (facultyName : string) (assigned min violation : Z)
  | RoomDoubleBooked (room : string) (d : Day) (slot : Z)
      (first : option string) (second : string)
  | RoomTooSmall (room : string) (cap required : Z) (course : string)
  | SectionOverlap (sec : string) (d : Day) (slot : Z)
      (first : option string) (second : string)
  | SectionGap (sec day : option string) (gapSize : Z) (betweenSlots : string)
  | LabNotConsecutive (course sec : string) (d : Day) (requiredSlots : Z)
  | ElectiveOverlap (group timeSlot : string) (overlappingCourses : list string).

(** What a category checker returns; the default branch of the dispatch
    returns [{ violated: false }] only. *)
Record CheckResult : Type := {
  violated : bool;
  cr_count : option Z;
  cr_details : list ViolationDetail
}.

Definition resultOf (violations : list ViolationDetail) : CheckResult :=
  {| violated := (0 <? length violations)%nat;
     cr_count := Some (Z.of_nat (length violations));
     cr_details := violations |}.

Definition entryDuration (entry : Entry) : Z := js_or (Some (e_duration entry)) 1.

Definition facultyHoursOf (entries : list Entry) : JsMap.t Z :=
  fold_left (fun facultyHours entry =>
               let current := js_or (JsMap.get (e_faculty entry) facultyHours) 0 in
               JsMap.set (e_faculty entry) (current + entryDuration entry)
                         facultyHours)
            entries JsMap.empty.

Definition checkFacultyWorkloadConstraint (constraint : Constraint)
    (entries : list Entry) (faculty : list Faculty) : CheckResult :=
  let facultyHours := facultyHoursOf entries in
  resultOf
    (fold_left
       (fun violations facultyMember =>
          let assigned := js_or (JsMap.get (f_id facultyMember) facultyHours) 0 in
          let max := maxHours facultyMember in
          let min := minHours facultyMember in
          let violations :=
            if includes (name constraint) "Max" && (assigned >? max)
            then violations ++ [OverMax (f_name facultyMember) assigned max
                                        (assigned - max)]
            else violations in
          if includes (name constraint) "Min" && (assigned <? min)
          then violations ++ [UnderMin (f_name facultyMember) assigned min
                                       (min - assigned)]
          else violations)
       faculty []).

Definition roomBookingKey (entry : Entry) : string :=
  e_room entry +:+ "-" +:+ entryTimeKey entry.

Definition sectionBookingKey (entry : Entry) : string :=
  e_section entry +:+ "-" +:+ entryTimeKey entry.

(** The duplicate scan the room and the section check share: the map
    remembers the course code last booked under a key. *)
Definition scanStep (key : Entry -> string)
    (report : Entry -> option string -> ViolationDetail)
    (acc : list ViolationDetail * JsMap.t string) (entry : Entry)
    : list ViolationDetail * JsMap.t string :=
  let k := key entry in
  let seen := snd acc in
  let vs :=
    if JsMap.has k seen
    then fst acc ++ [report entry (JsMap.get k seen)]
    else fst acc in
  (vs, JsMap.set k (e_courseCode entry) seen).

Definition duplicateScan (key : Entry -> string)
    (report : Entry -> option string -> ViolationDetail)
    (entries : list Entry) (violations : list ViolationDetail)
    : list ViolationDetail :=
  fst (fold_left (scanStep key report) entries (violations, JsMap.empty)).

Definition checkRoomAllocationConstraint (constraint : Constraint)
    (entries : list Entry) (rooms : list Room) : CheckResult :=
  let roomMap := idMap r_id rooms in
  let violations := [] in
  let violations :=
    if includes (name constraint) "Double Booking" then
      duplicateScan roomBookingKey
        (fun entry first =>
           RoomDoubleBooked (e_roomNumber entry) (e_day entry)
                            (e_slotNumber entry) first (e_courseCode entry))
        entries violations
    else violations in
  let violations :=
    if includes (name constraint) "Capacity" then
      fold_left
        (fun violations entry =>
           match JsMap.get (e_room entry) roomMap with
           | Some room =>
               let estimatedSize := 60 in
               if capacity room <? estimatedSize
               then violations ++ [RoomTooSmall (e_roomNumber entry)
                                     (capacity room) estimatedSize
                                     (e_courseCode entry)]
               else violations
           | None => violations
           end)
        entries violations
    else violations in
  resultOf violations.

Definition checkTimeSlotConstraint (constraint : Constraint)
    (entries : list Entry) : CheckResult :=
  resultOf [].

Definition entrySectionDayKey (entry : Entry) : string :=
  e_section entry +:+ "-" +:+ day_name (e_day entry).

Definition entrySchedulesBy (key : Entry -> string) (entries : list Entry)
    : JsMap.t (list Z) :=
  fold_left (fun m entry => pushTo (key entry) (e_slotNumber entry) m)
            entries JsMap.empty.

(** The gaps of more than two slots on one sorted section day;
    [key.split('-')] gives the section and the day reported. *)
Fixpoint gapViolations (key : string) (slots : list Z) : list ViolationDetail :=
  match slots with
  | a :: (b :: _) as rest =>
      let gap := b - a - 1 in
      let parts := split "-" key in
      (if gap >? 2
       then [SectionGap (parts !! 0%nat) (parts !! 1%nat) gap
                        (js_num a +:+ " and " +:+ js_num b)]
       else [])
      ++ gapViolations key rest
  | _ => []
  end.

Definition checkStudentSectionConstraint (constraint : Constraint)
    (entries : list Entry) : CheckResult :=
  let violations := [] in
  let violations :=
    if includes (name constraint) "Conflict"
       || includes (name constraint) "No Student Section" then
      duplicateScan sectionBookingKey
        (fun entry first =>
           SectionOverlap (e_section entry) (e_day entry)
                          (e_slotNumber entry) first (e_courseCode entry))
        entries violations
    else violations in
  let violations :=
    if includes (name constraint) "Gap" then
      fold_left
        (fun violations kv =>
           violations ++ gapViolations (fst kv) (sort_asc (snd kv)))
        (entrySchedulesBy entrySectionDayKey entries) violations
    else violations in
  resultOf violations.

Definition entryIsLab (e : Entry) : bool :=
  match e_sessionType e with lab => true | theory => false end.

Definition checkLabContinuityConstraint (constraint : Constraint)
    (entries : list Entry) : CheckResult :=
  let labSessions := List.filter entryIsLab entries in
  resultOf
    (fold_left
       (fun violations session =>
          if e_consecutiveSlots session >? 1 then
            let requiredSlots := e_consecutiveSlots session in
            let isConsecutive := true in
            if negb isConsecutive
            then violations ++ [LabNotConsecutive (e_courseCode session)
                                  (e_section session) (e_day session)
                                  requiredSlots]
            else violations
          else violations)
       labSessions []).

(** Course codes per elective group and time key. *)
Definition electiveGroupsOf (entries : list Entry) (courseMap : JsMap.t Course)
    : JsMap.t (JsMap.t (list string)) :=
  fold_left
    (fun electiveGroups entry =>
       match JsMap.get (e_course entry) courseMap with
       | Some course =>
           match isElective course, electiveGroup course with
           | true, Some (String c s) =>
               let groupKey := String c s in
               let tk := entryTimeKey entry in
               let group := default JsMap.empty (JsMap.get groupKey electiveGroups) in
               let codes := default [] (JsMap.get tk group) in
               JsMap.set groupKey
                 (JsMap.set tk (codes ++ [e_courseCode entry]) group)
                 electiveGroups
           | _, _ => electiveGroups
           end
       | None => electiveGroups
       end)
    entries JsMap.empty.

Definition checkElectiveGroupingConstraint (constraint : Constraint)
    (entries : list Entry) (courses : list Course) : CheckResult :=
  let electiveGroups := electiveGroupsOf entries (idMap c_id courses) in
  resultOf
    (fold_left
       (fun violations g =>
          fold_left
            (fun violations t =>
               if (1 <? length (snd t))%nat
               then violations ++ [ElectiveOverlap (fst g) (fst t) (snd t)]
               else violations)
            (snd g) violations)
       electiveGroups []).

(** The dispatch on the category. *)
Definition checkConstraint (constraint : Constraint) (entries : list Entry)
    (courses : list Course) (faculty : list Faculty) (rooms : list Room)
    : CheckResult :=
  match category constraint with
  | faculty_workload => checkFacultyWorkloadConstraint constraint entries faculty
  | room_allocation => checkRoomAllocationConstraint constraint entries rooms
  | time_slot => checkTimeSlotConstraint constraint entries
  | student_section => checkStudentSectionConstraint constraint entries
  | lab_continuity => checkLabContinuityConstraint constraint entries
  | elective_grouping => checkElectiveGroupingConstraint constraint entries courses
  | _ => {| violated := false; cr_count := None; cr_details := [] |}
  end.

(** A reported violation; soft ones carry the constraint's weight. *)
Record Violation : Type := {
  v_constraint : string;
  v_category : Category;
  v_description : string;
  v_details : list ViolationDetail;
  v_count : Z;
  v_weight : option Z
}.

Record Violations : Type := {
  v_hard : list Violation;
  v_soft : list Violation
}.

Definition validateStep (entries : list Entry) (courses : list Course)
    (faculty : list Faculty) (rooms : list Room) (violations : Violations)
    (constraint : Constraint) : Violations :=
  if negb (isActive constraint) then violations
  else
    let result := checkConstraint constraint entries courses faculty rooms in
    if violated result then
      match kind constraint with
      | hard =>
          {| v_hard := v_hard violations ++
               [{| v_constraint := name constraint;
                   v_category := category constraint;
                   v_description := description constraint;
                   v_details := cr_details result;
                   v_count := js_or (cr_count result) 1;
                   v_weight := None |}];
             v_soft := v_soft violations |}
      | soft =>
          {| v_hard := v_hard violations;
             v_soft := v_soft violations ++
               [{| v_constraint := name constraint;
                   v_category := category constraint;
                   v_description := description constraint;
                   v_details := cr_details result;
                   v_count := js_or (cr_count result) 1;
                   v_weight := Some (weight constraint) |}] |}
      end
    else violations.

(** [validateSchedule(schedule, courses, faculty, rooms, constraints)] *)
Definition validateSchedule (entries : list Entry) (courses : list Course)
    (faculty : list Faculty) (rooms : list Room)
    (constraints : list Constraint) : Violations :=
  fold_left (validateStep entries courses faculty rooms) constraints
            {| v_hard := []; v_soft := [] |}.

Definition mkConstraint (n : string) (k : ConstraintKind) (c : Category)
    (d : string) (p w : Z) : Constraint :=
  {| name := n; kind := k; category := c; description := d;
     priority := p; weight := w; isActive := true |}.

(** [Constraint.getDefaultConstraints()] *)
Definition getDefaultConstraints : list Constraint :=
  [ mkConstraint "No Faculty Double Booking" hard faculty_workload
      "A faculty member cannot be assigned to multiple classes at the same time"
      10 100;
    mkConstraint "No Room Double Booking" hard room_allocation
      "A room cannot be assigned to multiple classes at the same time" 10 100;
    mkConstraint "No Student Section Conflict" hard student_section
      "Students of a section cannot have multiple classes at the same time"
      10 100;
    mkConstraint "Lab Session Continuity" hard lab_continuity
      "Lab sessions must be scheduled in consecutive time slots without breaks"
      9 90;
    mkConstraint "Room Capacity Check" hard room_allocation
      "Room capacity must be sufficient for the section strength" 9 90;
    mkConstraint "Faculty Qualification Match" hard faculty_workload
      "Faculty must be qualified to teach the assigned course" 9 90;
    mkConstraint "Faculty Availability" hard time_slot
      "Classes must be scheduled during faculty available hours" 9 90;
    mkConstraint "Elective Group No Overlap" hard elective_grouping
      "Electives in the same group must not be scheduled at the same time"
      8 80;
    mkConstraint "Faculty Max Hours Per Week" soft faculty_workload
      "Faculty teaching hours should not exceed maximum weekly limit" 8 70;
    mkConstraint "Faculty Min Hours Per Week" soft faculty_workload
      "Faculty should be assigned minimum teaching hours" 7 60;
    mkConstraint "Workload Balance" soft faculty_workload
      "Teaching load should be balanced across faculty members" 7 60;
    mkConstraint "Minimize Student Gaps" soft student_section
      "Minimize idle time between classes for students" 6 50;
    mkConstraint "Faculty Preferred Time Slots" soft preference
      "Try to assign classes during faculty preferred time slots" 5 40;
    mkConstraint "Avoid Faculty Consecutive Hours" soft faculty_workload
      "Faculty should not teach more than 3 consecutive hours" 6 50;
    mkConstraint "Balanced Daily Distribution" soft time_slot
      "Classes should be distributed evenly across days of the week" 5 40;
    mkConstraint "Course Preferred Days" soft preference
      "Schedule courses on their preferred days when possible" 4 30;
    mkConstraint "Room Utilization Optimization" soft room_allocation
      "Optimize room usage to avoid under-utilization" 4 30;
    mkConstraint "Lab Type Match" soft room_allocation
      "Assign labs to rooms with appropriate equipment" 7 60 ].

(** The hard part of the default catalog. *)
Definition defaultHardConstraints : list Constraint :=
  List.filter (fun c => match kind c with hard => true | soft => false end)
              getDefaultConstraints.

(** ** Definitions that follow the specification's words *)

Global Instance Day_eq_dec : EqDecision Day.
Proof. solve_decision. Defined.

(** *** Double bookings *)

(** The key (entity-id, day, slot-number) of a gene, for an entity
    projection [ent]. *)
Definition bookingKey (ent : Gene -> string) (g : Gene) : string * Day * Z :=
  (ent g, day (timeSlot g), slotNumber (timeSlot g)).

(** The number of elements of the bag that carry the key [k]. *)
Definition occurrences {K} `{EqDecision K} (k : K) (bag : list K) : nat :=
  length (filter (fun k' => k' = k) bag).

(** Every duplicate beyond the first on a key counts once: a key that
    [m] genes share contributes [m - 1], summed over the distinct keys. *)
Definition duplicatesBeyondFirst {K} `{EqDecision K} (bag : list K) : nat :=
  sum_list_with (fun k => (occurrences k bag - 1)%nat) (remove_dups bag).

(** The template string of a booking key. *)
Definition renderKey (k : string * Day * Z) : string :=
  k.1.1 +:+ "-" +:+ day_name k.1.2 +:+ "-" +:+ js_num k.2.

(** *** Session counts *)

(** [⌈hoursPerWeek / sessionDuration⌉] sessions, none unless the hours
    per week are positive. *)
Definition sessionsOf_spec (h : Hours) : nat :=
  if hoursPerWeek h >? 0
  then Z.to_nat
         (Qceiling (inject_Z (hoursPerWeek h) / inject_Z (sessionDuration h)))
  else 0%nat.

(** The session count of a course: theory sessions plus lab sessions. *)
Definition sessionCount_spec (course : Course) : nat :=
  (sessionsOf_spec (theoryHours course)
   + sessionsOf_spec (labHours course))%nat.

(** The sum of the session counts over all (course, section) pairs. *)
Definition geneCount_spec (courses : list Course) : nat :=
  sum_list_with
    (fun course =>
       sum_list_with (fun _ : Section => sessionCount_spec course)
                     (sections course))
    courses.

(** An active teacher with the course among the subjects. *)
Definition qualified (course : Course) (f : Faculty) : Prop :=
  f_isActive f = true
  /\ Some (c_id course) ∈ map sub_courseId (subjects f).

(** Every session requirement has an active qualified teacher and a
    suitable room. *)
Definition feasible (ga : GeneticAlgorithm) : Prop :=
  forall course sessions sec session,
    course ∈ courses ga ->
    getRequiredSessions course = Some sessions ->
    sec ∈ sections course ->
    session ∈ sessions ->
    (exists f, f ∈ faculty ga /\ qualified course f)
    /\ eligibleRooms ga course (s_type session) sec <> [].





(** *** Unknown references *)

(** Whether an identifier is that of a document of the snapshot. *)
Definition known {A} (id : A -> string) (docs : list A) (x : string) : bool :=
  existsb (fun d => String.eqb (id d) x) docs.

(** The references of the genes to a faculty, room or course that the
    snapshot does not have. *)
Definition missingReferences (genes : list Gene) (courses : list Course)
    (faculty : list Faculty) (rooms : list Room) : Z :=
  sumZ (map (fun g =>
               (if known f_id faculty (facultyId g) then 0 else 1)
               + (if known r_id rooms (roomId g) then 0 else 1)
               + (if known c_id courses (courseId g) then 0 else 1))
            genes).

(** *** The fast pass and the validator *)

(** Two entries of a schedule, the one before the other, with one key. *)
Definition duplicated (key : Entry -> string) (entries : list Entry) : Prop :=
  exists i j e1 e2,
    (i < j)%nat /\ entries !! i = Some e1 /\ entries !! j = Some e2
    /\ key e1 = key e2.

(** The fast pass emits a conflict of the type. *)
Definition emits (type : string) (entries : list Entry) : Prop :=
  exists c, c ∈ detectConflicts entries /\ cf_type c = type.

(** The validator reports a hard violation of the named constraint. *)
Definition reportsHard (constraintName : string) (c : Category)
    (vs : Violations) : Prop :=
  exists v, v ∈ v_hard vs /\ v_constraint v = constraintName
            /\ v_category v = c.

(** The time key [t] is in the set kept under [k]. *)
Definition booked (k t : string) (m : JsMap.t (list string)) : Prop :=
  t ∈ default [] (JsMap.get k m).

(** *** The best chromosome so far *)

(** The fitness of the best chromosome recorded so far; [None] before
    the first generation. *)
Definition bestFitnessOf (ga : GeneticAlgorithm) : option Z :=
  fitness <$> bestChromosome ga.

(** [a] is not above [b]; nothing recorded is below everything. *)
Definition notAbove (a b : option Z) : Prop :=
  match a, b with
  | None, _ => True
  | Some x, Some y => x <= y
  | Some _, None => False
  end.

(** *** Runs *)

(** The result record of a whole run. *)
Definition runResult (config : Config) (data : Data) (hasCallback : bool)
    (rnd : nat -> U01) : Outcome Result :=
  match run config data hasCallback rnd with
  | Ok (r, _) => Ok r
  | Throw e w => Throw e w
  | Diverge => Diverge
  | Unmodelled => Unmodelled
  end.

(** A configuration with another seed. *)
Definition withSeed (seed : option Z) (config : Config) : Config :=
  {| cfg_populationSize := cfg_populationSize config;
     cfg_maxGenerations := cfg_maxGenerations config;
     cfg_mutationRate := cfg_mutationRate config;
     cfg_crossoverRate := cfg_crossoverRate config;
     cfg_elitismCount := cfg_elitismCount config;
     cfg_tournamentSize := cfg_tournamentSize config;
     cfg_weights := cfg_weights config;
     cfg_seed := seed |}.

(** *** Mutation *)








(** ** Sample data *)

Definition allDay : Day -> list Window :=
  fun _ => [{| w_startTime := "08:00"; w_endTime := "18:00" |}].

Definition sampleFaculty (id : string) (courseIds : list string)
    (minH : option Z) : Faculty :=
  {| f_id := id; f_name := id;
     subjects := map (fun c => {| sub_courseId := Some c |}) courseIds;
     availability := Some allDay;
     workload := Some {| maxHoursPerWeek := Some 18; minHoursPerWeek := minH |};
     f_isActive := true |}.

Definition sampleRoom (id : string) (cap : Z) : Room :=
  {| r_id := id; r_roomNumber := id; capacity := cap; r_type := classroom;
     labType := None; r_isActive := true |}.

(** A course with one section "A" of 30 students. *)
Definition sampleCourse (id : string) (theoryH labH : Z) : Course :=
  {| c_id := id; c_courseCode := id; c_courseName := id;
     theoryHours := {| hoursPerWeek := theoryH; sessionDuration := 1 |};
     labHours := {| hoursPerWeek := labH; sessionDuration := 2 |};
     sections := [{| sectionName := "A"; strength := 30 |}];
     isElective := false; electiveGroup := None; specificLabType := None |}.

Definition sampleSlot (d : Day) (n : Z) : TimeSlot :=
  {| ts_slotNumber := n; ts_day := d;
     ts_startTime := "09:00"; ts_endTime := "10:00" |}.

Definition sampleGene (course sec : string) (st : SessionType) (d : Day)
    (n : Z) (fac room : string) (cs : Z) : Gene :=
  {| courseId := course; courseCode := course; courseName := course;
     section := sec; sessionType := st;
     timeSlot := geneTimeSlot (sampleSlot d n);
     facultyId := fac; facultyName := fac; roomId := room; roomNumber := room;
     duration := 1; consecutiveSlots := cs |}.

(** *** A snapshot for the evaluation *)

(** Two courses, a teacher for each, two rooms. *)
Definition twoCourses : list Course :=
  [sampleCourse "CS101" 1 0; sampleCourse "CS102" 1 0].

Definition twoFaculty : list Faculty :=
  [sampleFaculty "F1" ["CS101"] (Some 1); sampleFaculty "F2" ["CS102"] (Some 1)].

Definition twoRooms : list Room := [sampleRoom "R1" 60; sampleRoom "R2" 60].

(** Section "A" sits in two classes on Monday, slot 1, with different
    teachers in different rooms. *)
Definition sectionDoubleBooked : list Gene :=
  [sampleGene "CS101" "A" theory Monday 1 "F1" "R1" 1;
   sampleGene "CS102" "A" theory Monday 1 "F2" "R2" 1].

(** A lone lab session that needs two consecutive slots. *)
Definition loneLab : list Gene :=
  [sampleGene "CS101" "A" lab Monday 1 "F1" "R1" 2].

(** Teacher "F1" is in two classes on Monday, slot 1, for different
    sections in different rooms. *)
Definition facultyDoubleBooked : list Entry :=
  map entryOfGene
    [sampleGene "CS101" "A" theory Monday 1 "F1" "R1" 1;
     sampleGene "CS102" "B" theory Monday 1 "F1" "R2" 1].

(** A gene that refers to a teacher, a room and a course the snapshot
    does not have. *)
Definition unknownRefsGene : Gene :=
  sampleGene "CS999" "A" theory Monday 1 "F9" "R9" 1.

(** *** A small run *)

(** Two one-hour courses of section "A", one teacher for both, two
    rooms and the first two slots of Monday. *)
Definition sampleData : Data :=
  {| d_courses := [sampleCourse "CS101" 1 0; sampleCourse "CS102" 1 0];
     d_faculty := [sampleFaculty "F1" ["CS101"; "CS102"] (Some 1)];
     d_rooms := twoRooms;
     d_timeSlots := [sampleSlot Monday 1; sampleSlot Monday 2];
     d_constraints := [] |}.

(** Three chromosomes, four generations, one elite, tournaments of two,
    every second offspring mutated; and a seed. *)
Definition sampleConfig : Config :=
  {| cfg_populationSize := Some (3 # 1)%Q;
     cfg_maxGenerations := Some (4 # 1)%Q;
     cfg_mutationRate := Some (1 # 2)%Q;
     cfg_crossoverRate := None;
     cfg_elitismCount := Some (1 # 1)%Q;
     cfg_tournamentSize := Some (2 # 1)%Q;
     cfg_weights := None;
     cfg_seed := Some 42 |}.

(** The random values 0.8, 0.1, 0.4, 0.7, 0.0, 0.3, ... *)
Definition sampleRandom (n : nat) : U01 :=
  {| u_num := (3 * n + 8) mod 10; u_gap := 9 - (3 * n + 8) mod 10 |}.

(** The random value 0, again and again. *)
Definition zeroRandom (n : nat) : U01 := {| u_num := 0; u_gap := 0 |}.

Definition sampleGA : GeneticAlgorithm :=
  initialize sampleData (GeneticAlgorithm_new sampleConfig).

(** The sample run after its initial population has been generated. *)
Definition sampleStart : Outcome (GeneticAlgorithm * World) :=
  generateInitialPopulation sampleGA (newWorld sampleRandom).

Definition sampleStartGA : GeneticAlgorithm :=
  Eval vm_compute in
    match sampleStart with Ok (ga, _) => ga | _ => sampleGA end.

Definition sampleStartWorld : World :=
  match sampleStart with Ok (_, w) => w | _ => newWorld sampleRandom end.

(** The first chromosome of the initial population. *)
Definition firstChromosome : Chromosome :=
  {| genes := [0%nat; 1%nat]; fitness := 0; hardViolations := 0;
     softViolations := 0; details := None |}.

(** The genes of the initial population, with the random value 0
    ahead. *)
Definition mutationWorld : World :=
  {| store := store sampleStartWorld; random := zeroRandom; drawn := 0;
     notified := [] |}.

(** *** Snapshots that miss something *)

(** The sample snapshot without its time slots. *)
Definition noSlotsData : Data :=
  {| d_courses := d_courses sampleData;
     d_faculty := d_faculty sampleData;
     d_rooms := d_rooms sampleData;
     d_timeSlots := [];
     d_constraints := [] |}.

Definition noSlotsGA : GeneticAlgorithm :=
  initialize noSlotsData (GeneticAlgorithm_new sampleConfig).



(** A course nobody teaches: the only teacher is not active. *)
Definition untaughtData : Data :=
  {| d_courses := [sampleCourse "CS101" 1 0];
     d_faculty :=
       [{| f_id := "F1"; f_name := "F1";
           subjects := [{| sub_courseId := Some "CS101" |}];
           availability := Some allDay; workload := None;
           f_isActive := false |}];
     d_rooms := [sampleRoom "R1" 60];
     d_timeSlots := [sampleSlot Monday 1];
     d_constraints := [] |}.

Definition untaughtGA : GeneticAlgorithm :=
  initialize untaughtData (GeneticAlgorithm_new sampleConfig).





(** ** Notions used to state further properties *)

(** Each element is at most the next one. *)
Fixpoint ascending (l : list Z) : Prop :=
  match l with
  | a :: (b :: _) as rest => a <= b /\ ascending rest
  | _ => True
  end.

(** The slot numbers of the genes that [key] files under [k], in the
    order of the genes. *)
Definition slotsUnder (key : Gene -> string) (k : string) (genes : list Gene)
    : list Z :=
  map (fun g => slotNumber (timeSlot g)) (filter (fun g => key g = k) genes).

(** The classes of a teacher on a day. *)
Definition classesOn (fid : string) (d : Day) (genes : list Gene) : list Gene :=
  filter (fun g => facultyId g = fid /\ day (timeSlot g) = d) genes.



(** What a conflict check reports for the genes: every key once, in
    [conflicts], and the genes beyond the first of a key, in [count]. *)
Definition listsEveryKey (key : Gene -> string) (genes : list Gene)
    (r : Z * list string) : Prop :=
  NoDup (snd r)
  /\ (forall k, k ∈ snd r <-> exists g, g ∈ genes /\ key g = k)
  /\ fst r + Z.of_nat (length (snd r)) = Z.of_nat (length genes).

(** *** The breakdown *)


(** *** More sample data *)

(** Section "A" has classes in the slots 1 and 4 of Monday, with two
    teachers in two rooms. *)
Definition gappedDay : list Gene :=
  [sampleGene "CS101" "A" theory Monday 1 "F1" "R1" 1;
   sampleGene "CS102" "A" theory Monday 4 "F2" "R2" 1].


(** The gene objects behind a list of references, in a store. *)
Definition pointsTo (s : list Gene) (refs : list nat) (gs : list Gene) : Prop :=
  Forall2 (fun r g => s !! r = Some g) refs gs.

(** Every reference of the chromosome is to a gene object of the store. *)
Definition refsWithin (s : list Gene) (c : Chromosome) : Prop :=
  forall r, r ∈ genes c -> (r < length s)%nat.

(** The kind of room a session type is held in. *)
Definition roomKindFits (t : SessionType) (k : RoomType) : Prop :=
  match t with
  | lab => k = lab_room
  | theory => k = classroom \/ k = seminar_hall
  end.

(** The gene is one for the session of the section of the course, with
    a slot of the grid, an active teacher who has the course among their
    subjects, and an active room of the right kind that holds the
    section. *)
Definition drawnFrom (ga : GeneticAlgorithm) (course : Course) (sec : Section)
    (session : Session) (g : Gene) : Prop :=
  (exists ts, ts ∈ timeSlots ga /\ timeSlot g = geneTimeSlot ts)
  /\ (exists f, f ∈ faculty ga /\ f_isActive f = true
                /\ Some (c_id course) ∈ map sub_courseId (subjects f)
                /\ facultyId g = f_id f /\ facultyName g = f_name f)
  /\ (exists r, r ∈ rooms ga /\ r_isActive r = true
                /\ strength sec <= capacity r
                /\ roomKindFits (s_type session) (r_type r)
                /\ isRoomSuitable r course (s_type session) sec = true
                /\ roomId g = r_id r /\ roomNumber g = r_roomNumber r)
  /\ courseId g = c_id course /\ courseCode g = c_courseCode course
  /\ courseName g = c_courseName course
  /\ section g = sectionName sec /\ sessionType g = s_type session
  /\ duration g = s_duration session
  /\ consecutiveSlots g = s_consecutiveSlots session.

(** The gene is one for some required session of some section of some
    course of the snapshot. *)
Definition required (ga : GeneticAlgorithm) (g : Gene) : Prop :=
  exists course sessions sec session,
    course ∈ courses ga /\ getRequiredSessions course = Some sessions
    /\ sec ∈ sections course /\ session ∈ sessions
    /\ drawnFrom ga course sec session g.

(** Each chromosome is at least as fit as the next one. *)
Fixpoint descending (l : list Chromosome) : Prop :=
  match l with
  | a :: (b :: _) as rest => fitness b <= fitness a /\ descending rest
  | _ => True
  end.

(** [r] is a gene reference of a chromosome of the population. *)
Definition popRef (ga : GeneticAlgorithm) (r : nat) : Prop :=
  exists c, c ∈ population ga /\ r ∈ genes c.

(** Every gene reference of the population is to a gene object. *)
Definition populationWithin (s : list Gene) (ga : GeneticAlgorithm) : Prop :=
  forall r, popRef ga r -> (r < length s)%nat.

(** [copy] is a deep copy of [original]: its gene objects, all made
    after the store was [s0], hold in [s1] the values that the gene
    objects of [original] held in [s0], and the cached evaluation is the
    same. *)
Definition copyOf (s0 s1 : list Gene) (original copy : Chromosome) : Prop :=
  (exists gs, pointsTo s0 (genes original) gs /\ pointsTo s1 (genes copy) gs)
  /\ (forall r, r ∈ genes copy -> (length s0 <= r < length s1)%nat)
  /\ fitness copy = fitness original
  /\ hardViolations copy = hardViolations original
  /\ softViolations copy = softViolations original
  /\ details copy = details original.

(** The cached evaluation of the chromosome is the evaluation, by the
    calculator of [ga] on the snapshot of [ga], of the gene values that
    the chromosome refers to in the store. *)
Definition evaluatedIn (ga : GeneticAlgorithm) (s : list Gene)
    (c : Chromosome) : Prop :=
  exists gs,
    pointsTo s (genes c) gs
    /\ let ev := calculate (fitnessCalculator ga) gs (courses ga) (faculty ga)
                           (rooms ga) (constraints ga) in
       fitness c = ev_fitness ev
       /\ hardViolations c = ev_hardViolations ev
       /\ softViolations c = ev_softViolations ev
       /\ details c = Some (ev_details ev).

(** The same parameters and the same snapshot. *)
Definition sameSetup (ga ga' : GeneticAlgorithm) : Prop :=
  populationSize ga' = populationSize ga
  /\ maxGenerations ga' = maxGenerations ga
  /\ mutationRate ga' = mutationRate ga
  /\ crossoverRate ga' = crossoverRate ga
  /\ elitismCount ga' = elitismCount ga
  /\ tournamentSize ga' = tournamentSize ga
  /\ fitnessCalculator ga' = fitnessCalculator ga
  /\ courses ga' = courses ga /\ faculty ga' = faculty ga
  /\ rooms ga' = rooms ga /\ timeSlots ga' = timeSlots ga
  /\ constraints ga' = constraints ga.

(** What holds of the algorithm between the steps of a run: the gene
    references of the population are to gene objects, and the best
    chromosome so far holds gene objects of its own, with the values its
    cached evaluation was computed from. *)
Definition bestIsKept (ga0 ga : GeneticAlgorithm) (w : World) : Prop :=
  sameSetup ga0 ga
  /\ populationWithin (store w) ga
  /\ forall b, bestChromosome ga = Some b ->
       evaluatedIn ga0 (store w) b
       /\ forall r, r ∈ genes b -> (r < length (store w))%nat /\ ~ popRef ga r.

(** The second chromosome of the sample population. *)
Definition secondChromosome : Chromosome :=
  {| genes := [2%nat; 3%nat]; fitness := 0; hardViolations := 0;
     softViolations := 0; details := None |}.

(** Three chromosomes and nothing else configured: the elitism count is
    the default, 5. *)
Definition smallConfig : Config :=
  {| cfg_populationSize := Some (3 # 1)%Q;
     cfg_maxGenerations := None;
     cfg_mutationRate := None;
     cfg_crossoverRate := None;
     cfg_elitismCount := None;
     cfg_tournamentSize := None;
     cfg_weights := None;
     cfg_seed := None |}.

Definition smallGA : GeneticAlgorithm :=
  initialize sampleData (GeneticAlgorithm_new smallConfig).

(** Sizes that are no whole numbers: a population of 2.5, 2.5
    generations, 1.5 elites and tournaments of 1.5. *)
Definition fractionalConfig : Config :=
  {| cfg_populationSize := Some (5 # 2)%Q;
     cfg_maxGenerations := Some (5 # 2)%Q;
     cfg_mutationRate := Some (1 # 2)%Q;
     cfg_crossoverRate := None;
     cfg_elitismCount := Some (3 # 2)%Q;
     cfg_tournamentSize := Some (3 # 2)%Q;
     cfg_weights := None;
     cfg_seed := None |}.

(** The sample snapshot with a teacher who is never available: every
    class is a hard violation, and no run stops early. *)
Definition busyData : Data :=
  {| d_courses := d_courses sampleData;
     d_faculty :=
       [{| f_id := "F1"; f_name := "F1";
           subjects := [{| sub_courseId := Some "CS101" |};
                        {| sub_courseId := Some "CS102" |}];
           availability := Some (fun _ => []);
           workload := None; f_isActive := true |}];
     d_rooms := d_rooms sampleData;
     d_timeSlots := d_timeSlots sampleData;
     d_constraints := [] |}.

Definition fractionalGA : GeneticAlgorithm :=
  initialize busyData (GeneticAlgorithm_new fractionalConfig).

(** The progress record that the callback is handed for a generation,
    from the history record of that generation. *)
Definition progressOf (maxGen : Q) (h : HistoryRecord) : Progress :=
  {| p_generation := generation h;
     p_maxGenerations := maxGen;
     p_progress :=
       Qred (inject_Z (Z.of_nat (generation h)) / maxGen * (100 # 1))%Q;
     p_bestFitness := bestFitness h;
     p_avgFitness := avgFitness h;
     p_hardViolations := h_hardViolations h |}.

(** The generation is one the callback is called for. *)
Definition isReported (h : HistoryRecord) : bool :=
  (generation h mod 10 =? 0)%nat.

(** The number of conflicts of a type. *)
Definition typeCount (type : string) (cs : list Conflict) : nat :=
  length (List.filter (fun c => String.eqb (cf_type c) type) cs).

(** The entity and the time key under which the fast pass books an
    entry. *)
Definition facultyBooking (e : Entry) : string * string :=
  (e_faculty e, entryTimeKey e).

Definition roomBooking (e : Entry) : string * string :=
  (e_room e, entryTimeKey e).

Definition sectionBooking (e : Entry) : string * string :=
  (e_section e, entryTimeKey e).

(** The categories whose checker can find a violation. *)
Definition workingCategory (c : Category) : Prop :=
  c = faculty_workload \/ c = room_allocation \/ c = student_section
  \/ c = elective_grouping.

(** The violation is the report of an active constraint of the list, of
    the kind [k], whose check found [v_count v] violations, at least
    one, which are the details. *)
Definition reportedFor (entries : list Entry) (courses : list Course)
    (faculty : list Faculty) (rooms : list Room)
    (constraints : list Constraint) (k : ConstraintKind) (v : Violation)
    : Prop :=
  exists c,
    c ∈ constraints /\ isActive c = true /\ kind c = k
    /\ violated (checkConstraint c entries courses faculty rooms) = true
    /\ v_constraint v = name c /\ v_category v = category c
    /\ v_description v = description c
    /\ v_details v = cr_details (checkConstraint c entries courses faculty rooms)
    /\ v_count v = Z.of_nat (length (v_details v))
    /\ 1 <= v_count v
    /\ v_weight v = match k with hard => None | soft => Some (weight c) end
    /\ workingCategory (category c).

(** ** [TimeSlot.findConsecutiveSlots] *)




(** ** The summary of a validation *)

(** The string a category is stored as (the schema's enum). *)
Definition category_name (c : Category) : string :=
  match c with
  | faculty_workload => "faculty_workload"
  | room_allocation => "room_allocation"
  | time_slot => "time_slot"
  | student_section => "student_section"
  | lab_continuity => "lab_continuity"
  | elective_grouping => "elective_grouping"
  | preference => "preference"
  | institutional_policy => "institutional_policy"
  end.

(** [groupByCategory(violations)]: an object from the category to the
    array of its violations. *)
Definition groupByCategory (violations : list Violation)
    : JsMap.t (list Violation) :=
  fold_left
    (fun grouped violation =>
       let k := category_name (v_category violation) in
       let grouped :=
         if negb (JsMap.has k grouped) then JsMap.set k [] grouped
         else grouped in
       match JsMap.get k grouped with
       | Some l => JsMap.set k (l ++ [violation]) grouped
       | None => grouped
       end)
    violations JsMap.empty.

Record Summary : Type := {
  totalHard : nat;
  totalSoft : nat;
  hardByCategory : JsMap.t (list Violation);
  softByCategory : JsMap.t (list Violation);
  criticalIssues : list Violation
}.

(** [getSummary(violations)] *)
Definition getSummary (violations : Violations) : Summary :=
  {| totalHard := length (v_hard violations);
     totalSoft := length (v_soft violations);
     hardByCategory := groupByCategory (v_hard violations);
     softByCategory := groupByCategory (v_soft violations);
     criticalIssues :=
       List.filter (fun v => v_count v >? 0) (v_hard violations) |}.

#[global] Instance Category_eq_dec : EqDecision Category.
Proof. solve_decision. Defined.

(** The violations of a category, in their order. *)
Definition ofCategory (c : Category) (violations : list Violation)
    : list Violation :=
  filter (fun v => v_category v = c) violations.

(** ** The gap report of the validator *)

(** What a gap report says of an entry of the section day it is about:
    the section and the day reported are the first and the second piece
    of the key [section-day] cut at every dash, so they are the section
    and the day when the section's name has no dash, and not the section
    when it has one. *)
Definition gapReportOf (entries : list Entry) (v : ViolationDetail) : Prop :=
  match v with
  | SectionGap sec day gapSize _ =>
      2 < gapSize
      /\ exists e,
           e ∈ entries
           /\ sec = (split "-" (e_section e) ++ [day_name (e_day e)]) !! 0%nat
           /\ day = (split "-" (e_section e) ++ [day_name (e_day e)]) !! 1%nat
           /\ ("-"%char ∉ list_ascii_of_string (e_section e) ->
               sec = Some (e_section e) /\ day = Some (day_name (e_day e)))
           /\ ("-"%char ∈ list_ascii_of_string (e_section e) ->
               sec <> Some (e_section e))
  | _ => True
  end.

(** Section "CSE-A" has classes on Monday in slots 1 and 5. *)
Definition dashedSection : list Entry :=
  map entryOfGene
    [sampleGene "CS101" "CSE-A" theory Monday 1 "F1" "R1" 1;
     sampleGene "CS102" "CSE-A" theory Monday 5 "F2" "R2" 1].

(** *** The reach of the model *)

(** A computation that does not end with a [null] among the chromosomes
    of a population, the one outcome the model leaves aside. *)
Definition modelled {A} (m : M A) : Prop := forall w, m w <> Unmodelled.

(** * Properties *)

(** ** Strings and keys *)

Section Strings.

Local Open Scope nat_scope.

Lemma chars_app (s1 s2 : string) :
  list_ascii_of_string (s1 +:+ s2)
  = list_ascii_of_string s1 ++ list_ascii_of_string s2.
Proof. induction s1 as [|c s1 IH]; simpl; [done | by rewrite IH]. Qed.

Lemma chars_inj (s1 s2 : string) :
  list_ascii_of_string s1 = list_ascii_of_string s2 -> s1 = s2.
Proof.
  intros H. rewrite <- (string_of_list_ascii_of_string s1),
    <- (string_of_list_ascii_of_string s2). by rewrite H.
Qed.

(** A text is cut in one way only at its last dash. *)
Lemma last_dash_unique (l1 l2 r1 r2 : list ascii) :
  "-"%char ∉ r1 -> "-"%char ∉ r2 ->
  l1 ++ "-"%char :: r1 = l2 ++ "-"%char :: r2 -> l1 = l2 /\ r1 = r2.
Proof.
  revert l2. induction l1 as [|a l1 IH]; intros [|b l2] H1 H2 E; simpl in E.
  - by inversion E.
  - inversion E; subst. exfalso. apply H1, elem_of_app. right. by left.
  - inversion E; subst. exfalso. apply H2, elem_of_app. right. by left.
  - inversion E; subst. destruct (IH l2 H1 H2) as [-> ->]; done.
Qed.

Ltac not_among_chars :=
  rewrite list_elem_of_In; simpl; intuition discriminate.

Lemma pretty_N_char_no_dash (x : N) : pretty_N_char x <> "-"%char.
Proof. unfold pretty_N_char. by repeat case_match. Qed.

Lemma pretty_N_go_no_dash (x : N) (s : string) :
  "-"%char ∉ list_ascii_of_string s ->
  "-"%char ∉ list_ascii_of_string (pretty_N_go x s).
Proof.
  revert s. induction (N.lt_wf_0 x) as [x _ IH]; intros s Hs.
  destruct (decide (x = 0%N)) as [->|Hx].
  - by rewrite pretty_N_go_0.
  - rewrite pretty_N_go_step by lia. apply IH.
    + apply N.div_lt; lia.
    + simpl. rewrite not_elem_of_cons. split; [|done].
      intros E. by apply (pretty_N_char_no_dash (x `mod` 10)%N).
Qed.

Lemma pretty_N_no_dash (x : N) : "-"%char ∉ list_ascii_of_string (pretty x).
Proof.
  unfold pretty, pretty_N. case_decide.
  - not_among_chars.
  - apply pretty_N_go_no_dash. not_among_chars.
Qed.

Lemma day_name_no_dash (d : Day) :
  "-"%char ∉ list_ascii_of_string (day_name d).
Proof. destruct d; not_among_chars. Qed.

Lemma day_name_inj (d1 d2 : Day) : day_name d1 = day_name d2 -> d1 = d2.
Proof. by destruct d1, d2. Qed.


(** The digits of a rendered integer, and whether a sign precedes them. *)
Lemma js_num_shape (n : Z) :
  exists (sign : bool) (ds : list ascii),
    ("-"%char ∉ ds) /\
    (list_ascii_of_string (js_num n)
     = if sign then "-"%char :: ds else ds).
Proof.
  destruct n as [|p|p]; unfold js_num, pretty, pretty_Z.
  - exists false, ["0"%char]. split; [not_among_chars | done].
  - exists false, (list_ascii_of_string (pretty (Npos p))).
    split; [apply pretty_N_no_dash | done].
  - exists true, (list_ascii_of_string (pretty (Npos p))).
    split; [apply pretty_N_no_dash | done].
Qed.

Lemma js_num_inj (n1 n2 : Z) : js_num n1 = js_num n2 -> n1 = n2.
Proof. unfold js_num. apply (inj pretty). Qed.

(** [`${id}-${day}-${slot}`] determines the identifier, the day and the
    slot number. *)
Lemma slot_key_inj (i1 i2 : string) (d1 d2 : Day) (n1 n2 : Z) :
  i1 +:+ "-" +:+ day_name d1 +:+ "-" +:+ js_num n1
  = i2 +:+ "-" +:+ day_name d2 +:+ "-" +:+ js_num n2 ->
  i1 = i2 /\ d1 = d2 /\ n1 = n2.
Proof.
  intros E. apply (f_equal list_ascii_of_string) in E.
  rewrite !chars_app in E. simpl in E.
  destruct (js_num_shape n1) as (sg1 & ds1 & Hd1 & E1).
  destruct (js_num_shape n2) as (sg2 & ds2 & Hd2 & E2).
  pose proof (day_name_no_dash d1) as Hn1.
  pose proof (day_name_no_dash d2) as Hn2.
  assert (forall x d t : list ascii,
             x ++ "-"%char :: d ++ "-"%char :: t
             = (x ++ "-"%char :: d) ++ "-"%char :: t) as A1
    by (intros; by rewrite <- app_assoc).
  assert (forall x d t : list ascii,
             x ++ "-"%char :: d ++ "-"%char :: "-"%char :: t
             = ((x ++ "-"%char :: d) ++ ["-"%char]) ++ "-"%char :: t) as A2
    by (intros; by rewrite <- !app_assoc).
  assert (forall s1 s2 : string, forall da db : Day,
             list_ascii_of_string s1 ++ "-"%char :: list_ascii_of_string (day_name da)
             = list_ascii_of_string s2 ++ "-"%char :: list_ascii_of_string (day_name db) ->
             s1 = s2 /\ da = db) as Hid.
  { intros s1 s2 da db H.
    apply last_dash_unique in H as [H1 H2]; auto using day_name_no_dash.
    split; [by apply chars_inj | by apply day_name_inj, chars_inj]. }
  rewrite E1, E2 in E. destruct sg1, sg2.
  - rewrite !A2 in E. apply last_dash_unique in E as [E Eds]; [|done..].
    apply app_inj_tail in E as [E _]. apply Hid in E as [-> ->].
    split; [done|]. split; [done|]. apply js_num_inj, chars_inj.
    by rewrite E1, E2, Eds.
  - rewrite A2, A1 in E. apply last_dash_unique in E as [E Eds]; [|done..].
    symmetry in E.
    change ((list_ascii_of_string i1 ++ "-"%char :: list_ascii_of_string (day_name d1)) ++ ["-"%char])
      with ((list_ascii_of_string i1 ++ "-"%char :: list_ascii_of_string (day_name d1)) ++ "-"%char :: []) in E.
    apply last_dash_unique in E as [_ E]; [|done|apply not_elem_of_nil].
    by destruct d2.
  - rewrite A1, A2 in E. apply last_dash_unique in E as [E Eds]; [|done..].
    change ((list_ascii_of_string i2 ++ "-"%char :: list_ascii_of_string (day_name d2)) ++ ["-"%char])
      with ((list_ascii_of_string i2 ++ "-"%char :: list_ascii_of_string (day_name d2)) ++ "-"%char :: []) in E.
    apply last_dash_unique in E as [_ E]; [|done|apply not_elem_of_nil].
    by destruct d1.
  - rewrite !A1 in E. apply last_dash_unique in E as [E Eds]; [|done..].
    apply Hid in E as [-> ->].
    split; [done|]. split; [done|]. apply js_num_inj, chars_inj.
    by rewrite E1, E2, Eds.
Qed.

End Strings.

(** ** The insertion ordered map *)

Section JsMapFacts.

Context {V : Type}.
Implicit Types (m : JsMap.t V) (k : string) (v : V).

Lemma JsMap_get_set_eq k v m : JsMap.get k (JsMap.set k v m) = Some v.
Proof.
  induction m as [|[k' v'] m IH]; simpl.
  - by rewrite String.eqb_refl.
  - destruct (String.eqb_spec k' k) as [->|Hne]; simpl.
    + by rewrite String.eqb_refl.
    + destruct (String.eqb_spec k' k); [done | apply IH].
Qed.

Lemma JsMap_get_set_ne k k' v m :
  k <> k' -> JsMap.get k' (JsMap.set k v m) = JsMap.get k' m.
Proof.
  intros Hne. induction m as [|[k0 v0] m IH]; simpl.
  - destruct (String.eqb_spec k k'); [done | done].
  - destruct (String.eqb_spec k0 k) as [->|H0]; simpl.
    + destruct (String.eqb_spec k k'); [done | done].
    + destruct (String.eqb_spec k0 k'); [done | apply IH].
Qed.

Lemma JsMap_has_keys k m : JsMap.has k m = true <-> k ∈ JsMap.keys m.
Proof.
  unfold JsMap.has, JsMap.keys.
  induction m as [|[k' v'] m IH]; simpl.
  - split; [done | by intros ?%elem_of_nil].
  - rewrite elem_of_cons. destruct (String.eqb_spec k' k) as [->|Hne].
    + split; [by left | done].
    + rewrite IH. split; [by right | intros [?|?]; [congruence | done]].
Qed.

Lemma JsMap_get_None_keys k m : JsMap.get k m = None <-> k ∉ JsMap.keys m.
Proof.
  rewrite <- JsMap_has_keys. unfold JsMap.has.
  destruct (JsMap.get k m); split; (done || congruence).
Qed.

Lemma JsMap_keys_set k v m :
  JsMap.keys (JsMap.set k v m)
  = if JsMap.has k m then JsMap.keys m else JsMap.keys m ++ [k].
Proof.
  unfold JsMap.has, JsMap.keys.
  induction m as [|[k' v'] m IH]; simpl; [done|].
  destruct (String.eqb_spec k' k) as [->|Hne]; simpl; [done|].
  rewrite IH. by destruct (JsMap.get k m).
Qed.

Lemma JsMap_keys_set_NoDup k v m :
  NoDup (JsMap.keys m) -> NoDup (JsMap.keys (JsMap.set k v m)).
Proof.
  intros Hm. rewrite JsMap_keys_set.
  destruct (JsMap.has k m) eqn:Hk; [done|].
  apply NoDup_app. split; [done|]. split; [|apply NoDup_singleton].
  intros x Hx ->%list_elem_of_singleton.
  apply JsMap_has_keys in Hx. congruence.
Qed.

Lemma JsMap_keys_set_elem k k' v m :
  k' ∈ JsMap.keys (JsMap.set k v m) <-> k' = k \/ k' ∈ JsMap.keys m.
Proof.
  rewrite JsMap_keys_set. destruct (JsMap.has k m) eqn:Hk.
  - apply JsMap_has_keys in Hk. split; [by right | intros [->|?]; done].
  - rewrite elem_of_app, list_elem_of_singleton. tauto.
Qed.

End JsMapFacts.

(** ** Counting duplicates *)

Section Duplicates.

Context {K : Type} `{EqDecision K}.
Implicit Types (bag : list K) (k : K).

Local Open Scope nat_scope.

Lemma occurrences_cons k x bag :
  occurrences k (x :: bag)
  = (if decide (x = k) then 1 else 0) + occurrences k bag.
Proof.
  unfold occurrences. rewrite filter_cons. by destruct (decide (x = k)).
Qed.

Lemma occurrences_pos k bag : k ∈ bag -> 1 <= occurrences k bag.
Proof.
  induction bag as [|x bag IH]; [by intros ?%elem_of_nil|].
  rewrite occurrences_cons, elem_of_cons.
  destruct (decide (x = k)); [lia|]. intros [?|Hin]; [congruence|].
  specialize (IH Hin). lia.
Qed.

(** One key of a list without duplicates is hit once. *)
Lemma sum_indicator (x : K) (keys : list K) :
  NoDup keys -> x ∈ keys ->
  sum_list_with (fun k => if decide (x = k) then 1 else 0) keys = 1.
Proof.
  induction 1 as [|y keys Hy Hnd IH]; [by intros ?%elem_of_nil|].
  simpl. rewrite elem_of_cons. destruct (decide (x = y)) as [->|Hne].
  - intros _. assert (sum_list_with (fun k => if decide (y = k) then 1 else 0) keys = 0) as ->; [|done].
    clear IH Hnd. induction keys as [|z keys IH]; [done|]. simpl.
    apply not_elem_of_cons in Hy as [Hz Hy].
    destruct (decide (y = z)); [done|]. by apply IH.
  - intros [?|Hin]; [done|]. by rewrite IH.
Qed.

Lemma sum_list_with_plus (f g : K -> nat) (keys : list K) :
  sum_list_with (fun k => f k + g k) keys
  = sum_list_with f keys + sum_list_with g keys.
Proof. induction keys as [|k keys IH]; simpl; lia. Qed.

Lemma sum_list_with_eq (f g : K -> nat) (keys : list K) :
  (forall k, f k = g k) -> sum_list_with f keys = sum_list_with g keys.
Proof. intros E. induction keys as [|k keys IH]; simpl; [done|]. by rewrite E, IH. Qed.

(** The occurrences of the keys add up to the size of the bag. *)
Lemma sum_occurrences (keys bag : list K) :
  NoDup keys -> (forall x, x ∈ bag -> x ∈ keys) ->
  sum_list_with (fun k => occurrences k bag) keys = length bag.
Proof.
  intros Hnd. induction bag as [|x bag IH]; intros Hin.
  - induction keys as [|k keys IHk]; [done|]. simpl.
    apply NoDup_cons in Hnd as [_ Hnd]. rewrite IHk; [done | done | ].
    by intros ? ?%elem_of_nil.
  - rewrite (sum_list_with_eq _
      (fun k => (if decide (x = k) then 1 else 0) + occurrences k bag))
      by (intros; apply occurrences_cons).
    rewrite sum_list_with_plus, sum_indicator, IH; simpl; [done|..]; try done.
    + intros y Hy. apply Hin. by right.
    + apply Hin. by left.
Qed.

Lemma sum_minus_one (f : K -> nat) (keys : list K) :
  (forall k, k ∈ keys -> 1 <= f k) ->
  sum_list_with (fun k => f k - 1) keys + length keys = sum_list_with f keys.
Proof.
  induction keys as [|k keys IH]; intros Hf; [done|]. simpl.
  assert (1 <= f k) by (apply Hf; by left).
  assert (sum_list_with (fun k0 => f k0 - 1) keys + length keys
          = sum_list_with f keys) by (apply IH; intros; apply Hf; by right).
  lia.
Qed.

(** The duplicates beyond the first are the genes minus the distinct
    keys. *)
Lemma duplicatesBeyondFirst_length bag :
  duplicatesBeyondFirst bag + length (remove_dups bag) = length bag.
Proof.
  unfold duplicatesBeyondFirst.
  rewrite sum_minus_one.
  - apply sum_occurrences; [apply NoDup_remove_dups|].
    intros x. by rewrite elem_of_remove_dups.
  - intros k Hk. apply occurrences_pos. by apply elem_of_remove_dups.
Qed.

End Duplicates.

(** ** Double bookings *)

Section Conflicts.

Variable key : Gene -> string.

(** What the loop maintains: the map holds the keys seen, each once, and
    the counter is the number of genes met minus the number of keys. *)
Lemma conflictLoop_invariant (genes : list Gene) (m : JsMap.t bool) (c : Z) :
  NoDup (JsMap.keys m) ->
  let r := conflictLoop key genes m c in
  NoDup (JsMap.keys (snd r))
  /\ (forall k, k ∈ JsMap.keys (snd r) <-> k ∈ JsMap.keys m \/ k ∈ map key genes)
  /\ fst r + Z.of_nat (length (JsMap.keys (snd r)))
     = c + Z.of_nat (length (JsMap.keys m)) + Z.of_nat (length genes).
Proof.
  revert m c. induction genes as [|g genes IH]; intros m c Hm; simpl.
  - split; [done|]. split; [|lia].
    intros k. split; [by left | intros [?|?%elem_of_nil]; done].
  - specialize (IH (JsMap.set (key g) true m)
                   (if JsMap.has (key g) m then c + 1 else c)
                   (JsMap_keys_set_NoDup _ _ _ Hm)).
    simpl in IH. destruct IH as (Hnd & Hel & Hc).
    split; [done|]. split.
    + intros k. rewrite Hel, JsMap_keys_set_elem, elem_of_cons. tauto.
    + rewrite Hc, JsMap_keys_set.
      destruct (JsMap.has (key g) m); [lia|].
      rewrite length_app. simpl. lia.
Qed.

Lemma checkConflicts_count (genes : list Gene) :
  fst (checkConflicts key genes)
  = Z.of_nat (length genes)
    - Z.of_nat (length (remove_dups (map key genes))).
Proof.
  unfold checkConflicts. simpl.
  destruct (conflictLoop_invariant genes JsMap.empty 0) as (Hnd & Hel & Hc);
    [apply NoDup_nil_2|].
  simpl in *.
  assert (length (JsMap.keys (snd (conflictLoop key genes JsMap.empty 0)))
          = length (remove_dups (map key genes))) as E.
  { apply Permutation_length, NoDup_Permutation;
      [done | apply NoDup_remove_dups|].
    intros k. rewrite Hel, elem_of_remove_dups.
    split; [intros [?%elem_of_nil|?]; done | by right]. }
  lia.
Qed.

(** The keys returned are the distinct keys of the genes. *)
Lemma checkConflicts_keys (genes : list Gene) :
  NoDup (snd (checkConflicts key genes))
  /\ forall k, k ∈ snd (checkConflicts key genes) <-> k ∈ map key genes.
Proof.
  unfold checkConflicts. simpl.
  destruct (conflictLoop_invariant genes JsMap.empty 0) as (Hnd & Hel & _);
    [apply NoDup_nil_2|].
  split; [done|]. intros k. rewrite Hel.
  split; [intros [?%elem_of_nil|?]; done | by right].
Qed.

End Conflicts.

Global Instance renderKey_inj : Inj (=) (=) renderKey.
Proof.
  intros [[i1 d1] n1] [[i2 d2] n2] E. unfold renderKey in E. simpl in E.
  apply slot_key_inj in E as (-> & -> & ->). done.
Qed.

Lemma remove_dups_fmap_length {A B} `{EqDecision A} `{EqDecision B}
    (f : A -> B) `{!Inj (=) (=) f} (l : list A) :
  length (remove_dups (f <$> l)) = length (remove_dups l).
Proof.
  rewrite <- (length_fmap f (remove_dups l)).
  apply Permutation_length, NoDup_Permutation.
  - apply NoDup_remove_dups.
  - apply NoDup_fmap_2; [done | apply NoDup_remove_dups].
  - intros y. rewrite elem_of_remove_dups, !list_elem_of_fmap.
    by setoid_rewrite elem_of_remove_dups.
Qed.

(** A conflict check whose key is the rendered booking key of [ent]
    counts the duplicates beyond the first. *)
Lemma checkConflicts_duplicates (ent : Gene -> string) (key : Gene -> string)
    (genes : list Gene) :
  (forall g, key g = renderKey (bookingKey ent g)) ->
  fst (checkConflicts key genes)
  = Z.of_nat (duplicatesBeyondFirst (map (bookingKey ent) genes)).
Proof.
  intros Hkey. rewrite checkConflicts_count.
  assert (map key genes = renderKey <$> map (bookingKey ent) genes) as ->.
  { induction genes as [|g genes IH]; simpl; [done|]. by rewrite Hkey, IH. }
  pose proof (duplicatesBeyondFirst_length (map (bookingKey ent) genes)) as H.
  rewrite length_map in H.
  rewrite remove_dups_fmap_length by apply _. lia.
Qed.

(** C6.  The faculty, room and section double-booking counts of the
    fitness evaluation are the duplicates beyond the first per key
    (entity-id, day, slot-number): a key shared by [m] genes contributes
    [m - 1], and the count is the sum of these over the distinct keys. *)
Theorem double_bookings_count_duplicates (genes : list Gene) :
  fst (checkFacultyConflicts genes)
  = Z.of_nat (duplicatesBeyondFirst (map (bookingKey facultyId) genes))
  /\ fst (checkRoomConflicts genes)
     = Z.of_nat (duplicatesBeyondFirst (map (bookingKey roomId) genes))
  /\ fst (checkSectionConflicts genes)
     = Z.of_nat (duplicatesBeyondFirst (map (bookingKey section) genes)).
Proof.
  repeat split; apply checkConflicts_duplicates; intros g; reflexivity.
Qed.

(** ** The counts are not negative *)

Lemma fold_left_nonneg {A} (f : Z -> A -> Z) (l : list A) (c : Z) :
  (forall c a, 0 <= c -> 0 <= f c a) -> 0 <= c -> 0 <= fold_left f l c.
Proof.
  intros Hf. revert c. induction l as [|a l IH]; simpl; intros c Hc; [done|].
  apply IH, Hf, Hc.
Qed.

Lemma checkConflicts_nonneg (key : Gene -> string) (genes : list Gene) :
  0 <= fst (checkConflicts key genes).
Proof.
  rewrite checkConflicts_count.
  pose proof (duplicatesBeyondFirst_length (map key genes)) as H.
  rewrite length_map in H. lia.
Qed.

Lemma checkFacultyAvailability_nonneg genes faculty :
  0 <= checkFacultyAvailability genes faculty.
Proof.
  apply fold_left_nonneg; [|done]. intros c g Hc. unfold availabilityStep.
  repeat case_match; lia.
Qed.

Lemma checkLabContinuity_zero genes : checkLabContinuity genes = 0.
Proof.
  unfold checkLabContinuity. generalize (List.filter isLab genes) as l.
  assert (forall l c, fold_left (fun count session =>
            if consecutiveSlots session >? 1 then count + 0 else count) l c = c)
    as H; [|intros l; apply H].
  induction l as [|g l IH]; intros c; simpl; [done|].
  rewrite IH. case_match; lia.
Qed.

Lemma checkRoomCapacity_nonneg genes courses rooms :
  0 <= checkRoomCapacity genes courses rooms.
Proof.
  apply fold_left_nonneg; [|done]. intros c g Hc. unfold capacityStep.
  repeat case_match; lia.
Qed.





(** ** The score and its breakdown *)





(** C1.  Two classes of one section in one slot: the section conflict
    costs 1000, the student gap total is -1 and earns 50, and the
    breakdown lists the section conflict only.  The score is 50, not the
    [max(0, 1000 - 1000) = 0] that the breakdown gives. *)
Theorem fitness_differs_from_breakdown :
  let w := FitnessCalculator None in
  let ev := calculate w sectionDoubleBooked twoCourses twoFaculty twoRooms [] in
  ev_details ev
  = {| hardConstraints := [CountDetail "section_conflict" 1 1000];
       softConstraints := [] |}
  /\ calculateStudentGaps sectionDoubleBooked = -1
  /\ ev_fitness ev = 50
  /\ Z.max 0 (1000 - detailsCharge w (ev_details ev)) = 0.
Proof. vm_compute. repeat split. Qed.

(** ** Lab continuity *)

(** C2.  The lab continuity check of the fitness evaluation counts
    nothing for a lone lab gene that needs two consecutive slots. *)
Theorem lab_continuity_not_checked :
  Forall (fun g => sessionType g = lab /\ consecutiveSlots g = 2) loneLab
  /\ checkLabContinuity loneLab = 0
  /\ ev_hardViolations
       (calculate (FitnessCalculator None) loneLab twoCourses twoFaculty
                  twoRooms []) = 0.
Proof.
  split; [repeat constructor|]. split; vm_compute; reflexivity.
Qed.

(** ** The fast pass and the validator *)

Lemma setHas_true x s : setHas x s = true <-> x ∈ s.
Proof.
  unfold setHas. rewrite existsb_exists. split.
  - intros (y & Hy & E). apply String.eqb_eq in E as ->.
    by apply list_elem_of_In.
  - intros H. exists x. split; [by apply list_elem_of_In | apply String.eqb_refl].
Qed.

Lemma setAdd_elem t x s : t ∈ setAdd x s <-> t = x \/ t ∈ s.
Proof.
  unfold setAdd. destruct (setHas x s) eqn:E.
  - apply setHas_true in E. split; [by right | intros [->|?]; done].
  - rewrite elem_of_app, list_elem_of_singleton. tauto.
Qed.

Lemma bookSlot_fst k t m : fst (bookSlot k t m) = true <-> booked k t m.
Proof. unfold bookSlot, booked. simpl. apply setHas_true. Qed.

Lemma bookSlot_booked k t m k' t' :
  booked k' t' (snd (bookSlot k t m)) <-> (k' = k /\ t' = t) \/ booked k' t' m.
Proof.
  unfold bookSlot, booked. simpl. destruct (decide (k = k')) as [<-|Hne].
  - rewrite JsMap_get_set_eq. simpl. rewrite setAdd_elem. tauto.
  - rewrite JsMap_get_set_ne by done. split; [by right | intros [[? ?]|?]; [congruence | done]].
Qed.

Lemma duplicated_app key P Q : duplicated key P -> duplicated key (P ++ Q).
Proof.
  intros (i & j & e1 & e2 & Hij & H1 & H2 & E).
  exists i, j, e1, e2. repeat split; try done; by apply lookup_app_l_Some.
Qed.

Lemma duplicated_last key P e e' :
  e' ∈ P -> key e' = key e -> duplicated key (P ++ [e]).
Proof.
  intros [i Hi]%list_elem_of_lookup_1 E.
  exists i, (length P), e', e. repeat split; try done.
  - by eapply lookup_lt_Some.
  - by apply lookup_app_l_Some.
  - by rewrite list_lookup_middle.
Qed.

Lemma duplicated_snoc key P e :
  duplicated key (P ++ [e]) ->
  duplicated key P \/ exists e', e' ∈ P /\ key e' = key e.
Proof.
  intros (i & j & e1 & e2 & Hij & H1 & H2 & E).
  destruct (decide (j < length P)%nat) as [Hj|Hj].
  - left. exists i, j, e1, e2. repeat split; try done.
    + rewrite lookup_app_l in H1 by lia. done.
    + rewrite lookup_app_l in H2 by done. done.
  - right. assert (j = length P) as ->.
    { apply lookup_lt_Some in H2. rewrite length_app in H2. simpl in H2. lia. }
    rewrite list_lookup_middle in H2 by done. injection H2 as <-.
    rewrite lookup_app_l in H1 by done.
    exists e1. split; [by eapply list_elem_of_lookup_2 | done].
Qed.

(** Where the conflicts after one more entry come from. *)
Lemma detectStep_conflicts st e c :
  c ∈ cs_conflicts (detectStep st e) ->
  c ∈ cs_conflicts st
  \/ cf_type c = "faculty_double_booking"
  \/ (cf_type c = "room_double_booking"
      /\ booked (e_room e) (entryTimeKey e) (roomSchedule st))
  \/ (cf_type c = "student_section_conflict"
      /\ booked (e_section e) (entryTimeKey e) (sectionSchedule st)).
Proof.
  unfold detectStep, bookSlot, booked. simpl.
  destruct (setHas (entryTimeKey e)
              (default [] (JsMap.get (e_faculty e) (facultySchedule st))));
    destruct (setHas (entryTimeKey e)
                (default [] (JsMap.get (e_room e) (roomSchedule st)))) eqn:Hr;
    destruct (setHas (entryTimeKey e)
                (default [] (JsMap.get (e_section e) (sectionSchedule st))))
      eqn:Hs;
    intros Hc; repeat (apply elem_of_app in Hc as [Hc|Hc]);
    try (by left);
    apply list_elem_of_singleton in Hc; subst c; simpl;
    try (right; by left);
    try (right; right; left; split; [done | by apply setHas_true]);
    try (right; right; right; split; [done | by apply setHas_true]).
Qed.

(** What the fast pass has noted after the entries [P]: every booking
    of a room or a section stems from an entry, and a room or section
    conflict stems from two entries with one booking key. *)
Lemma detect_invariant (P : list Entry) :
  let st := fold_left detectStep P initialConflictState in
  (forall k t, booked k t (roomSchedule st) ->
     exists e, e ∈ P /\ e_room e = k /\ entryTimeKey e = t)
  /\ (forall k t, booked k t (sectionSchedule st) ->
        exists e, e ∈ P /\ e_section e = k /\ entryTimeKey e = t)
  /\ ((exists c, c ∈ cs_conflicts st /\ cf_type c = "room_double_booking") ->
      duplicated roomBookingKey P)
  /\ ((exists c, c ∈ cs_conflicts st /\ cf_type c = "student_section_conflict") ->
      duplicated sectionBookingKey P).
Proof.
  induction P as [|e P IH] using rev_ind; simpl.
  - repeat split.
    + intros k t H. by apply elem_of_nil in H.
    + intros k t H. by apply elem_of_nil in H.
    + intros (c & H & _). by apply elem_of_nil in H.
    + intros (c & H & _). by apply elem_of_nil in H.
  - rewrite fold_left_app. simpl.
    set (st := fold_left detectStep P initialConflictState) in *.
    destruct IH as (Hroom & Hsec & Hrc & Hsc).
    assert (forall k t, booked k t (roomSchedule (detectStep st e)) ->
              exists e0, e0 ∈ P ++ [e] /\ e_room e0 = k /\ entryTimeKey e0 = t)
      as Hroom'.
    { intros k t H. unfold detectStep in H. simpl in H.
      apply bookSlot_booked in H as [[-> ->]|H].
      - exists e. split; [apply elem_of_app; right; by left | done].
      - destruct (Hroom k t H) as (e0 & H0 & E).
        exists e0. split; [apply elem_of_app; by left | done]. }
    assert (forall k t, booked k t (sectionSchedule (detectStep st e)) ->
              exists e0, e0 ∈ P ++ [e] /\ e_section e0 = k /\ entryTimeKey e0 = t)
      as Hsec'.
    { intros k t H. unfold detectStep in H. simpl in H.
      apply bookSlot_booked in H as [[-> ->]|H].
      - exists e. split; [apply elem_of_app; right; by left | done].
      - destruct (Hsec k t H) as (e0 & H0 & E).
        exists e0. split; [apply elem_of_app; by left | done]. }
    split; [done|]. split; [done|].
    split; intros (c & Hc & Ht);
      apply detectStep_conflicts in Hc
        as [Hc|[Hc|[[Hc Hb]|[Hc Hb]]]]; try congruence.
    + apply duplicated_app, Hrc. by exists c.
    + apply Hroom in Hb as (e0 & H0 & Er & Et).
      apply (duplicated_last _ _ _ e0); [done|].
      unfold roomBookingKey. by rewrite Er, Et.
    + apply duplicated_app, Hsc. by exists c.
    + apply Hsec in Hb as (e0 & H0 & Er & Et).
      apply (duplicated_last _ _ _ e0); [done|].
      unfold sectionBookingKey. by rewrite Er, Et.
Qed.

(** The duplicate scan of the validator reports when two entries have
    one key. *)
Lemma scan_invariant key report (P : list Entry) (vs0 : list ViolationDetail) :
  let r := fold_left (scanStep key report) P (vs0, JsMap.empty) in
  (forall k, JsMap.has k (snd r) = true <-> exists e, e ∈ P /\ key e = k)
  /\ (length vs0 <= length (fst r))%nat
  /\ (duplicated key P -> (length vs0 < length (fst r))%nat).
Proof.
  induction P as [|e P IH] using rev_ind; simpl.
  - split; [|split; [lia|]].
    + intros k. split; [done|]. intros (e & H & _). by apply elem_of_nil in H.
    + intros (i & j & e1 & e2 & _ & H & _). done.
  - rewrite fold_left_app. simpl.
    set (r := fold_left (scanStep key report) P (vs0, JsMap.empty)) in *.
    destruct IH as (Hseen & Hle & Hdup).
    split; [|split].
    + intros k. rewrite JsMap_has_keys, JsMap_keys_set_elem, <- JsMap_has_keys, Hseen.
      split.
      * intros [->|(e0 & H0 & E)].
        -- exists e. split; [apply elem_of_app; right; by left | done].
        -- exists e0. split; [apply elem_of_app; by left | done].
      * intros (e0 & [H0|H0%list_elem_of_singleton]%elem_of_app & E).
        -- right. by exists e0.
        -- left. by subst.
    + destruct (JsMap.has (key e) (snd r)); [rewrite length_app; simpl|]; lia.
    + intros [Hd|(e' & He' & E)]%duplicated_snoc.
      * specialize (Hdup Hd).
        destruct (JsMap.has (key e) (snd r)); [rewrite length_app; simpl|]; lia.
      * assert (JsMap.has (key e) (snd r) = true) as ->
          by (apply Hseen; by exists e').
        rewrite length_app. simpl. lia.
Qed.

Lemma duplicateScan_reports key report entries :
  duplicated key entries ->
  (0 < length (duplicateScan key report entries []))%nat.
Proof.
  intros H. by apply (scan_invariant key report entries []).
Qed.

Lemma validateStep_keeps entries cs fs rs vs constraint v :
  v ∈ v_hard vs -> v ∈ v_hard (validateStep entries cs fs rs vs constraint).
Proof.
  intros H. unfold validateStep.
  destruct (negb (isActive constraint)); [done|].
  destruct (violated _); [|done].
  destruct (kind constraint); simpl; [|done].
  apply elem_of_app. by left.
Qed.

Lemma validate_keeps entries cs fs rs constraints vs v :
  v ∈ v_hard vs ->
  v ∈ v_hard (fold_left (validateStep entries cs fs rs) constraints vs).
Proof.
  revert vs. induction constraints as [|c constraints IH]; intros vs H; simpl;
    [done|]. by apply IH, validateStep_keeps.
Qed.

Lemma fold_left_step {A B} (f : A -> B -> A) (b : B) (l : list B) (i : A) :
  fold_left f (b :: l) i = fold_left f l (f i b).
Proof. reflexivity. Qed.

(** What the checks of the two catalog entries come to. *)
Lemma room_booking_check d p w entries rs :
  checkRoomAllocationConstraint
    (mkConstraint "No Room Double Booking" hard room_allocation d p w)
    entries rs
  = resultOf (duplicateScan roomBookingKey
      (fun entry first =>
         RoomDoubleBooked (e_roomNumber entry) (e_day entry)
                          (e_slotNumber entry) first (e_courseCode entry))
      entries []).
Proof. reflexivity. Qed.

Lemma section_conflict_check d p w entries :
  checkStudentSectionConstraint
    (mkConstraint "No Student Section Conflict" hard student_section d p w)
    entries
  = resultOf (duplicateScan sectionBookingKey
      (fun entry first =>
         SectionOverlap (e_section entry) (e_day entry)
                        (e_slotNumber entry) first (e_courseCode entry))
      entries []).
Proof. reflexivity. Qed.

(** An active hard constraint whose check is violated is reported. *)
Lemma validateStep_reports entries cs fs rs vs n c d p w :
  violated (checkConstraint (mkConstraint n hard c d p w) entries cs fs rs)
  = true ->
  reportsHard n c
    {| v_hard := v_hard (validateStep entries cs fs rs vs
                           (mkConstraint n hard c d p w));
       v_soft := [] |}.
Proof.
  intros Hv. unfold validateStep. cbn [isActive mkConstraint negb kind].
  rewrite Hv. eexists. split; [apply elem_of_app; right; by left|]. done.
Qed.

(** A room conflict or a section conflict of the fast pass is a hard
    violation of the validator run with the default catalog. *)
Lemma room_and_section_conflicts_validated entries cs fs rs :
  (emits "room_double_booking" entries ->
   reportsHard "No Room Double Booking" room_allocation
     (validateSchedule entries cs fs rs getDefaultConstraints))
  /\ (emits "student_section_conflict" entries ->
      reportsHard "No Student Section Conflict" student_section
        (validateSchedule entries cs fs rs getDefaultConstraints)).
Proof.
  destruct (detect_invariant entries) as (_ & _ & Hrc & Hsc).
  unfold validateSchedule, getDefaultConstraints.
  split; intros Hem.
  - apply Hrc in Hem.
    do 2 rewrite fold_left_step.
    edestruct validateStep_reports as (v & Hv & E); [|exists v; split; [|exact E]].
    + cbn [checkConstraint category mkConstraint].
      rewrite room_booking_check. cbn [resultOf violated].
      apply Nat.ltb_lt. by apply duplicateScan_reports.
    + apply validate_keeps. exact Hv.
  - apply Hsc in Hem.
    do 3 rewrite fold_left_step.
    edestruct validateStep_reports as (v & Hv & E); [|exists v; split; [|exact E]].
    + cbn [checkConstraint category mkConstraint].
      rewrite section_conflict_check. cbn [resultOf violated].
      apply Nat.ltb_lt. by apply duplicateScan_reports.
    + apply validate_keeps. exact Hv.
Qed.

(** C3.  A teacher booked twice in one slot: the fast pass reports the
    faculty double booking, the validator run with the default catalog
    reports no hard violation at all.  (Room and section conflicts of
    the fast pass do reach the validator, see above.) *)
Theorem fast_pass_conflict_missed_by_validator :
  map cf_type (detectConflicts facultyDoubleBooked) = ["faculty_double_booking"]
  /\ v_hard (validateSchedule facultyDoubleBooked twoCourses twoFaculty
                              twoRooms getDefaultConstraints) = []
  /\ v_hard (validateSchedule facultyDoubleBooked twoCourses twoFaculty
                              twoRooms defaultHardConstraints) = [].
Proof. vm_compute. repeat split. Qed.

(** ** Reasoning about computations in the world *)

Lemma bind_Ok {A B} (m : M A) (f : A -> M B) (w w' : World) (b : B) :
  bind m f w = Ok (b, w') ->
  exists a w1, m w = Ok (a, w1) /\ f a w1 = Ok (b, w').
Proof.
  unfold bind. destruct (m w) as [[a w1]| | |]; [|done..].
  intros H. by exists a, w1.
Qed.

Lemma ret_Ok {A} (a b : A) (w w' : World) :
  ret a w = Ok (b, w') -> a = b /\ w = w'.
Proof. unfold ret. by intros [= -> ->]. Qed.

Lemma bind_Throw {A B} (m : M A) (f : A -> M B) (w w' : World) (e : JsError) :
  bind m f w = Throw e w' ->
  m w = Throw e w' \/ exists a w1, m w = Ok (a, w1) /\ f a w1 = Throw e w'.
Proof.
  unfold bind.
  destruct (m w) as [[a w1]| | |]; [|by intros [= -> ->]; left|done..].
  intros H. right. by exists a, w1.
Qed.

Ltac inv_M :=
  repeat match goal with
    | H : bind _ _ _ = Ok _ |- _ =>
        let a := fresh "a" in let w := fresh "w" in
        let H1 := fresh "H" in let H2 := fresh "H" in
        apply bind_Ok in H as (a & w & H1 & H2)
    | H : ret _ _ = Ok _ |- _ =>
        apply ret_Ok in H as [? ?]; subst
    | H : throw _ _ = Ok _ |- _ => discriminate H
    | H : diverge _ = Ok _ |- _ => discriminate H
    end.

(** A random index is an index. *)
Lemma floorTimes_lt (u : U01) (n : nat) : (0 < n)%nat -> (floorTimes u n < n)%nat.
Proof.
  intros Hn. unfold floorTimes, u_den.
  apply Nat.Div0.div_lt_upper_bound. nia.
Qed.

Lemma lookup_floorTimes {A} (l : list A) (u : U01) :
  l <> [] -> is_Some (l !! floorTimes u (length l)).
Proof.
  intros Hl. apply lookup_lt_is_Some_2, floorTimes_lt.
  destruct l; [done | simpl; lia].
Qed.


(** ** The best chromosome so far *)

Lemma notAbove_refl (a : option Z) : notAbove a a.
Proof. destruct a; simpl; lia. Qed.

Lemma notAbove_trans (a b c : option Z) :
  notAbove a b -> notAbove b c -> notAbove a c.
Proof. destruct a, b, c; simpl; (lia || tauto). Qed.

(** The record is replaced only by a copy of a strictly fitter
    chromosome. *)
Lemma trackBest_replaces_by_fitter ga currentBest w ga' w' :
  trackBest ga currentBest w = Ok (ga', w') ->
  (bestChromosome ga' = bestChromosome ga
   \/ (bestFitnessOf ga' = Some (fitness currentBest)
       /\ forall old, bestFitnessOf ga = Some old -> old < fitness currentBest))
  /\ population ga' = population ga.
Proof.
  unfold trackBest. destruct (better currentBest (bestChromosome ga)) eqn:Hb;
    intros H; inv_M; [|by split; [left|]].
  split; [|done]. right.
  unfold deepCopy in *. inv_M. simpl.
  split; [done|]. intros old Hold. unfold bestFitnessOf, better in *.
  destruct (bestChromosome ga) as [b|]; simpl in *; [|done].
  injection Hold as <-. lia.
Qed.

Lemma trackBest_monotone ga currentBest w ga' w' :
  trackBest ga currentBest w = Ok (ga', w') ->
  notAbove (bestFitnessOf ga) (bestFitnessOf ga').
Proof.
  intros H. apply trackBest_replaces_by_fitter in H as [[E|[E Hlt]] _].
  - unfold bestFitnessOf. rewrite E. apply notAbove_refl.
  - rewrite E. destruct (bestFitnessOf ga) as [old|] eqn:Ho; simpl; [|done].
    specialize (Hlt old eq_refl). lia.
Qed.

Lemma evaluatePopulation_best ga w ga' w' :
  evaluatePopulation ga w = Ok (ga', w') ->
  bestChromosome ga' = bestChromosome ga.
Proof. unfold evaluatePopulation. intros H. by inv_M. Qed.

Lemma evolve_best ga w ga' w' :
  evolve ga w = Ok (ga', w') -> bestChromosome ga' = bestChromosome ga.
Proof. unfold evolve. intros H. by inv_M. Qed.

(** One generation never lowers the recorded best fitness. *)
Lemma generationBody_monotone cb gen ga w r w' :
  generationBody cb gen ga w = Ok (r, w') ->
  notAbove (bestFitnessOf ga) (bestFitnessOf (snd r)).
Proof.
  unfold generationBody. intros H.
  apply bind_Ok in H as (ga1 & w1 & He & H).
  apply bind_Ok in H as (cur & w2 & Hc & H).
  apply bind_Ok in H as (ga2 & w3 & Ht & H).
  apply bind_Ok in H as (best & w4 & Hb & H).
  apply bind_Ok in H as (u & w5 & Hn & H).
  apply evaluatePopulation_best in He.
  apply trackBest_monotone in Ht.
  unfold bestFitnessOf in *. rewrite He in Ht.
  destruct (_ && _) in H.
  - apply ret_Ok in H as [<- _]. done.
  - apply bind_Ok in H as (ga3 & w6 & Hev & H).
    apply ret_Ok in H as [<- _]. apply evolve_best in Hev.
    simpl in *. by rewrite Hev.
Qed.

Lemma generationLoop_monotone cb rounds gen ga w r w' :
  generationLoop cb rounds gen ga w = Ok (r, w') ->
  notAbove (bestFitnessOf ga) (bestFitnessOf (snd r)).
Proof.
  revert gen ga w. induction rounds as [|rounds IH]; intros gen ga w H; simpl in H.
  - inv_M. apply notAbove_refl.
  - apply bind_Ok in H as (r1 & w1 & Hbody & H).
    pose proof (generationBody_monotone _ _ _ _ _ _ Hbody) as Hb.
    destruct (fst r1).
    + by apply ret_Ok in H as [<- _].
    + eapply notAbove_trans; [exact Hb | by eapply IH].
Qed.

(** More rounds continue where fewer rounds stopped. *)
Lemma generationLoop_add cb n k gen ga w :
  generationLoop cb (n + k) gen ga w
  = bind (generationLoop cb n gen ga)
         (fun r => if fst r then ret r
                   else generationLoop cb k (gen + n)%nat (snd r)) w.
Proof.
  revert gen ga w. induction n as [|n IH]; intros gen ga w; simpl.
  - unfold bind, ret. simpl. by rewrite Nat.add_0_r.
  - unfold bind at 1. unfold bind at 2. unfold bind at 1.
    destruct (generationBody cb gen ga w) as [[r w1]| | |]; [|done..].
    destruct (fst r) eqn:Hr.
    + unfold ret. by rewrite Hr.
    + rewrite IH. by replace (S gen + n)%nat with (gen + S n)%nat by lia.
Qed.

(** C4.  Across the generations of the driver the fitness of the
    recorded best chromosome never decreases: the state after [g1]
    rounds of the loop and the state after [g2 >= g1] rounds satisfy
    [best_fitness(g1) <= best_fitness(g2)]. *)
Theorem best_so_far_monotone cb (g1 g2 gen : nat) ga w r1 w1 r2 w2 :
  (g1 <= g2)%nat ->
  generationLoop cb g1 gen ga w = Ok (r1, w1) ->
  generationLoop cb g2 gen ga w = Ok (r2, w2) ->
  notAbove (bestFitnessOf (snd r1)) (bestFitnessOf (snd r2)).
Proof.
  intros Hle H1 H2.
  replace g2 with (g1 + (g2 - g1))%nat in H2 by lia.
  rewrite generationLoop_add in H2.
  apply bind_Ok in H2 as (r & w' & Hr & Hk).
  rewrite H1 in Hr. injection Hr as <- <-.
  destruct (fst r1).
  - inv_M. apply notAbove_refl.
  - by eapply generationLoop_monotone.
Qed.


(** A run in which the second generation improves on the first. *)
Lemma best_so_far_monotone_witness :
  exists r1 w1 r2 w2,
    sampleStart = Ok (sampleStartGA, sampleStartWorld)
    /\ generationLoop false 1 0 sampleStartGA sampleStartWorld = Ok (r1, w1)
    /\ generationLoop false 2 0 sampleStartGA sampleStartWorld = Ok (r2, w2)
    /\ bestFitnessOf (snd r1) = Some 0
    /\ bestFitnessOf (snd r2) = Some 1000
    /\ notAbove (bestFitnessOf (snd r1)) (bestFitnessOf (snd r2)).
Proof.
  do 4 eexists.
  split; [vm_compute; reflexivity|].
  split; [vm_compute; reflexivity|].
  split; [vm_compute; reflexivity|].
  split; [vm_compute; reflexivity|].
  split; [vm_compute; reflexivity|].
  eapply (best_so_far_monotone false 1 2 0 sampleStartGA sampleStartWorld);
    [lia | vm_compute; reflexivity..].
Defined.

(** ** Determinism *)

(** C9 as stated fails: two runs with the same seeded configuration on
    the same snapshot end with different results when the ambient
    random values differ. *)
Lemma seeded_runs_differ :
  ~ (forall config data cb rnd1 rnd2,
        is_Some (cfg_seed config) ->
        runResult config data cb rnd1 = runResult config data cb rnd2).
Proof.
  intros H.
  specialize (H sampleConfig sampleData false sampleRandom zeroRandom
                (ltac:(by eexists))).
  apply (f_equal (fun o => match o with
                           | Ok r => Some (fitness (schedule r))
                           | _ => None
                           end)) in H.
  vm_compute in H. discriminate H.
Qed.

(** C9, amended.  The seed of the configuration plays no part: a run
    with any seed is the run without it, for every snapshot and every
    sequence of random values. *)
Theorem seed_is_ignored (config : Config) (seed : option Z) (data : Data)
    (cb : bool) (rnd : nat -> U01) :
  GeneticAlgorithm_new (withSeed seed config) = GeneticAlgorithm_new config
  /\ run (withSeed seed config) data cb rnd = run config data cb rnd
  /\ runResult (withSeed seed config) data cb rnd = runResult config data cb rnd.
Proof. repeat split. Qed.

(** ** Mutation *)

Lemma Math_random_Ok w u w' :
  Math_random w = Ok (u, w') ->
  store w' = store w /\ random w' = random w /\ notified w' = notified w.
Proof. unfold Math_random. by intros [= <- <-]. Qed.

Lemma deref_Ok r w g w' :
  deref r w = Ok (g, w') -> w' = w /\ store w !! r = Some g.
Proof. unfold deref. destruct (store w !! r); [by intros [= <- <-] | done]. Qed.

Lemma assign_Ok r g w u w' :
  assign r g w = Ok (u, w') ->
  store w' = <[r := g]> (store w)
  /\ random w' = random w /\ notified w' = notified w.
Proof. unfold assign. by intros [= <- <-]. Qed.





(** A mutation that throws has written no gene: the exception comes
    before the assignment, and it is a [TypeError]. *)
Lemma mutate_throws_before_writing ga c w e w' :
  mutate ga c w = Throw e w' ->
  e = TypeError /\ store w' = store w
  /\ random w' = random w /\ notified w' = notified w.
Proof.
  unfold mutate. destruct (length (genes c) =? 0)%nat; [done|].
  unfold bind at 1. unfold Math_random at 1.
  destruct (genes c !! _) as [r|]; [|by intros [= <- <-]].
  unfold bind at 1. unfold Math_random at 1. cbn [random drawn store notified].
  destruct (Qltb _ (33 # 100)); [|destruct (Qltb _ (66 # 100))].
  - unfold bind at 1. unfold Math_random at 1. cbn [random drawn store notified].
    destruct (timeSlots ga !! _) as [ts|]; [|by intros [= <- <-]].
    unfold bind, deref, assign. cbn [random drawn store notified].
    destruct (store w !! r); [done | by intros [= <- <-]].
  - unfold bind at 1. unfold deref at 1. cbn [random drawn store notified].
    destruct (store w !! r) as [g|]; [|by intros [= <- <-]].
    destruct (findCourse ga g) as [course|]; [|done].
    destruct (eligibleFaculty ga course) as [eligible|];
      [|by intros [= <- <-]].
    destruct (0 <? length eligible)%nat; [|done].
    unfold bind, Math_random. cbn [random drawn store notified].
    destruct (eligible !! _); [done | by intros [= <- <-]].
  - unfold bind at 1. unfold deref at 1. cbn [random drawn store notified].
    destruct (store w !! r) as [g|]; [|by intros [= <- <-]].
    destruct (findCourse ga g) as [course|]; [|done].
    destruct (findSection course g) as [sec|]; [|done].
    destruct (0 <? length (eligibleRooms ga course (sessionType g) sec))%nat;
      [|done].
    unfold bind, Math_random. cbn [random drawn store notified].
    destruct (eligibleRooms ga course (sessionType g) sec !! _);
      [done | by intros [= <- <-]].
Qed.

(** A mutation always ends, and stays within the model. *)
Lemma mutate_ends ga c w :
  mutate ga c w <> Diverge /\ mutate ga c w <> Unmodelled.
Proof.
  assert (forall o : Outcome (unit * World),
            o = Diverge \/ o = Unmodelled -> mutate ga c w <> o) as H;
    [|split; apply H; auto].
  intros o Ho.
  assert (forall x, Ok x <> o) as HOk
    by (intros x; by destruct Ho as [-> | ->]).
  assert (forall e w', Throw e w' <> o) as HThrow
    by (intros e w'; by destruct Ho as [-> | ->]).
  unfold mutate. destruct (length (genes c) =? 0)%nat; [apply HOk|].
  unfold bind at 1. unfold Math_random at 1.
  destruct (genes c !! _) as [r|]; [|apply HThrow].
  unfold bind at 1. unfold Math_random at 1. cbn [random drawn store notified].
  destruct (Qltb _ (33 # 100)); [|destruct (Qltb _ (66 # 100))].
  - unfold bind at 1. unfold Math_random at 1. cbn [random drawn store notified].
    destruct (timeSlots ga !! _) as [ts|]; [|apply HThrow].
    unfold bind, deref, assign. cbn [random drawn store notified].
    destruct (store w !! r); [apply HOk | apply HThrow].
  - unfold bind at 1. unfold deref at 1. cbn [random drawn store notified].
    destruct (store w !! r) as [g|]; [|apply HThrow].
    destruct (findCourse ga g) as [course|]; [|apply HOk].
    destruct (eligibleFaculty ga course) as [eligible|]; [|apply HThrow].
    destruct (0 <? length eligible)%nat; [|apply HOk].
    unfold bind, Math_random. cbn [random drawn store notified].
    destruct (eligible !! _); [apply HOk | apply HThrow].
  - unfold bind at 1. unfold deref at 1. cbn [random drawn store notified].
    destruct (store w !! r) as [g|]; [|apply HThrow].
    destruct (findCourse ga g) as [course|]; [|apply HOk].
    destruct (findSection course g) as [sec|]; [|apply HOk].
    destruct (0 <? length (eligibleRooms ga course (sessionType g) sec))%nat;
      [|apply HOk].
    unfold bind, Math_random. cbn [random drawn store notified].
    destruct (eligibleRooms ga course (sessionType g) sec !! _);
      [apply HOk | apply HThrow].
Qed.

(** With a slot in the grid, a faculty filter that does not throw and
    gene references that point into the store, a mutation returns. *)
Lemma mutate_returns ga c w :
  timeSlots ga <> [] ->
  (forall course, course ∈ courses ga -> is_Some (eligibleFaculty ga course)) ->
  (forall r, r ∈ genes c -> is_Some (store w !! r)) ->
  exists w', mutate ga c w = Ok (tt, w').
Proof.
  intros Hts Hfilter Hrefs. unfold mutate.
  destruct (length (genes c) =? 0)%nat eqn:Hlen; [by eexists|].
  assert (genes c <> []) as Hne by (intros E; by rewrite E in Hlen).
  unfold bind at 1. unfold Math_random at 1.
  destruct (lookup_floorTimes (genes c) (random w (drawn w)) Hne) as [r Hr].
  rewrite Hr. apply list_elem_of_lookup_2, Hrefs in Hr as [g Hg].
  unfold bind at 1. unfold Math_random at 1. cbn [random drawn store notified].
  destruct (Qltb _ (33 # 100)); [|destruct (Qltb _ (66 # 100))].
  - unfold bind at 1. unfold Math_random at 1. cbn [random drawn store notified].
    destruct (lookup_floorTimes (timeSlots ga) (random w (S (S (drawn w)))) Hts)
      as [ts ->].
    unfold bind, deref, assign. cbn [random drawn store notified].
    rewrite Hg. by eexists.
  - unfold bind at 1. unfold deref at 1. cbn [random drawn store notified].
    rewrite Hg. destruct (findCourse ga g) as [course|] eqn:Hc; [|by eexists].
    destruct (Hfilter course) as [eligible ->].
    { unfold findCourse in Hc. apply find_some in Hc as [Hc _].
      by apply list_elem_of_In. }
    destruct eligible as [|f fs]; [by eexists|].
    cbn [length Nat.ltb Nat.leb]. unfold bind, Math_random.
    cbn [random drawn store notified].
    destruct (lookup_floorTimes (f :: fs) (random w (S (S (drawn w)))))
      as [f' Hf']; [done|].
    cbn [length] in Hf'. rewrite Hf'. unfold assign. by eexists.
  - unfold bind at 1. unfold deref at 1. cbn [random drawn store notified].
    rewrite Hg. destruct (findCourse ga g) as [course|]; [|by eexists].
    destruct (findSection course g) as [sec|]; [|by eexists].
    destruct (eligibleRooms ga course (sessionType g) sec) as [|rm rms] eqn:Er;
      [by eexists|].
    cbn [length Nat.ltb Nat.leb]. unfold bind, Math_random.
    cbn [random drawn store notified].
    destruct (lookup_floorTimes (rm :: rms) (random w (S (S (drawn w)))))
      as [rm' Hrm']; [done|].
    cbn [length] in Hrm'. rewrite Hrm'. unfold assign. by eexists.
Qed.



(** ** Random construction *)


(** *** The quotient of whole numbers as a double *)







(** Hours of 2.1 in sessions of 0.7, as doubles, take four rounds: the
    quotient is rounded to the double above 3. *)
Example fractional_hours_take_one_more_session :
  Qred <$> nearestDouble 21 10
  = Some (4728779608739021 # 2251799813685248)%Q
  /\ Qred <$> nearestDouble 7 10
     = Some (3152519739159347 # 4503599627370496)%Q
  /\ numSessionsOfDoubles (4728779608739021 # 2251799813685248)%Q
                          (3152519739159347 # 4503599627370496)%Q
     = Some 4%nat
  /\ Qceiling ((21 # 10) / (7 # 10)) = 3.
Proof. vm_compute. repeat split; reflexivity. Qed.






(** What a filter that has not thrown has kept. *)
Lemma filterThrowing_elem {A} (test : A -> option bool) docs l d :
  filterThrowing test docs = Some l ->
  d ∈ l <-> d ∈ docs /\ test d = Some true.
Proof.
  revert l. induction docs as [|x docs IH]; intros l; simpl.
  - intros [= <-]. split; [by intros ?%elem_of_nil|].
    by intros [?%elem_of_nil _].
  - destruct (test x) as [b|] eqn:Hx; [|done].
    destruct (filterThrowing test docs) as [l'|]; [|done].
    intros [= <-]. specialize (IH l' eq_refl). rewrite elem_of_cons.
    destruct b.
    + rewrite elem_of_cons, IH. split.
      * intros [->|[H1 H2]]; [by split; [left|] | by split; [right|]].
      * intros [[->|H1] H2]; [by left | by right].
    + rewrite IH. split.
      * intros [H1 H2]. by split; [right|].
      * intros [[->|H1] H2]; [congruence | done].
Qed.





(** Without a teacher or without a room no gene is made, and no gene
    object either. *)
Lemma createRandomGene_None ga course sec session w :
  eligibleFaculty ga course = None
  \/ eligibleFaculty ga course = Some []
  \/ eligibleRooms ga course (s_type session) sec = [] ->
  exists w', createRandomGene ga course sec session w = Ok (None, w')
             /\ store w' = store w.
Proof.
  intros H. unfold createRandomGene, bind, Math_random. simpl.
  destruct (eligibleFaculty ga course) as [[|f fs]|] eqn:Ef; simpl.
  - unfold ret. eauto.
  - destruct H as [|[|H]]; [done..|]. rewrite H. simpl. unfold ret. eauto.
  - unfold ret. eauto.
Qed.





(** The sample courses, teacher and rooms serve every requirement. *)
Lemma sample_feasible ga :
  courses ga = d_courses sampleData ->
  faculty ga = d_faculty sampleData ->
  rooms ga = d_rooms sampleData ->
  feasible ga.
Proof.
  intros Ec Ef Er course sessions sec session Hc Hs Hsec Hse.
  unfold eligibleRooms. rewrite Ef, Er. rewrite Ec in Hc.
  assert (course = sampleCourse "CS101" 1 0 \/ course = sampleCourse "CS102" 1 0)
    as Hcase.
  { cbn [d_courses sampleData] in Hc.
    apply elem_of_cons in Hc as [->|Hc]; [by left|].
    apply list_elem_of_singleton in Hc as ->. by right. }
  destruct Hcase as [-> | ->]; vm_compute in Hs; injection Hs as <-;
    apply list_elem_of_singleton in Hse as ->;
    vm_compute in Hsec; apply list_elem_of_singleton in Hsec as ->;
    (split; [|by vm_compute]);
    exists (sampleFaculty "F1" ["CS101"; "CS102"] (Some 1));
    (split; [apply list_elem_of_here|]); (split; [done|]); simpl;
    repeat first [apply list_elem_of_here | apply list_elem_of_further].
Qed.




(** C5 as stated fails: with teachers and rooms for every requirement
    but no time slot in the grid, no gene is made. *)
Lemma no_time_slot_no_gene :
  ~ (forall ga w c w',
        feasible ga ->
        createRandomChromosome ga w = Ok (c, w') ->
        length (genes c) = geneCount_spec (courses ga)).
Proof.
  intros H.
  specialize (H noSlotsGA (newWorld zeroRandom)
                {| genes := []; fitness := 0; hardViolations := 0;
                   softViolations := 0; details := None |}
                {| store := []; random := zeroRandom; drawn := 6;
                   notified := [] |}).
  assert (feasible noSlotsGA) as Hf by (by apply sample_feasible).
  specialize (H Hf eq_refl). vm_compute in H. discriminate H.
Qed.




(** ** Infeasible requirements *)

(** C7 as stated fails: the course of the snapshot has no active
    teacher, its one session gets no gene, and the evaluation of the
    empty chromosome counts no hard violation. *)
Lemma missing_genes_not_counted :
  ~ (forall ga w c w' c' w'',
        createRandomChromosome ga w = Ok (c, w') ->
        evaluateChromosome ga c w' = Ok (c', w'') ->
        Z.of_nat (geneCount_spec (courses ga) - length (genes c))
        <= hardViolations c').
Proof.
  intros H.
  assert (exists c w',
            createRandomChromosome untaughtGA (newWorld zeroRandom) = Ok (c, w')
            /\ genes c = []
            /\ exists c' w'',
                evaluateChromosome untaughtGA c w' = Ok (c', w'')
                /\ hardViolations c' = 0)
    as (c & w' & E1 & Hg & c' & w'' & E2 & Hh).
  { do 2 eexists. split; [vm_compute; reflexivity|]. split; [reflexivity|].
    do 2 eexists. split; vm_compute; reflexivity. }
  specialize (H _ _ _ _ _ _ E1 E2). rewrite Hg, Hh in H.
  vm_compute in H. by apply H.
Qed.

(** C7, amended.  A session requirement without an active qualified
    teacher (the faculty filter returns nobody, or throws) or without a
    suitable room gets no gene: [createRandomGene] returns [null], makes
    no gene object, and the gene list under construction stays as it
    is.  The evaluation knows nothing of
    missing genes: its hard count is the sum of the six hard checks over
    the genes there are, 0 for a chromosome without genes. *)
Theorem infeasible_requirement_emits_no_gene ga course sec session w :
  eligibleFaculty ga course = None
  \/ eligibleFaculty ga course = Some []
  \/ eligibleRooms ga course (s_type session) sec = [] ->
  (exists w', createRandomGene ga course sec session w = Ok (None, w')
              /\ store w' = store w)
  /\ (forall acc, exists w',
        forSessions ga course sec [session] acc w = Ok (acc, w')
        /\ store w' = store w)
  /\ (forall wts genes cs fs rs ks,
        ev_hardViolations (calculate wts genes cs fs rs ks)
        = fst (checkFacultyConflicts genes) + fst (checkRoomConflicts genes)
          + fst (checkSectionConflicts genes)
          + checkFacultyAvailability genes fs + checkLabContinuity genes
          + checkRoomCapacity genes cs rs)
  /\ (forall wts cs fs rs ks,
        ev_hardViolations (calculate wts [] cs fs rs ks) = 0).
Proof.
  intros H.
  destruct (createRandomGene_None ga course sec session w H) as (w' & E & Hs).
  split; [by exists w'|]. split.
  - intros acc. exists w'. simpl. unfold bind. rewrite E. by unfold ret.
  - split; [intros; simpl; lia | done].
Qed.

(** The course whose only teacher is not active gets no gene. *)
Lemma infeasible_requirement_emits_no_gene_witness :
  exists w',
    createRandomGene untaughtGA (sampleCourse "CS101" 1 0)
      {| sectionName := "A"; strength := 30 |}
      {| s_type := theory; s_duration := 1; s_consecutiveSlots := 1 |}
      (newWorld zeroRandom) = Ok (None, w')
    /\ store w' = store (newWorld zeroRandom).
Proof.
  apply (infeasible_requirement_emits_no_gene untaughtGA
           (sampleCourse "CS101" 1 0) {| sectionName := "A"; strength := 30 |}
           {| s_type := theory; s_duration := 1; s_consecutiveSlots := 1 |}
           (newWorld zeroRandom)).
  right. left. vm_compute. reflexivity.
Defined.

(** ** Unknown references *)

Lemma of_entries_keys {V} (entries : list (string * V)) (m : JsMap.t V) k :
  k ∈ JsMap.keys (fold_left (fun m kv => JsMap.set (fst kv) (snd kv) m) entries m)
  <-> k ∈ JsMap.keys m \/ k ∈ map fst entries.
Proof.
  revert m. induction entries as [|[k' v] entries IH]; intros m; simpl.
  - split; [by left | intros [?|?%elem_of_nil]; done].
  - rewrite IH, JsMap_keys_set_elem, elem_of_cons. tauto.
Qed.

Lemma idMap_unknown {A} (id : A -> string) (docs : list A) (x : string) :
  known id docs x = false -> JsMap.get x (idMap id docs) = None.
Proof.
  intros Hk. apply JsMap_get_None_keys. unfold idMap, JsMap.of_entries.
  rewrite of_entries_keys. intros [H%elem_of_nil|H]; [done|].
  rewrite map_map in H. simpl in H.
  change (map (fun d => id d) docs) with ((fun d => id d) <$> docs) in H.
  apply list_elem_of_fmap in H as (d & -> & Hd).
  apply list_elem_of_In in Hd.
  assert (known id docs (id d) = true); [|congruence].
  unfold known. apply existsb_exists. exists d. by rewrite String.eqb_refl.
Qed.

Lemma fold_left_filter {A} (f : Z -> A -> Z) (p : A -> bool) (l : list A) (c : Z) :
  (forall c x, p x = false -> f c x = c) ->
  fold_left f (List.filter p l) c = fold_left f l c.
Proof.
  intros Hskip. revert c. induction l as [|x l IH]; intros c; simpl; [done|].
  destruct (p x) eqn:Hp; simpl; [done|]. by rewrite (Hskip c x Hp).
Qed.

(** C8 as stated fails: a gene whose teacher, room and course are all
    absent from the snapshot (three missing references) adds nothing to
    the hard count, which stays 0. *)
Lemma unknown_references_not_counted :
  ~ (forall wts genes cs fs rs ks,
        missingReferences genes cs fs rs
        <= ev_hardViolations (calculate wts genes cs fs rs ks)).
Proof.
  intros H.
  specialize (H (FitnessCalculator None) [unknownRefsGene]
                twoCourses twoFaculty twoRooms []).
  vm_compute in H. by apply H.
Qed.

(** C8, amended.  The evaluation is total, and it passes over unknown
    references without a count: the availability check is that of the
    genes whose teacher is in the snapshot, the capacity check that of
    the genes whose room and course are both in the snapshot. *)
Theorem unknown_references_are_skipped genes cs fs rs :
  checkFacultyAvailability genes fs
  = checkFacultyAvailability
      (List.filter (fun g => known f_id fs (facultyId g)) genes) fs
  /\ checkRoomCapacity genes cs rs
     = checkRoomCapacity
         (List.filter (fun g => known r_id rs (roomId g)
                                && known c_id cs (courseId g)) genes) cs rs.
Proof.
  split; unfold checkFacultyAvailability, checkRoomCapacity;
    symmetry; apply fold_left_filter; intros c g Hk.
  - unfold availabilityStep. by rewrite (idMap_unknown _ _ _ Hk).
  - unfold capacityStep. apply andb_false_iff in Hk as [Hk|Hk];
      rewrite (idMap_unknown _ _ _ Hk); [done|].
    by destruct (JsMap.get (roomId g) (idMap r_id rs)).
Qed.

(** * Further properties *)

(** ** Sorting and grouping *)

(** The rounds of a counting loop: round [i] runs exactly when [i] is
    below the bound. *)
Lemma loopCount_lt (bound : Q) (i : nat) :
  (i < loopCount bound)%nat <-> (inject_Z (Z.of_nat i) < bound)%Q.
Proof.
  unfold loopCount.
  assert ((i < Z.to_nat (Qceiling bound))%nat <-> Z.of_nat i < Qceiling bound)
    as -> by lia.
  split.
  - intros H. eapply Qle_lt_trans; [|apply (Qceiling_lt bound)].
    rewrite <- Zle_Qle. lia.
  - intros H. rewrite Zlt_Qlt. eapply Qlt_le_trans; [exact H|].
    apply Qle_ceiling.
Qed.

Lemma loopCount_whole (n : nat) : loopCount (inject_Z (Z.of_nat n)) = n.
Proof. unfold loopCount. rewrite Qceiling_Z. lia. Qed.

(** A list reaches the length of the loop count exactly when its length
    is no longer below the bound. *)
Lemma loopCount_le (bound : Q) (n : nat) :
  (loopCount bound <= n)%nat <-> ~ (inject_Z (Z.of_nat n) < bound)%Q.
Proof. rewrite <- loopCount_lt. lia. Qed.


Lemma insert_asc_perm (x : Z) (l : list Z) : insert_asc x l ≡ₚ x :: l.
Proof.
  induction l as [|y l IH]; simpl; [done|].
  destruct (x <? y); [done|]. rewrite IH. apply perm_swap.
Qed.

Lemma sort_asc_fold_perm (l acc : list Z) :
  fold_left (fun acc x => insert_asc x acc) l acc ≡ₚ l ++ acc.
Proof.
  revert acc. induction l as [|x l IH]; intros acc; simpl; [done|].
  rewrite IH, insert_asc_perm. by rewrite Permutation_middle.
Qed.

Lemma sort_asc_perm (l : list Z) : sort_asc l ≡ₚ l.
Proof. unfold sort_asc. by rewrite sort_asc_fold_perm, app_nil_r. Qed.

Lemma ascending_head (a : Z) (l : list Z) :
  ascending (a :: l) -> forall x, x ∈ l -> a <= x.
Proof.
  revert a. induction l as [|b l IH]; intros a H x Hx.
  - by apply elem_of_nil in Hx.
  - destruct H as [Hab H]. apply elem_of_cons in Hx as [->|Hx]; [done|].
    specialize (IH b H x Hx). lia.
Qed.

Lemma ascending_tail (a : Z) (l : list Z) : ascending (a :: l) -> ascending l.
Proof. destruct l; [done|]. by intros [_ H]. Qed.

Lemma insert_asc_ascending (x : Z) (l : list Z) :
  ascending l -> ascending (insert_asc x l).
Proof.
  induction l as [|y l IH]; intros H; [done|].
  simpl. destruct (x <? y) eqn:Hxy.
  - split; [lia | done].
  - pose proof (IH (ascending_tail _ _ H)) as IH'.
    destruct l as [|z l]; simpl in *; [split; [lia|done]|].
    destruct H as [Hyz H]. destruct (x <? z) eqn:Hxz; (split; [lia | done]).
Qed.

Lemma sort_asc_ascending (l : list Z) : ascending (sort_asc l).
Proof.
  unfold sort_asc. assert (ascending []) as H by done. revert H.
  generalize (@nil Z) as acc. induction l as [|x l IH]; intros acc H; [done|].
  simpl. by apply IH, insert_asc_ascending.
Qed.


Lemma gapsOf_span (l : list Z) (lo hi : Z) :
  ascending l -> lo ∈ l -> hi ∈ l ->
  (forall x, x ∈ l -> lo <= x <= hi) ->
  gapsOf l = hi - lo + 1 - Z.of_nat (length l).
Proof.
  intros H Hlo Hhi Hall. destruct l as [|a l]; [by apply elem_of_nil in Hlo|].
  assert (a = lo) as ->.
  { apply elem_of_cons in Hlo as [->|Hlo]; [done|].
    pose proof (ascending_head _ _ H lo Hlo).
    pose proof (Hall a (list_elem_of_here _ _)). lia. }
  clear Hlo. revert lo H Hhi Hall.
  induction l as [|b l IH]; intros lo H Hhi Hall.
  - apply list_elem_of_singleton in Hhi as ->. simpl. lia.
  - destruct H as [Hab H].
    change (gapsOf (lo :: b :: l)) with ((b - lo - 1) + gapsOf (b :: l)).
    rewrite (IH b H).
    + simpl length. lia.
    + apply elem_of_cons in Hhi as [->|Hhi]; [|done].
      pose proof (Hall b (list_elem_of_further _ _ _ (list_elem_of_here _ _))).
      assert (b = lo) as -> by lia. apply list_elem_of_here.
    + intros x Hx. split.
      * apply elem_of_cons in Hx as [->|Hx]; [lia|].
        apply (ascending_head _ _ H x Hx).
      * apply Hall. by apply list_elem_of_further.
Qed.

Lemma schedulesBy_snoc key genes g :
  schedulesBy key (genes ++ [g])
  = pushTo (key g) (slotNumber (timeSlot g)) (schedulesBy key genes).
Proof. unfold schedulesBy. by rewrite fold_left_app. Qed.

Lemma slotsUnder_snoc key k genes g :
  slotsUnder key k (genes ++ [g])
  = slotsUnder key k genes
    ++ (if decide (key g = k) then [slotNumber (timeSlot g)] else []).
Proof.
  unfold slotsUnder. rewrite filter_app, map_app. f_equal.
  rewrite filter_cons, filter_nil. by destruct (decide (key g = k)).
Qed.

(** Every day list of [schedulesBy] holds the slots filed under its key,
    and no key has an empty list. *)
Lemma schedulesBy_spec key genes :
  NoDup (JsMap.keys (schedulesBy key genes))
  /\ forall k,
       JsMap.get k (schedulesBy key genes)
       = match slotsUnder key k genes with
         | [] => None
         | l => Some l
         end.
Proof.
  induction genes as [|g genes [IHnd IH]] using rev_ind.
  - split; [apply NoDup_nil_2 | done].
  - rewrite schedulesBy_snoc. unfold pushTo.
    set (m := schedulesBy key genes) in *.
    split.
    + destruct (JsMap.get (key g) m); by apply JsMap_keys_set_NoDup.
    + intros k. rewrite slotsUnder_snoc.
      destruct (decide (key g = k)) as [<-|Hne].
      * rewrite (IH (key g)).
        destruct (slotsUnder key (key g) genes) as [|x l];
          by rewrite JsMap_get_set_eq.
      * rewrite app_nil_r, <-(IH k).
        destruct (JsMap.get (key g) m); by rewrite JsMap_get_set_ne.
Qed.

Lemma JsMap_elem_get {V} (k : string) (v : V) (m : JsMap.t V) :
  NoDup (JsMap.keys m) -> (k, v) ∈ m -> JsMap.get k m = Some v.
Proof.
  induction m as [|[k' v'] m IH]; intros Hnd Hin.
  - by apply elem_of_nil in Hin.
  - simpl in Hnd. apply NoDup_cons in Hnd as [Hk' Hnd].
    apply elem_of_cons in Hin as [[= -> ->]|Hin]; simpl.
    + by rewrite String.eqb_refl.
    + destruct (String.eqb_spec k' k) as [->|Hne]; [|by apply IH].
      destruct Hk'. unfold JsMap.keys.
      by apply (list_elem_of_fmap_2 fst _ (k, v)).
Qed.

(** The list kept under a key of [schedulesBy]. *)
Lemma schedulesBy_elem key genes k l :
  (k, l) ∈ schedulesBy key genes -> l = slotsUnder key k genes /\ l <> [].
Proof.
  intros Hin. destruct (schedulesBy_spec key genes) as [Hnd Hget].
  apply (JsMap_elem_get _ _ _ Hnd) in Hin. rewrite Hget in Hin.
  destruct (slotsUnder key k genes); [done|]. by injection Hin as <-.
Qed.










(** ** More on the fitness calculator *)





Lemma checkConflicts_listsEveryKey key genes :
  listsEveryKey key genes (checkConflicts key genes).
Proof.
  destruct (checkConflicts_keys key genes) as [Hnd Hkeys].
  split; [done|]. split.
  - intros k. rewrite Hkeys. rewrite list_elem_of_fmap.
    split; intros (g & H1 & H2); exists g; by split.
  - rewrite checkConflicts_count.
    assert (length (snd (checkConflicts key genes))
            = length (remove_dups (map key genes))) as ->; [|lia].
    apply Permutation_length, NoDup_Permutation;
      [done | apply NoDup_remove_dups |].
    intros k. by rewrite Hkeys, elem_of_remove_dups.
Qed.

(** X2.  The [conflicts] array of a double booking check lists the key
    of every gene once, whether it conflicts or not; [count] and the
    number of keys add up to the number of genes. *)
Theorem conflict_report_lists_every_key (genes : list Gene) :
  listsEveryKey facultyConflictKey genes (checkFacultyConflicts genes)
  /\ listsEveryKey roomConflictKey genes (checkRoomConflicts genes)
  /\ listsEveryKey sectionConflictKey genes (checkSectionConflicts genes).
Proof. repeat split; apply checkConflicts_listsEveryKey. Qed.

Lemma remove_dups_length_perm {A} `{EqDecision A} (l l' : list A) :
  l ≡ₚ l' -> length (remove_dups l) = length (remove_dups l').
Proof.
  intros Hp. apply Permutation_length, NoDup_Permutation;
    [apply NoDup_remove_dups..|].
  intros x. by rewrite !elem_of_remove_dups, Hp.
Qed.

Lemma checkConflicts_perm key genes genes' :
  genes ≡ₚ genes' ->
  fst (checkConflicts key genes) = fst (checkConflicts key genes').
Proof.
  intros Hp. rewrite !checkConflicts_count.
  rewrite (remove_dups_length_perm (map key genes) (map key genes'))
    by (by apply Permutation_map).
  by rewrite (Permutation_length Hp).
Qed.

(** X3.  The double booking counts do not depend on the order of the
    genes. *)
Theorem double_booking_counts_ignore_order (genes genes' : list Gene) :
  genes ≡ₚ genes' ->
  fst (checkFacultyConflicts genes) = fst (checkFacultyConflicts genes')
  /\ fst (checkRoomConflicts genes) = fst (checkRoomConflicts genes')
  /\ fst (checkSectionConflicts genes) = fst (checkSectionConflicts genes').
Proof. intros Hp. repeat split; by apply checkConflicts_perm. Qed.

Lemma double_booking_counts_ignore_order_witness :
  fst (checkSectionConflicts sectionDoubleBooked) = 1
  /\ fst (checkSectionConflicts (reverse sectionDoubleBooked)) = 1.
Proof.
  destruct (double_booking_counts_ignore_order sectionDoubleBooked
              (reverse sectionDoubleBooked)) as (_ & _ & H).
  - apply perm_swap.
  - split; [|rewrite <-H]; vm_compute; reflexivity.
Defined.

Lemma fold_left_step_bound {A} (f : Z -> A -> Z) (l : list A) (c : Z) :
  (forall c a, c <= f c a <= c + 1) ->
  c <= fold_left f l c <= c + Z.of_nat (length l).
Proof.
  intros Hf. revert c. induction l as [|a l IH]; intros c; simpl; [lia|].
  specialize (IH (f c a)). specialize (Hf c a). lia.
Qed.

Lemma checkConflicts_le key genes :
  fst (checkConflicts key genes) <= Z.of_nat (length genes).
Proof. rewrite checkConflicts_count. lia. Qed.

Lemma checkFacultyAvailability_le genes faculty :
  checkFacultyAvailability genes faculty <= Z.of_nat (length genes).
Proof.
  unfold checkFacultyAvailability.
  apply (fold_left_step_bound (availabilityStep (idMap f_id faculty)) genes 0).
  intros c g. unfold availabilityStep. repeat case_match; lia.
Qed.

Lemma checkRoomCapacity_le genes courses rooms :
  checkRoomCapacity genes courses rooms <= Z.of_nat (length genes).
Proof.
  unfold checkRoomCapacity.
  apply (fold_left_step_bound
           (capacityStep (idMap r_id rooms) (idMap c_id courses)) genes 0).
  intros c g. unfold capacityStep. repeat case_match; lia.
Qed.

(** X4.  The number of hard violations of a chromosome is not negative
    and at most five times the number of its genes: each of the three
    double booking checks, the availability check and the capacity check
    counts a gene at most once, and the lab continuity check counts
    nothing. *)
Theorem hard_violations_bounded w genes courses faculty rooms constraints :
  0 <= ev_hardViolations (calculate w genes courses faculty rooms constraints)
    <= 5 * Z.of_nat (length genes).
Proof.
  unfold calculate. cbv zeta. cbn [ev_hardViolations].
  pose proof (checkConflicts_nonneg facultyConflictKey genes).
  pose proof (checkConflicts_nonneg roomConflictKey genes).
  pose proof (checkConflicts_nonneg sectionConflictKey genes).
  pose proof (checkConflicts_le facultyConflictKey genes).
  pose proof (checkConflicts_le roomConflictKey genes).
  pose proof (checkConflicts_le sectionConflictKey genes).
  pose proof (checkFacultyAvailability_nonneg genes faculty).
  pose proof (checkFacultyAvailability_le genes faculty).
  pose proof (checkRoomCapacity_nonneg genes courses rooms).
  pose proof (checkRoomCapacity_le genes courses rooms).
  rewrite checkLabContinuity_zero.
  unfold checkFacultyConflicts, checkRoomConflicts, checkSectionConflicts.
  lia.
Qed.

(** X5.  The breakdown lists no hard constraint exactly when the
    chromosome has no hard violation. *)
Theorem hard_breakdown_empty_iff w genes courses faculty rooms constraints :
  let ev := calculate w genes courses faculty rooms constraints in
  hardConstraints (ev_details ev) = [] <-> ev_hardViolations ev = 0.
Proof.
  unfold calculate. cbv zeta.
  cbn [ev_details ev_hardViolations hardConstraints].
  pose proof (checkConflicts_nonneg facultyConflictKey genes) as H1.
  pose proof (checkConflicts_nonneg roomConflictKey genes) as H2.
  pose proof (checkConflicts_nonneg sectionConflictKey genes) as H3.
  pose proof (checkFacultyAvailability_nonneg genes faculty) as H4.
  pose proof (checkRoomCapacity_nonneg genes courses rooms) as H6.
  rewrite checkLabContinuity_zero.
  fold (checkFacultyConflicts genes) in H1.
  fold (checkRoomConflicts genes) in H2.
  fold (checkSectionConflicts genes) in H3.
  generalize dependent (fst (checkFacultyConflicts genes)). intros c1 H1.
  generalize dependent (fst (checkRoomConflicts genes)). intros c2 H2.
  generalize dependent (fst (checkSectionConflicts genes)). intros c3 H3.
  generalize dependent (checkFacultyAvailability genes faculty). intros c4 H4.
  generalize dependent (checkRoomCapacity genes courses rooms). intros c6 H6.
  unfold pushIf.
  destruct (Z.gtb_spec c1 0), (Z.gtb_spec c2 0), (Z.gtb_spec c3 0),
    (Z.gtb_spec c4 0), (Z.gtb_spec c6 0); simpl;
    (split; [intros; first [discriminate | lia]
            | intros; first [reflexivity | lia]]).
Qed.





Lemma schedulesBy_one_key key genes k :
  genes <> [] -> (forall g, g ∈ genes -> key g = k) ->
  schedulesBy key genes = [(k, map (fun g => slotNumber (timeSlot g)) genes)].
Proof.
  induction genes as [|g genes IH] using rev_ind; intros Hne Hk; [done|].
  rewrite schedulesBy_snoc.
  rewrite (Hk g) by (apply elem_of_app; right; apply list_elem_of_here).
  destruct genes as [|g0 genes].
  - simpl. done.
  - rewrite IH; [|done|].
    + unfold pushTo. simpl. rewrite String.eqb_refl. simpl.
      rewrite ?String.eqb_refl. by rewrite map_app.
    + intros g' Hg'. apply Hk, elem_of_app. by left.
Qed.

(** X7.  When all genes are classes of one section on one day, the
    student gap total is the span of the slots used minus the number of
    classes: [hi - lo + 1 - n] for the least slot [lo] and the greatest
    slot [hi]. *)
Theorem student_gaps_of_one_section_day genes sec d lo hi :
  (forall g, g ∈ genes -> section g = sec /\ day (timeSlot g) = d) ->
  (exists g, g ∈ genes /\ slotNumber (timeSlot g) = lo) ->
  (exists g, g ∈ genes /\ slotNumber (timeSlot g) = hi) ->
  (forall g, g ∈ genes -> lo <= slotNumber (timeSlot g) <= hi) ->
  calculateStudentGaps genes = hi - lo + 1 - Z.of_nat (length genes).
Proof.
  intros Hsame (glo & Hglo & Hlo) (ghi & Hghi & Hhi) Hall.
  unfold calculateStudentGaps, totalGapsBy.
  rewrite (schedulesBy_one_key sectionDayKey genes (sec +:+ "-" +:+ day_name d)).
  - simpl.
    set (slots := map (fun g => slotNumber (timeSlot g)) genes).
    rewrite (gapsOf_span (sort_asc slots) lo hi).
    + rewrite (Permutation_length (sort_asc_perm slots)). unfold slots.
      by rewrite length_map.
    + apply sort_asc_ascending.
    + rewrite sort_asc_perm. apply list_elem_of_fmap. by exists glo.
    + rewrite sort_asc_perm. apply list_elem_of_fmap. by exists ghi.
    + intros x. rewrite sort_asc_perm. intros Hx.
      apply list_elem_of_fmap in Hx as (g & -> & Hg). by apply Hall.
  - intros ->. by apply elem_of_nil in Hglo.
  - intros g Hg. destruct (Hsame g Hg) as [Hs Hd].
    unfold sectionDayKey. by rewrite Hs, Hd.
Qed.

Lemma student_gaps_of_one_section_day_witness :
  calculateStudentGaps gappedDay = 4 - 1 + 1 - Z.of_nat (length gappedDay).
Proof.
  apply (student_gaps_of_one_section_day gappedDay "A" Monday 1 4).
  - intros g Hg. unfold gappedDay in Hg.
    apply elem_of_cons in Hg as [->|Hg]; [done|].
    apply list_elem_of_singleton in Hg as ->. done.
  - eexists. split; [apply list_elem_of_here | reflexivity].
  - eexists. split; [apply list_elem_of_further, list_elem_of_here | reflexivity].
  - intros g Hg. unfold gappedDay in Hg.
    apply elem_of_cons in Hg as [->|Hg]; [simpl; lia|].
    apply list_elem_of_singleton in Hg as ->. simpl. lia.
Defined.

Lemma consecutiveWalk_short (l : list Z) (c n : Z) :
  1 <= c -> c + Z.of_nat (length l) <= 4 -> consecutiveWalk l c n = n.
Proof.
  revert c n. induction l as [|a l IH]; intros c n Hc Hlen; [done|].
  destruct l as [|b l]; [done|].
  change (consecutiveWalk (a :: b :: l) c n)
    with (if b - a =? 1
          then consecutiveWalk (b :: l) (c + 1)
                 (if c + 1 >? 3 then n + 1 else n)
          else consecutiveWalk (b :: l) 1 n).
  simpl length in *.
  destruct (b - a =? 1).
  - destruct (Z.gtb_spec (c + 1) 3); [lia|]. apply IH; simpl length; lia.
  - apply IH; simpl length; lia.
Qed.

Lemma day_key_inj (i1 i2 : string) (d1 d2 : Day) :
  i1 +:+ "-" +:+ day_name d1 = i2 +:+ "-" +:+ day_name d2 ->
  i1 = i2 /\ d1 = d2.
Proof.
  intros H. apply (f_equal list_ascii_of_string) in H.
  rewrite !chars_app in H. simpl in H.
  apply last_dash_unique in H as [H1 H2]; [|apply day_name_no_dash..].
  split; [by apply chars_inj | by apply day_name_inj, chars_inj].
Qed.

Lemma slotsUnder_facultyDay g genes :
  length (slotsUnder facultyDayKey (facultyDayKey g) genes)
  = length (classesOn (facultyId g) (day (timeSlot g)) genes).
Proof.
  unfold slotsUnder, classesOn. rewrite length_map. f_equal.
  apply list_filter_iff. intros g'. unfold facultyDayKey. split.
  - by intros ?%day_key_inj.
  - by intros [-> ->].
Qed.

(** X8.  When no teacher has more than three classes on any day, the
    consecutive hours check counts nothing. *)
Theorem three_classes_a_day_are_never_excessive genes faculty :
  (forall fid d, (length (classesOn fid d genes) <= 3)%nat) ->
  checkConsecutiveHours genes faculty = 0.
Proof.
  intros Hmax. unfold checkConsecutiveHours.
  assert (forall m c,
             (forall k l, (k, l) ∈ m -> (length l <= 3)%nat) ->
             fold_left (fun count (kv : string * list Z) =>
                          consecutiveWalk (sort_asc (snd kv)) 1 count) m c = c)
    as Hfold.
  { induction m as [|[k l] m IH]; intros c Hm; [done|]. simpl.
    rewrite consecutiveWalk_short; [|lia|].
    - apply IH. intros k' l' Hin. apply (Hm k'). by apply list_elem_of_further.
    - rewrite (Permutation_length (sort_asc_perm l)).
      pose proof (Hm k l (list_elem_of_here _ _)). lia. }
  apply Hfold. intros k l Hin.
  apply schedulesBy_elem in Hin as [-> Hne].
  assert (exists g, g ∈ genes /\ facultyDayKey g = k) as (g & _ & <-).
  { unfold slotsUnder in Hne.
    destruct (filter (fun g => facultyDayKey g = k) genes) as [|g l] eqn:E;
      [done|].
    assert (g ∈ filter (fun g => facultyDayKey g = k) genes) as Hg
      by (rewrite E; apply list_elem_of_here).
    apply list_elem_of_filter in Hg as [Hk Hg]. by exists g. }
  rewrite slotsUnder_facultyDay. apply Hmax.
Qed.

Lemma three_classes_a_day_are_never_excessive_witness :
  checkConsecutiveHours gappedDay twoFaculty = 0.
Proof.
  apply three_classes_a_day_are_never_excessive.
  intros fid d. etrans; [apply length_filter|]. simpl. lia.
Defined.






(** ** Gene objects: copies and sharing *)

Lemma mapM_deref_Ok refs w gs w' :
  mapM deref refs w = Ok (gs, w') -> w' = w /\ pointsTo (store w) refs gs.
Proof.
  revert gs w'. induction refs as [|r refs IH]; intros gs w' H; simpl in H.
  - apply ret_Ok in H as [<- <-]. split; [done | constructor].
  - apply bind_Ok in H as (g & w1 & Hg & H). apply deref_Ok in Hg as [-> Hg].
    apply bind_Ok in H as (gs' & w2 & Hgs & H). apply IH in Hgs as [-> Hgs].
    apply ret_Ok in H as [<- <-]. split; [done | by constructor].
Qed.

Lemma mapM_deref_pointsTo refs w gs :
  pointsTo (store w) refs gs -> mapM deref refs w = Ok (gs, w).
Proof.
  induction 1 as [|r g refs gs Hr _ IH]; [done|].
  simpl. unfold bind at 1. unfold deref at 1. rewrite Hr.
  unfold bind at 1. by rewrite IH.
Qed.

Lemma mapM_alloc gs w :
  mapM alloc gs w
  = Ok (seq (length (store w)) (length gs),
        {| store := store w ++ gs; random := random w; drawn := drawn w;
           notified := notified w |}).
Proof.
  revert w. induction gs as [|g gs IH]; intros w.
  - simpl. unfold ret. rewrite app_nil_r. by destruct w.
  - simpl. unfold bind at 1. unfold alloc at 1. unfold bind at 1.
    rewrite IH. unfold ret. simpl. rewrite length_app, <-app_assoc. simpl.
    by rewrite Nat.add_1_r.
Qed.

Lemma pointsTo_app_l s s' refs gs :
  pointsTo s refs gs -> pointsTo (s ++ s') refs gs.
Proof.
  induction 1 as [|r g refs gs Hr _ IH]; constructor; [|done].
  by apply lookup_app_l_Some.
Qed.

Lemma pointsTo_fresh s gs : pointsTo (s ++ gs) (seq (length s) (length gs)) gs.
Proof.
  revert s. induction gs as [|g gs IH]; intros s; [constructor|].
  simpl. constructor.
  - by rewrite list_lookup_middle.
  - specialize (IH (s ++ [g])). rewrite length_app, <-app_assoc in IH.
    simpl in IH. by rewrite Nat.add_1_r in IH.
Qed.

Lemma pointsTo_length s refs gs : pointsTo s refs gs -> length refs = length gs.
Proof. apply Forall2_length. Qed.

Lemma pointsTo_within s refs gs r :
  pointsTo s refs gs -> r ∈ refs -> (r < length s)%nat.
Proof.
  induction 1 as [|r' g refs gs Hr _ IH]; intros Hin.
  - by apply elem_of_nil in Hin.
  - apply elem_of_cons in Hin as [->|Hin]; [|by apply IH].
    by apply lookup_lt_Some in Hr.
Qed.

Lemma pointsTo_total s refs :
  (forall r, r ∈ refs -> (r < length s)%nat) -> exists gs, pointsTo s refs gs.
Proof.
  induction refs as [|r refs IH]; intros H; [exists []; constructor|].
  destruct IH as [gs Hgs]; [intros r' Hr'; by apply H, list_elem_of_further|].
  destruct (lookup_lt_is_Some_2 s r) as [g Hg];
    [apply H, list_elem_of_here|].
  exists (g :: gs). by constructor.
Qed.

Lemma pointsTo_insert_other s refs gs r g :
  r ∉ refs -> pointsTo s refs gs -> pointsTo (<[r := g]> s) refs gs.
Proof.
  intros Hr. induction 1 as [|r' g' refs gs Hr' _ IH]; constructor.
  - apply not_elem_of_cons in Hr as [Hne _].
    by rewrite list_lookup_insert_ne.
  - apply IH. by apply not_elem_of_cons in Hr as [_ ?].
Qed.

(** What [deepCopy] does when it returns. *)
Lemma deepCopy_Ok c w c' w' :
  deepCopy c w = Ok (c', w') ->
  exists gs,
    pointsTo (store w) (genes c) gs
    /\ store w' = store w ++ gs
    /\ genes c' = seq (length (store w)) (length gs)
    /\ fitness c' = fitness c /\ hardViolations c' = hardViolations c
    /\ softViolations c' = softViolations c /\ details c' = details c
    /\ random w' = random w /\ drawn w' = drawn w
    /\ notified w' = notified w.
Proof.
  unfold deepCopy, resolve. intros H.
  apply bind_Ok in H as (gs & w1 & Hgs & H).
  apply mapM_deref_Ok in Hgs as [-> Hgs].
  apply bind_Ok in H as (rs & w2 & Hrs & H). rewrite mapM_alloc in Hrs.
  injection Hrs as <- <-. apply ret_Ok in H as [<- <-].
  exists gs. by repeat split.
Qed.

Lemma deepCopy_returns c w :
  refsWithin (store w) c -> exists c' w', deepCopy c w = Ok (c', w').
Proof.
  intros Hin. destruct (pointsTo_total (store w) (genes c) Hin) as [gs Hgs].
  unfold deepCopy, resolve, bind.
  rewrite (mapM_deref_pointsTo _ _ _ Hgs), mapM_alloc. by eexists _, _.
Qed.

(** X10.  A deep copy made with [JSON.parse(JSON.stringify(...))] holds
    new gene objects with the values of the old ones and the same cached
    evaluation; the gene objects that existed before are not touched. *)
Theorem deep_copy_has_equal_new_genes c w c' w' :
  deepCopy c w = Ok (c', w') ->
  exists gs,
    pointsTo (store w) (genes c) gs
    /\ pointsTo (store w') (genes c) gs
    /\ pointsTo (store w') (genes c') gs
    /\ take (length (store w)) (store w') = store w
    /\ Forall (fun r => (length (store w) <= r)%nat) (genes c')
    /\ NoDup (genes c')
    /\ fitness c' = fitness c /\ hardViolations c' = hardViolations c
    /\ softViolations c' = softViolations c /\ details c' = details c.
Proof.
  intros H. apply deepCopy_Ok in H
    as (gs & Hgs & Hs & Hg & Hf & Hh & Hsv & Hd & _).
  exists gs. rewrite Hs, Hg. repeat split; try done.
  - by apply pointsTo_app_l.
  - apply pointsTo_fresh.
  - apply take_app_length.
  - apply Forall_forall. intros r Hr. apply elem_of_seq in Hr. lia.
  - apply NoDup_seq.
Qed.

(** A mutation that returns has written at most one gene object, one
    of the chromosome's. *)
Lemma mutate_writes ga c w w' :
  mutate ga c w = Ok (tt, w') ->
  random w' = random w /\ notified w' = notified w
  /\ length (store w') = length (store w)
  /\ (store w' = store w
      \/ exists r g', r ∈ genes c /\ store w' = <[r := g']> (store w)).
Proof.
  unfold mutate. intros H.
  destruct (length (genes c) =? 0)%nat.
  { apply ret_Ok in H as [_ <-]. auto. }
  apply bind_Ok in H as (u & w1 & (Hs1 & Hr1 & Hn1)%Math_random_Ok & H).
  destruct (genes c !! _) as [r|] eqn:Hr; [|done].
  apply list_elem_of_lookup_2 in Hr.
  apply bind_Ok in H as (mt & w2 & (Hs2 & Hr2 & Hn2)%Math_random_Ok & H).
  assert (forall w3 g' w4,
            store w3 = store w -> random w3 = random w ->
            notified w3 = notified w ->
            assign r g' w3 = Ok (tt, w4) ->
            random w4 = random w /\ notified w4 = notified w
            /\ length (store w4) = length (store w)
            /\ (store w4 = store w
                \/ exists r g', r ∈ genes c /\ store w4 = <[r := g']> (store w)))
    as Hassign.
  { intros w3 g' w4 E1 E2 E3 (E4 & E5 & E6)%assign_Ok.
    split; [congruence|]. split; [congruence|].
    split; [by rewrite E4, length_insert, E1|].
    right. exists r, g'. split; [done | congruence]. }
  assert (forall w3, store w3 = store w -> random w3 = random w ->
            notified w3 = notified w ->
            random w3 = random w /\ notified w3 = notified w
            /\ length (store w3) = length (store w)
            /\ (store w3 = store w
                \/ exists r g', r ∈ genes c /\ store w3 = <[r := g']> (store w)))
    as Hsame.
  { intros w3 E1 E2 E3. split; [done|]. split; [done|].
    split; [by rewrite E1 | by left]. }
  destruct (Qltb (u_value mt) (33 # 100)); [|destruct (Qltb (u_value mt) (66 # 100))].
  - apply bind_Ok in H as (u' & w3 & (Hs3 & Hr3 & Hn3)%Math_random_Ok & H).
    destruct (timeSlots ga !! _) as [ts|]; [|done].
    apply bind_Ok in H as (g & w4 & [-> Hg]%deref_Ok & H).
    eapply Hassign; [| | |exact H]; congruence.
  - apply bind_Ok in H as (g & w4 & [-> Hg]%deref_Ok & H).
    destruct (findCourse ga g) as [course|].
    + destruct (eligibleFaculty ga course) as [eligible|]; [|done].
      destruct (0 <? length eligible)%nat.
      * apply bind_Ok in H as (u' & w3 & (Hs3 & Hr3 & Hn3)%Math_random_Ok & H).
        destruct (eligible !! _) as [f|]; [|done].
        eapply Hassign; [| | |exact H]; congruence.
      * apply ret_Ok in H as [_ <-]. apply Hsame; congruence.
    + apply ret_Ok in H as [_ <-]. apply Hsame; congruence.
  - apply bind_Ok in H as (g & w4 & [-> Hg]%deref_Ok & H).
    destruct (findCourse ga g) as [course|];
      [|apply ret_Ok in H as [_ <-]; apply Hsame; congruence].
    destruct (findSection course g) as [sec|];
      [|apply ret_Ok in H as [_ <-]; apply Hsame; congruence].
    destruct (0 <? length (eligibleRooms ga course (sessionType g) sec))%nat;
      [|apply ret_Ok in H as [_ <-]; apply Hsame; congruence].
    apply bind_Ok in H as (u' & w3 & (Hs3 & Hr3 & Hn3)%Math_random_Ok & H).
    destruct (eligibleRooms ga course (sessionType g) sec !! _) as [rm|];
      [|done].
    eapply Hassign; [| | |exact H]; congruence.
Qed.

(** X11.  A mutation of a deep copy leaves every gene object that
    existed before the copy was made as it was: the chromosome that was
    copied keeps its gene values. *)
Theorem mutating_a_copy_spares_the_original ga c w c' w1 w2 :
  deepCopy c w = Ok (c', w1) ->
  mutate ga c' w1 = Ok (tt, w2) ->
  take (length (store w)) (store w2) = store w
  /\ forall gs, pointsTo (store w) (genes c) gs ->
                pointsTo (store w2) (genes c) gs.
Proof.
  intros Hc Hm.
  apply deepCopy_Ok in Hc as (gs & Hgs & Hs & Hg & _).
  apply mutate_writes in Hm as (_ & _ & _ & Hm).
  assert (take (length (store w)) (store w2) = store w) as Htake.
  { destruct Hm as [->|(r & g' & Hr & ->)].
    - rewrite Hs. apply take_app_length.
    - rewrite Hg in Hr. apply elem_of_seq in Hr.
      rewrite take_insert_ge by lia. rewrite Hs. apply take_app_length. }
  split; [done|]. intros gs' Hgs'.
  rewrite <-(take_drop (length (store w)) (store w2)), Htake.
  by apply pointsTo_app_l.
Qed.

Lemma crossover_Ok p1 p2 w c w' :
  crossover p1 p2 w = Ok (c, w') ->
  store w' = store w /\ random w' = random w /\ notified w' = notified w
  /\ drawn w' = S (drawn w)
  /\ exists k, (k <= length (genes p1))%nat
               /\ (genes p1 <> [] -> (k < length (genes p1))%nat)
               /\ genes c = take k (genes p1) ++ drop k (genes p2).
Proof.
  unfold crossover. intros H.
  apply bind_Ok in H as (u & w1 & Hu & H).
  unfold Math_random in Hu. injection Hu as <- <-.
  apply ret_Ok in H as [<- <-]. simpl. repeat split; try done.
  exists (floorTimes (random w (drawn w)) (length (genes p1))). split; [|split].
  - destruct (genes p1) as [|r l] eqn:E.
    + simpl length. unfold floorTimes.
      rewrite Nat.mul_0_r, Nat.Div0.div_0_l. lia.
    + apply Nat.lt_le_incl, floorTimes_lt. simpl. lia.
  - intros Hne. apply floorTimes_lt. destruct (genes p1); [done | simpl; lia].
  - done.
Qed.


Lemma crossover_from_parents p1 p2 w c w' :
  crossover p1 p2 w = Ok (c, w') ->
  forall r, r ∈ genes c -> r ∈ genes p1 \/ r ∈ genes p2.
Proof.
  intros (_ & _ & _ & _ & k & _ & _ & Hc)%crossover_Ok r.
  rewrite Hc, elem_of_app. intros [Hr|Hr]; [left | right].
  - rewrite <-(take_drop k (genes p1)). apply elem_of_app. by left.
  - rewrite <-(take_drop k (genes p2)). apply elem_of_app. by right.
Qed.


(** X13.  A mutation of a crossover offspring writes, if it writes at
    all, a gene object of one of the two parents: the parents and every
    other chromosome that holds that object change with the offspring. *)
Theorem mutating_an_offspring_writes_a_parent_gene ga p1 p2 w c w1 w2 :
  crossover p1 p2 w = Ok (c, w1) ->
  mutate ga c w1 = Ok (tt, w2) ->
  store w2 = store w
  \/ exists r g', (r ∈ genes p1 \/ r ∈ genes p2)
                  /\ store w2 = <[r := g']> (store w).
Proof.
  intros Hc Hm.
  pose proof (crossover_from_parents _ _ _ _ _ Hc) as Hin.
  apply crossover_Ok in Hc as (Hs & _).
  apply mutate_writes in Hm as (_ & _ & _ & [Hm|(r & g' & Hr & Hm)]).
  - left. congruence.
  - right. exists r, g'. split; [by apply Hin | congruence].
Qed.

(** ** Random construction, gene by gene *)

Lemma teaches_true subjects id :
  teaches subjects id = Some true -> Some id ∈ map sub_courseId subjects.
Proof.
  induction subjects as [|s subjects IH]; cbn [teaches map]; [done|].
  destruct (sub_courseId s) as [c|]; [|done].
  destruct (String.eqb_spec c id) as [->|Hne].
  - intros _. apply list_elem_of_here.
  - intros H. by apply list_elem_of_further, IH.
Qed.

Lemma isEligibleFaculty_true course f :
  isEligibleFaculty course f = Some true ->
  f_isActive f = true
  /\ Some (c_id course) ∈ map sub_courseId (subjects f).
Proof.
  unfold isEligibleFaculty.
  destruct (teaches (subjects f) (c_id course)) as [b|] eqn:Ht; [|done].
  intros [= [-> H2]%andb_true_iff]. split; [done|]. by apply teaches_true.
Qed.

Lemma isRoomSuitable_true room course t sec :
  isRoomSuitable room course t sec = true ->
  r_isActive room = true /\ strength sec <= capacity room
  /\ roomKindFits t (r_type room).
Proof.
  unfold isRoomSuitable, roomKindFits.
  destruct (r_isActive room); simpl; [|done].
  destruct (Z.ltb_spec (capacity room) (strength sec)) as [|Hcap]; [done|].
  intros H. split; [done|]. split; [lia|].
  destruct t, (r_type room); try done; auto.
Qed.

Lemma filter_elem {A} (f : A -> bool) (l : list A) (x : A) :
  x ∈ List.filter f l -> x ∈ l /\ f x = true.
Proof. rewrite !list_elem_of_In. apply filter_In. Qed.

Lemma createRandomGene_Ok ga course sec session w o w' :
  createRandomGene ga course sec session w = Ok (o, w') ->
  store w' = store w /\ random w' = random w /\ notified w' = notified w
  /\ (drawn w < drawn w' <= drawn w + 3)%nat
  /\ forall g, o = Some g ->
       drawnFrom ga course sec session g /\ drawn w' = (drawn w + 3)%nat.
Proof.
  unfold createRandomGene. intros H.
  apply bind_Ok in H as (u1 & w1 & Hu1 & H).
  unfold Math_random in Hu1. injection Hu1 as <- <-.
  destruct (eligibleFaculty ga course) as [eligible|] eqn:He;
    [|apply ret_Ok in H as [<- <-]; simpl; repeat split; try done; lia].
  destruct (length eligible =? 0)%nat.
  { apply ret_Ok in H as [<- <-]. simpl. repeat split; try done; lia. }
  apply bind_Ok in H as (u2 & w2 & Hu2 & H).
  unfold Math_random in Hu2. injection Hu2 as <- <-.
  destruct (length (eligibleRooms ga course (s_type session) sec) =? 0)%nat.
  { apply ret_Ok in H as [<- <-]. simpl. repeat split; try done; lia. }
  apply bind_Ok in H as (u3 & w3 & Hu3 & H).
  unfold Math_random in Hu3. injection Hu3 as <- <-.
  simpl in H.
  destruct (timeSlots ga !! _) as [ts|] eqn:Hts;
    [|apply ret_Ok in H as [<- <-]; simpl; repeat split; try done; lia].
  destruct (eligible !! _) as [f|] eqn:Hf;
    [|apply ret_Ok in H as [<- <-]; simpl; repeat split; try done; lia].
  destruct (eligibleRooms ga course (s_type session) sec !! _) as [r|] eqn:Hr;
    [|apply ret_Ok in H as [<- <-]; simpl; repeat split; try done; lia].
  apply ret_Ok in H as [<- <-]. simpl.
  split; [done|]. split; [done|]. split; [done|]. split; [lia|].
  intros g [= <-]. split; [|lia].
  apply list_elem_of_lookup_2 in Hts, Hf, Hr.
  apply (filterThrowing_elem _ _ _ _ He) in Hf as [Hf Hef].
  apply filter_elem in Hr as [Hr Her].
  apply isEligibleFaculty_true in Hef as [Hact Hsub].
  pose proof (isRoomSuitable_true _ _ _ _ Her) as (Hra & Hcap & Hkind).
  unfold drawnFrom. simpl. split; [by exists ts|].
  split; [by exists f|]. split; [by exists r|]. by repeat split.
Qed.

(** X14.  A gene that random construction makes has a slot of the grid,
    an active teacher with the course among their subjects and an active
    room of the right kind that holds the section; making it reads three
    random numbers and writes no gene object. *)
Theorem random_gene_is_well_formed ga course sec session w g w' :
  createRandomGene ga course sec session w = Ok (Some g, w') ->
  drawnFrom ga course sec session g
  /\ store w' = store w /\ notified w' = notified w
  /\ drawn w' = (drawn w + 3)%nat.
Proof.
  intros H. apply createRandomGene_Ok in H as (Hs & _ & Hn & _ & Hg).
  destruct (Hg g eq_refl) as [Hd Hdr].
  split; [done|]. split; [done|]. by split.
Qed.

Lemma forSessions_Ok ga course sec sessions acc w acc' w' :
  forSessions ga course sec sessions acc w = Ok (acc', w') ->
  exists gs,
    store w' = store w ++ gs
    /\ acc' = acc ++ seq (length (store w)) (length gs)
    /\ random w' = random w /\ notified w' = notified w
    /\ Forall (fun g => exists session, session ∈ sessions
                          /\ drawnFrom ga course sec session g) gs.
Proof.
  revert acc w. induction sessions as [|session sessions IH]; intros acc w H;
    simpl in H.
  - apply ret_Ok in H as [<- <-]. exists []. simpl.
    rewrite !app_nil_r. by repeat split.
  - apply bind_Ok in H as (o & w1 & Ho & H).
    apply createRandomGene_Ok in Ho as (Hs1 & Hr1 & Hn1 & _ & Hg).
    destruct o as [g|].
    + apply bind_Ok in H as (r & w2 & Hr & H).
      unfold alloc in Hr. injection Hr as <- <-.
      apply IH in H as (gs & Hs & Hacc & Hrr & Hnn & Hall). simpl in *.
      exists (g :: gs). rewrite Hs, Hacc, Hs1, length_app, <-!app_assoc.
      simpl. rewrite Nat.add_1_r. repeat split; try congruence.
      apply Forall_cons. split.
      * exists session. split; [apply list_elem_of_here|]. by apply Hg.
      * eapply Forall_impl; [exact Hall|].
        intros g' (s' & Hs' & Hd). exists s'.
        split; [by apply list_elem_of_further | done].
    + apply IH in H as (gs & Hs & Hacc & Hrr & Hnn & Hall).
      exists gs. rewrite Hs, Hacc, Hs1. repeat split; try congruence.
      eapply Forall_impl; [exact Hall|].
      intros g' (s' & Hs' & Hd). exists s'.
      split; [by apply list_elem_of_further | done].
Qed.

Lemma forSections_Ok ga course sessions secs acc w acc' w' :
  forSections ga course sessions secs acc w = Ok (acc', w') ->
  exists gs,
    store w' = store w ++ gs
    /\ acc' = acc ++ seq (length (store w)) (length gs)
    /\ random w' = random w /\ notified w' = notified w
    /\ Forall (fun g => exists sec session, sec ∈ secs /\ session ∈ sessions
                          /\ drawnFrom ga course sec session g) gs.
Proof.
  revert acc w. induction secs as [|sec secs IH]; intros acc w H; simpl in H.
  - apply ret_Ok in H as [<- <-]. exists []. simpl.
    rewrite !app_nil_r. by repeat split.
  - apply bind_Ok in H as (acc1 & w1 & H1 & H).
    apply forSessions_Ok in H1 as (gs1 & Hs1 & Hacc1 & Hr1 & Hn1 & Hall1).
    apply IH in H as (gs & Hs & Hacc & Hrr & Hnn & Hall).
    exists (gs1 ++ gs).
    rewrite Hs, Hacc, Hs1, Hacc1, !length_app, seq_app, <-!app_assoc.
    repeat split; try congruence.
    apply Forall_app. split.
    + eapply Forall_impl; [exact Hall1|].
      intros g' (s' & Hs' & Hd). exists sec, s'.
      split; [apply list_elem_of_here | done].
    + eapply Forall_impl; [exact Hall|].
      intros g' (sec' & s' & Hsec' & Hs' & Hd). exists sec', s'.
      split; [by apply list_elem_of_further | done].
Qed.

Lemma forCourses_Ok ga cs acc w acc' w' :
  forCourses ga cs acc w = Ok (acc', w') ->
  exists gs,
    store w' = store w ++ gs
    /\ acc' = acc ++ seq (length (store w)) (length gs)
    /\ random w' = random w /\ notified w' = notified w
    /\ Forall (fun g => exists course sessions sec session,
                          course ∈ cs
                          /\ getRequiredSessions course = Some sessions
                          /\ sec ∈ sections course /\ session ∈ sessions
                          /\ drawnFrom ga course sec session g) gs.
Proof.
  revert acc w. induction cs as [|course cs IH]; intros acc w H; simpl in H.
  - apply ret_Ok in H as [<- <-]. exists []. simpl.
    rewrite !app_nil_r. by repeat split.
  - destruct (getRequiredSessions course) as [sessions|] eqn:Hreq; [|done].
    apply bind_Ok in H as (acc1 & w1 & H1 & H).
    apply forSections_Ok in H1 as (gs1 & Hs1 & Hacc1 & Hr1 & Hn1 & Hall1).
    apply IH in H as (gs & Hs & Hacc & Hrr & Hnn & Hall).
    exists (gs1 ++ gs).
    rewrite Hs, Hacc, Hs1, Hacc1, !length_app, seq_app, <-!app_assoc.
    repeat split; try congruence.
    apply Forall_app. split.
    + eapply Forall_impl; [exact Hall1|].
      intros g' (sec' & s' & Hsec' & Hs' & Hd). exists course, sessions, sec', s'.
      split; [apply list_elem_of_here | done].
    + eapply Forall_impl; [exact Hall|].
      intros g' (c' & ss' & sec' & s' & Hc' & Hreq' & Hsec' & Hs' & Hd).
      exists c', ss', sec', s'. split; [by apply list_elem_of_further | done].
Qed.

Lemma createRandomChromosome_Ok ga w c w' :
  createRandomChromosome ga w = Ok (c, w') ->
  exists gs,
    store w' = store w ++ gs
    /\ genes c = seq (length (store w)) (length gs)
    /\ random w' = random w /\ notified w' = notified w
    /\ Forall (required ga) gs
    /\ fitness c = 0 /\ hardViolations c = 0 /\ softViolations c = 0
    /\ details c = None.
Proof.
  unfold createRandomChromosome. intros H.
  apply bind_Ok in H as (gs0 & w1 & H1 & H).
  apply forCourses_Ok in H1 as (gs & Hs & Hacc & Hr & Hn & Hall).
  apply ret_Ok in H as [<- <-]. exists gs. by repeat split.
Qed.

(** X15.  A chromosome that random construction returns holds gene
    objects that are all new, one after the other, each made for a
    required session of a section of a course of the snapshot with a
    slot, a teacher and a room that fit; no gene object that existed
    before is touched, and the evaluation of the chromosome is empty. *)
Theorem random_chromosome_owns_new_genes ga w c w' :
  createRandomChromosome ga w = Ok (c, w') ->
  exists gs,
    store w' = store w ++ gs
    /\ genes c = seq (length (store w)) (length gs)
    /\ pointsTo (store w') (genes c) gs
    /\ Forall (required ga) gs
    /\ fitness c = 0 /\ hardViolations c = 0 /\ softViolations c = 0
    /\ details c = None.
Proof.
  intros H. apply createRandomChromosome_Ok in H
    as (gs & Hs & Hg & _ & _ & Hall & Hrest).
  exists gs. rewrite Hs, Hg. repeat split; try done; try apply Hrest.
  apply pointsTo_fresh.
Qed.

Lemma populate_Ok ga n acc w p w' :
  populate ga n acc w = Ok (p, w') ->
  exists gs,
    store w' = store w ++ gs
    /\ concat (map genes p)
       = concat (map genes acc) ++ seq (length (store w)) (length gs)
    /\ length p = (length acc + n)%nat
    /\ random w' = random w /\ notified w' = notified w.
Proof.
  revert acc w. induction n as [|n IH]; intros acc w H; simpl in H.
  - apply ret_Ok in H as [<- <-]. exists []. simpl.
    rewrite !app_nil_r. repeat split; try done; lia.
  - apply bind_Ok in H as (c & w1 & Hc & H).
    apply createRandomChromosome_Ok in Hc as (gs1 & Hs1 & Hg1 & Hr1 & Hn1 & _).
    apply IH in H as (gs & Hs & Hcat & Hlen & Hrr & Hnn).
    exists (gs1 ++ gs).
    rewrite Hs, Hcat, Hlen, Hs1, map_app, concat_app, !length_app, seq_app,
      <-!app_assoc.
    simpl. rewrite app_nil_r, Hg1. repeat split; try congruence. lia.
Qed.

(** X16.  The initial population has a chromosome for every index
    below [populationSize], three for a size of 2.5 and none for a
    negative size, and no two of them share a gene object: their gene
    references, one chromosome after the other, are the gene objects
    made, in order. *)
Theorem initial_population_is_unshared ga w ga' w' :
  generateInitialPopulation ga w = Ok (ga', w') ->
  length (population ga') = loopCount (populationSize ga)
  /\ (forall i : nat,
        (i < length (population ga'))%nat
        <-> (inject_Z (Z.of_nat i) < populationSize ga)%Q)
  /\ concat (map genes (population ga'))
     = seq (length (store w)) (length (store w') - length (store w))
  /\ take (length (store w)) (store w') = store w
  /\ bestChromosome ga' = bestChromosome ga
  /\ generationHistory ga' = generationHistory ga.
Proof.
  unfold generateInitialPopulation. intros H.
  apply bind_Ok in H as (p & w1 & Hp & H).
  apply populate_Ok in Hp as (gs & Hs & Hcat & Hlen & _).
  apply ret_Ok in H as [<- <-]. simpl.
  rewrite Hs, Hcat, Hlen, length_app. simpl.
  split; [done|]. split; [intros i; apply loopCount_lt|].
  repeat split; try done.
  - f_equal. lia.
  - apply take_app_length.
Qed.

(** ** Selection and statistics *)

Lemma tournamentLoop_Ok ga n best w o w' :
  tournamentLoop ga n best w = Ok (o, w') ->
  store w' = store w /\ random w' = random w /\ notified w' = notified w
  /\ drawn w' = (drawn w + n)%nat
  /\ (o = best \/ exists c, o = Some c /\ c ∈ population ga)
  /\ ((0 < n)%nat -> population ga <> [] -> is_Some o).
Proof.
  revert best w. induction n as [|n IH]; intros best w H; simpl in H.
  - apply ret_Ok in H as [<- <-]. repeat split; try done; try lia. by left.
  - apply bind_Ok in H as (u & w1 & Hu & H).
    unfold Math_random in Hu. injection Hu as <- <-.
    destruct (population ga !! _) as [candidate|] eqn:Hc.
    + apply list_elem_of_lookup_2 in Hc.
      apply IH in H as (Hs & Hr & Hn & Hd & Ho & Hsome). simpl in *.
      split; [done|]. split; [done|]. split; [done|]. split; [lia|]. split.
      * destruct Ho as [->|Ho]; [|by right].
        destruct (better candidate best);
          [right; by exists candidate | by left].
      * intros _ Hne. destruct n as [|n]; [|apply Hsome; [lia | done]].
        destruct Ho as [->|(c & -> & _)]; [|done].
        unfold better. destruct best; [|done]. by destruct (_ >? _).
    + destruct best as [b|]; [done|].
      assert (population ga = []) as Hnil.
      { destruct (population ga) as [|c l] eqn:Ep; [done|].
        destruct (lookup_floorTimes (c :: l) (random w (drawn w)))
          as [x Hx]; [done|]. by rewrite Hx in Hc. }
      apply IH in H as (Hs & Hr & Hn & Hd & Ho & Hsome). simpl in *.
      split; [done|]. split; [done|]. split; [done|]. split; [lia|].
      split; [done|]. by intros _ Hne.
Qed.

Lemma tournamentLoop_returns ga n best w :
  population ga <> [] -> exists o w', tournamentLoop ga n best w = Ok (o, w').
Proof.
  intros Hne. revert best w. induction n as [|n IH]; intros best w; simpl.
  - by eexists _, _.
  - unfold bind, Math_random.
    destruct (lookup_floorTimes (population ga) (random w (drawn w)) Hne)
      as [c ->].
    apply IH.
Qed.

(** X17.  On a population that is not empty, a tournament of at least
    one round, which is one of a positive size, returns a chromosome of
    the population; it reads one random number per round, a round for
    every index below the size, and writes no gene object. *)
Theorem tournament_selects_a_member ga w :
  population ga <> [] -> (0 < tournamentSize ga)%Q ->
  exists c w',
    tournamentSelection ga w = Ok (Some c, w')
    /\ c ∈ population ga
    /\ store w' = store w /\ notified w' = notified w
    /\ drawn w' = (drawn w + loopCount (tournamentSize ga))%nat.
Proof.
  intros Hne Hsize. unfold tournamentSelection.
  assert (0 < loopCount (tournamentSize ga))%nat as Hrounds
    by (by apply (loopCount_lt _ 0)).
  destruct (tournamentLoop_returns ga (loopCount (tournamentSize ga)) None w
              Hne)
    as (o & w' & E).
  pose proof E as E'.
  apply tournamentLoop_Ok in E' as (Hs & _ & Hn & Hd & Ho & Hsome).
  destruct (Hsome Hrounds Hne) as [c ->].
  exists c, w'. split; [done|].
  destruct Ho as [Ho|(c' & [= <-] & Hc)]; [done|]. by repeat split.
Qed.

Lemma tournament_selects_a_member_witness :
  exists c w',
    tournamentSelection sampleStartGA sampleStartWorld = Ok (Some c, w')
    /\ c ∈ population sampleStartGA
    /\ drawn w' = (drawn sampleStartWorld + 2)%nat.
Proof.
  destruct (tournament_selects_a_member sampleStartGA sampleStartWorld)
    as (c & w' & E & Hc & _ & _ & Hd).
  - discriminate.
  - reflexivity.
  - exists c, w'. split; [exact E|]. split; [exact Hc|]. exact Hd.
Defined.

Lemma fold_best_spec (rest : list Chromosome) (c : Chromosome) :
  let b := fold_left (fun best current =>
                        if fitness current >? fitness best then current
                        else best) rest c in
  b ∈ c :: rest /\ forall x, x ∈ c :: rest -> fitness x <= fitness b.
Proof.
  revert c. induction rest as [|y rest IH]; intros c; simpl.
  - split; [apply list_elem_of_here|].
    intros x ->%list_elem_of_singleton. lia.
  - destruct (Z.gtb_spec (fitness y) (fitness c)) as [Hgt|Hle].
    + destruct (IH y) as [Hin Hmax]. split.
      * by apply list_elem_of_further.
      * intros x [->|Hx]%elem_of_cons; [|by apply Hmax].
        pose proof (Hmax y (list_elem_of_here _ _)). lia.
    + destruct (IH c) as [Hin Hmax]. split.
      * apply elem_of_cons in Hin as [->|Hin]; [apply list_elem_of_here|].
        by do 2 apply list_elem_of_further.
      * intros x [->|[->|Hx]%elem_of_cons]%elem_of_cons.
        -- apply Hmax, list_elem_of_here.
        -- pose proof (Hmax c (list_elem_of_here _ _)). lia.
        -- by apply Hmax, list_elem_of_further.
Qed.

Lemma fold_max_spec (l : list Z) (a : Z) :
  fold_left Z.max l a ∈ a :: l
  /\ forall x, x ∈ a :: l -> x <= fold_left Z.max l a.
Proof.
  revert a. induction l as [|y l IH]; intros a; simpl.
  - split; [apply list_elem_of_here|].
    intros x ->%list_elem_of_singleton. lia.
  - destruct (IH (Z.max a y)) as [Hin Hmax]. split.
    + apply elem_of_cons in Hin as [->|Hin].
      * destruct (Z.max_spec a y) as [[_ ->]|[_ ->]];
          [apply list_elem_of_further|]; apply list_elem_of_here.
      * by do 2 apply list_elem_of_further.
    + intros x [->|[->|Hx]%elem_of_cons]%elem_of_cons.
      * pose proof (Hmax _ (list_elem_of_here _ _)). lia.
      * pose proof (Hmax _ (list_elem_of_here _ _)). lia.
      * by apply Hmax, list_elem_of_further.
Qed.



(** ** Evolution *)

Lemma insert_desc_perm c l : insert_desc c l ≡ₚ c :: l.
Proof.
  induction l as [|y l IH]; simpl; [done|].
  destruct (fitness y <? fitness c); [done|]. rewrite IH. apply perm_swap.
Qed.

Lemma sortByFitness_fold_perm (l acc : list Chromosome) :
  fold_left (fun acc c => insert_desc c acc) l acc ≡ₚ l ++ acc.
Proof.
  revert acc. induction l as [|x l IH]; intros acc; simpl; [done|].
  rewrite IH, insert_desc_perm. by rewrite Permutation_middle.
Qed.

Lemma sortByFitness_perm l : sortByFitness l ≡ₚ l.
Proof. unfold sortByFitness. by rewrite sortByFitness_fold_perm, app_nil_r. Qed.

Lemma descending_tail a l : descending (a :: l) -> descending l.
Proof. destruct l; [done|]. by intros [_ H]. Qed.

Lemma descending_head a l :
  descending (a :: l) -> forall x, x ∈ l -> fitness x <= fitness a.
Proof.
  revert a. induction l as [|b l IH]; intros a H x Hx.
  - by apply elem_of_nil in Hx.
  - destruct H as [Hab H]. apply elem_of_cons in Hx as [->|Hx]; [done|].
    specialize (IH b H x Hx). lia.
Qed.

Lemma insert_desc_descending c l :
  descending l -> descending (insert_desc c l).
Proof.
  induction l as [|y l IH]; intros H; [done|].
  simpl. destruct (fitness y <? fitness c) eqn:Hyc.
  - split; [lia | done].
  - pose proof (IH (descending_tail _ _ H)) as IH'.
    destruct l as [|z l]; simpl in *; [split; [lia|done]|].
    destruct H as [Hyz H].
    destruct (fitness z <? fitness c) eqn:Hzc; (split; [lia | done]).
Qed.

Lemma sortByFitness_descending l : descending (sortByFitness l).
Proof.
  unfold sortByFitness. assert (descending []) as H by done. revert H.
  generalize (@nil Chromosome) as acc.
  induction l as [|x l IH]; intros acc H; [done|].
  simpl. by apply IH, insert_desc_descending.
Qed.

Lemma deepCopy_ends c w :
  deepCopy c w <> Diverge /\ deepCopy c w <> Unmodelled.
Proof.
  unfold deepCopy, resolve, bind.
  assert (forall refs, mapM deref refs w <> Diverge
                       /\ mapM deref refs w <> Unmodelled) as Hd.
  { induction refs as [|r refs IH]; simpl; [done|].
    unfold bind at 1 3. unfold deref at 1 3.
    destruct (store w !! r); [|done].
    unfold bind. destruct (mapM deref refs w) as [[gs w1]| | |]; try done;
      by destruct IH. }
  destruct (mapM deref (genes c) w) as [[gs w1]| | |] eqn:E;
    [|done|by destruct (Hd (genes c))..].
  by rewrite mapM_alloc.
Qed.

Lemma elites_length sorted i n acc w p w' :
  elites sorted i n acc w = Ok (p, w') ->
  length p = (length acc + n)%nat
  /\ ((0 < n)%nat -> (i + n <= length sorted)%nat)
  /\ notified w' = notified w /\ random w' = random w.
Proof.
  revert i acc w. induction n as [|n IH]; intros i acc w H; simpl in H.
  - apply ret_Ok in H as [<- <-]. repeat split; try done; lia.
  - destruct (sorted !! i) as [c|] eqn:Hc; [|done].
    apply lookup_lt_Some in Hc.
    apply bind_Ok in H as (c' & w1 & Hcopy & H).
    apply deepCopy_Ok in Hcopy as (_ & _ & _ & _ & _ & _ & _ & _ & Hr & _ & Hn).
    apply IH in H as (Hlen & Hi & Hnn & Hrr). rewrite length_app in Hlen.
    simpl in Hlen. repeat split; try congruence; lia.
Qed.

Lemma elites_throws sorted i n acc w :
  (i <= length sorted < i + n)%nat ->
  exists e w', elites sorted i n acc w = Throw e w'
    /\ ((forall c, c ∈ sorted -> refsWithin (store w) c) -> e = SyntaxError).
Proof.
  revert i acc w. induction n as [|n IH]; intros i acc w Hlen; simpl.
  - lia.
  - destruct (sorted !! i) as [c|] eqn:Hc.
    + pose proof (lookup_lt_Some _ _ _ Hc) as Hi. unfold bind.
      destruct (deepCopy c w) as [[c' w1]|e w1| |] eqn:E.
      * destruct (IH (S i) (acc ++ [c']) w1) as (e & w' & Ht & He); [lia|].
        exists e, w'. split; [done|]. intros Hin. apply He.
        intros c0 Hc0 r Hr.
        apply deepCopy_Ok in E as (gs & _ & Hs & _). rewrite Hs, length_app.
        pose proof (Hin c0 Hc0 r Hr). lia.
      * exists e, w1. split; [done|]. intros Hin.
        destruct (deepCopy_returns c w) as (c' & w' & E');
          [apply Hin; by eapply list_elem_of_lookup_2|].
        congruence.
      * by destruct (deepCopy_ends c w).
      * by destruct (deepCopy_ends c w).
    + by eexists _, _.
Qed.

(** An offspring by crossover has two parents. *)
Lemma crossoverOf_Ok parent1 parent2 w o w' :
  crossoverOf parent1 parent2 w = Ok (o, w') ->
  exists p1 p2 c,
    parent1 = Some p1 /\ parent2 = Some p2 /\ o = Some c
    /\ crossover p1 p2 w = Ok (c, w').
Proof.
  unfold crossoverOf. destruct parent1 as [p1|], parent2 as [p2|];
    try (intros (? & ? & _ & H)%bind_Ok; done).
  intros (c & w1 & Hc & [<- <-]%ret_Ok)%bind_Ok. by exists p1, p2, c.
Qed.

(** An offspring by copy that is not [null] has a parent. *)
Lemma copyOfParent_Ok ga parent1 w c w' :
  copyOfParent ga parent1 w = Ok (Some c, w') ->
  exists p1, parent1 = Some p1 /\ deepCopy p1 w = Ok (c, w').
Proof.
  unfold copyOfParent. destruct parent1 as [p1|].
  - intros (c' & w1 & Hc & [[= <-] <-]%ret_Ok)%bind_Ok. by exists p1.
  - destruct (_ =? _)%nat; [by intros [[=] _]%ret_Ok | done].
Qed.

Lemma tournamentSelection_Ok ga w o w' :
  tournamentSelection ga w = Ok (o, w') ->
  store w' = store w /\ random w' = random w /\ notified w' = notified w
  /\ forall c, o = Some c -> c ∈ population ga.
Proof.
  unfold tournamentSelection.
  intros (Hs & Hr & Hn & _ & Ho & _)%tournamentLoop_Ok.
  repeat split; try done. intros c ->.
  destruct Ho as [Ho|(c' & [= <-] & Hc)]; done.
Qed.

(** One offspring: its gene references are of the population or newer
    than [n0]; gene objects older than [n0] that the population does not
    hold are not written. *)
Lemma offspringLoop_Ok ga n0 rounds acc w p w' :
  offspringLoop ga rounds acc w = Ok (p, w') ->
  (n0 <= length (store w))%nat ->
  exists new,
    p = acc ++ new /\ length new = rounds
    /\ (length (store w) <= length (store w'))%nat
    /\ random w' = random w /\ notified w' = notified w
    /\ (forall r, (r < n0)%nat -> ~ popRef ga r ->
                  store w' !! r = store w !! r)
    /\ Forall (fun c => forall r, r ∈ genes c ->
                 popRef ga r \/ (n0 <= r < length (store w'))%nat) new.
Proof.
  revert acc w. induction rounds as [|rounds IH]; intros acc w H Hn0;
    simpl in H.
  { apply ret_Ok in H as [<- <-]. exists []. rewrite app_nil_r.
    repeat split; try done. }
  apply bind_Ok in H as (parent1 & w1 & (Hs1 & Hr1 & Hn1 & Hp1)%tournamentSelection_Ok & H).
  apply bind_Ok in H as (parent2 & w2 & (Hs2 & Hr2 & Hn2 & Hp2)%tournamentSelection_Ok & H).
  apply bind_Ok in H as (u & w3 & (Hs3 & Hr3 & Hn3)%Math_random_Ok & H).
  apply bind_Ok in H as (offspring & w4 & Hoff & H).
  apply bind_Ok in H as (u' & w5 & (Hs5 & Hr5 & Hn5)%Math_random_Ok & H).
  apply bind_Ok in H as (x & w6 & Hmut & H).
  destruct offspring as [offspring|]; [|done].
  assert ((length (store w) <= length (store w4))%nat
          /\ random w4 = random w /\ notified w4 = notified w
          /\ (forall r, (r < n0)%nat -> store w4 !! r = store w !! r)
          /\ (forall r, r ∈ genes offspring ->
                popRef ga r \/ (n0 <= r < length (store w4))%nat))
    as (Hlen4 & Hr4 & Hn4 & Hkeep4 & Hrefs).
  { destruct (Qltb (u_value u) (crossoverRate ga)).
    - apply crossoverOf_Ok in Hoff
        as (p1 & p2 & c & -> & -> & [= <-] & Hoff).
      pose proof (crossover_from_parents _ _ _ _ _ Hoff) as Hfrom.
      apply crossover_Ok in Hoff as (Hs4 & Hr4 & Hn4 & _).
      split; [rewrite Hs4, Hs3, Hs2, Hs1; lia|].
      split; [congruence|]. split; [congruence|]. split.
      + intros r _. congruence.
      + intros r Hr. left. destruct (Hfrom r Hr) as [Hin|Hin].
        * exists p1. split; [by apply Hp1 | done].
        * exists p2. split; [by apply Hp2 | done].
    - apply copyOfParent_Ok in Hoff as (p1 & -> & Hoff).
      apply deepCopy_Ok in Hoff
        as (gs & _ & Hs4 & Hg4 & _ & _ & _ & _ & Hr4 & _ & Hn4).
      assert (store w3 = store w) as E3 by congruence.
      split; [rewrite Hs4, length_app, E3; lia|].
      split; [congruence|]. split; [congruence|]. split.
      + intros r Hr. rewrite Hs4, E3. apply lookup_app_l. lia.
      + intros r Hr. right. rewrite Hg4 in Hr. apply elem_of_seq in Hr.
        rewrite Hs4, length_app, E3 in *. lia. }
  assert ((length (store w) <= length (store w6))%nat
          /\ length (store w6) = length (store w4)
          /\ random w6 = random w /\ notified w6 = notified w
          /\ (forall r, (r < n0)%nat -> ~ popRef ga r ->
                        store w6 !! r = store w !! r))
    as (Hlen6 & Hlen64 & Hr6 & Hn6 & Hkeep6).
  { destruct (Qltb (u_value u') (mutationRate ga)).
    - destruct x. cbn [mutateOffspring] in Hmut.
      apply mutate_writes in Hmut as (Hrm & Hnm & Hlm & Hm).
      split; [rewrite Hlm, Hs5; lia|]. split; [by rewrite Hlm, Hs5|].
      split; [congruence|]. split; [congruence|].
      intros r Hr Hnp. rewrite <-(Hkeep4 r Hr), <-Hs5.
      destruct Hm as [->|(r' & g' & Hr' & ->)]; [done|].
      apply list_lookup_insert_ne. intros ->.
      destruct (Hrefs r Hr') as [?|?]; [done | lia].
    - apply ret_Ok in Hmut as [_ <-].
      split; [rewrite Hs5; lia|]. split; [by rewrite Hs5|].
      split; [congruence|]. split; [congruence|].
      intros r Hr _. rewrite Hs5. by apply Hkeep4. }
  apply IH in H as (new & -> & Hlen & Hlen' & Hr' & Hn' & Hkeep' & Hall);
    [|lia].
  exists (offspring :: new). rewrite <-app_assoc. simpl.
  split; [done|]. split; [by rewrite Hlen|]. split; [lia|].
  split; [congruence|]. split; [congruence|]. split.
  - intros r Hr Hnp. rewrite Hkeep' by done. by apply Hkeep6.
  - apply Forall_cons. split; [|done].
    intros r Hr. destruct (Hrefs r Hr) as [?|?]; [by left | right]. lia.
Qed.

Lemma pointsTo_app_inv s X refs gs :
  pointsTo (s ++ X) refs gs ->
  (forall r, r ∈ refs -> (r < length s)%nat) ->
  pointsTo s refs gs.
Proof.
  induction 1 as [|r g refs gs Hr _ IH]; intros Hin; constructor.
  - rewrite lookup_app_l in Hr; [done|]. apply Hin, list_elem_of_here.
  - apply IH. intros r' Hr'. by apply Hin, list_elem_of_further.
Qed.

Lemma pointsTo_keep s s' refs gs :
  pointsTo s refs gs ->
  (forall r, r ∈ refs -> s' !! r = s !! r) ->
  pointsTo s' refs gs.
Proof.
  induction 1 as [|r g refs gs Hr _ IH]; intros Hsame; constructor.
  - rewrite Hsame; [done|]. apply list_elem_of_here.
  - apply IH. intros r' Hr'. by apply Hsame, list_elem_of_further.
Qed.

Lemma elites_Ok sorted i n acc w p w' s0 X :
  elites sorted i n acc w = Ok (p, w') ->
  store w = s0 ++ X ->
  (forall c, c ∈ sorted -> refsWithin s0 c) ->
  exists copies X',
    p = acc ++ copies /\ store w' = store w ++ X'
    /\ Forall2 (copyOf s0 (store w')) (take n (drop i sorted)) copies.
Proof.
  intros H Hs Hin. revert i acc w X H Hs.
  induction n as [|n IH]; intros i acc w X H Hs; simpl in H.
  - apply ret_Ok in H as [<- <-]. exists [], []. rewrite !app_nil_r.
    repeat split; try done.
  - destruct (sorted !! i) as [c|] eqn:Hc; [|done].
    apply bind_Ok in H as (c' & w1 & Hcopy & H).
    apply deepCopy_Ok in Hcopy
      as (gs & Hgs & Hs1 & Hg1 & Hf & Hh & Hsv & Hd & _).
    destruct (IH (S i) (acc ++ [c']) w1 (X ++ gs) H) as (copies & X' & -> & Hs' & Hall).
    { by rewrite Hs1, Hs, <-app_assoc. }
    exists (c' :: copies), (gs ++ X').
    rewrite <-app_assoc. split; [done|].
    split; [by rewrite Hs', Hs1, <-app_assoc|].
    rewrite (drop_S _ _ _ Hc). simpl. constructor; [|done].
    pose proof (list_elem_of_lookup_2 _ _ _ Hc) as Hcin.
    split; [exists gs; split|split; [|done]].
    + rewrite Hs in Hgs. apply (pointsTo_app_inv _ _ _ _ Hgs). by apply Hin.
    + rewrite Hs', Hs1, Hg1. apply pointsTo_app_l, pointsTo_fresh.
    + intros r Hr. rewrite Hg1 in Hr. apply elem_of_seq in Hr.
      rewrite Hs', Hs1, Hs, !length_app in *. lia.
Qed.

(** X19.  A generation step that returns a population of chromosomes
    (a [null] offspring takes a tournament without rounds, of a negative
    size) leaves one with a chromosome for every index below
    [populationSize] or below [elitismCount], and no other: six
    chromosomes for a population size of 5.5 and five elites.  The old
    population had a chromosome for every index below [elitismCount];
    the best chromosome so far, the history and the progress records are
    not touched. *)
Theorem evolve_keeps_the_population_size ga w ga' w' :
  evolve ga w = Ok (ga', w') ->
  length (population ga')
  = Nat.max (loopCount (populationSize ga)) (loopCount (elitismCount ga))
  /\ (forall i : nat,
        (i < length (population ga'))%nat
        <-> (inject_Z (Z.of_nat i) < populationSize ga)%Q
            \/ (inject_Z (Z.of_nat i) < elitismCount ga)%Q)
  /\ (forall i : nat,
        (inject_Z (Z.of_nat i) < elitismCount ga)%Q ->
        (i < length (population ga))%nat)
  /\ bestChromosome ga' = bestChromosome ga
  /\ generationHistory ga' = generationHistory ga
  /\ notified w' = notified w.
Proof.
  unfold evolve. intros H.
  apply bind_Ok in H as (elite & w1 & He & H).
  apply elites_length in He as (Hlen1 & Hcount & Hn1 & _).
  apply bind_Ok in H as (p & w2 & Hp & H).
  apply (offspringLoop_Ok ga 0) in Hp as (new & -> & Hlen2 & _ & _ & Hn2 & _);
    [|lia].
  apply ret_Ok in H as [<- <-]. simpl in *.
  rewrite length_app, Hlen2, Hlen1.
  split; [lia|]. split.
  { intros i. rewrite <-!loopCount_lt. lia. }
  split; [|by repeat split; congruence].
  intros i Hi%loopCount_lt.
  rewrite <-(Permutation_length (sortByFitness_perm (population ga))).
  assert (0 + loopCount (elitismCount ga)
          <= length (sortByFitness (population ga)))%nat; [|lia].
  apply Hcount. lia.
Qed.

(** X20.  On a population of fewer chromosomes than [elitismCount] a
    generation step throws: the copy of the missing elite fails in
    [JSON.parse], with a [SyntaxError] when every gene reference of the
    population is to a gene object. *)
Theorem evolve_throws_on_a_small_population ga w :
  (inject_Z (Z.of_nat (length (population ga))) < elitismCount ga)%Q ->
  exists e w',
    evolve ga w = Throw e w'
    /\ (populationWithin (store w) ga -> e = SyntaxError).
Proof.
  intros Hlen%loopCount_lt. unfold evolve.
  destruct (elites_throws (sortByFitness (population ga)) 0
              (loopCount (elitismCount ga)) [] w) as (e & w' & E & He).
  { rewrite (Permutation_length (sortByFitness_perm (population ga))). lia. }
  exists e, w'. unfold bind at 1. rewrite E. split; [done|].
  intros Hin. apply He. intros c Hc r Hr. apply Hin. exists c.
  split; [|done]. by rewrite <-(sortByFitness_perm (population ga)).
Qed.

(** X21.  Elitism: after a generation step the first [elitismCount]
    chromosomes of the new population (one for every index below
    [elitismCount]) are deep copies of the fittest of the old one, as
    many, in the order of their fitness; their
    gene objects are new, and at the end of the step they still hold the
    values that the originals had at its start, whatever crossover and
    mutation did. *)
Theorem elitism_carries_the_fittest_over ga w ga' w' :
  evolve ga w = Ok (ga', w') ->
  populationWithin (store w) ga ->
  let sorted := sortByFitness (population ga) in
  sorted ≡ₚ population ga /\ descending sorted
  /\ Forall2 (copyOf (store w) (store w'))
       (take (loopCount (elitismCount ga)) sorted)
       (take (loopCount (elitismCount ga)) (population ga')).
Proof.
  intros H Hin sorted.
  split; [apply sortByFitness_perm|]. split; [apply sortByFitness_descending|].
  unfold evolve in H. fold sorted in H.
  apply bind_Ok in H as (elite & w1 & He & H).
  pose proof He as Hlen. apply elites_length in Hlen as (Hlen & _).
  apply (elites_Ok _ _ _ _ _ _ _ (store w) []) in He
    as (copies & X' & -> & Hs1 & Hcopies); [|by rewrite app_nil_r|].
  2:{ intros c Hc r Hr. apply Hin. exists c. split; [|done].
      unfold sorted in Hc. by rewrite sortByFitness_perm in Hc. }
  apply bind_Ok in H as (p & w2 & Hp & H).
  apply (offspringLoop_Ok ga (length (store w1))) in Hp
    as (new & -> & _ & Hlen2 & _ & _ & Hkeep & _); [|done].
  apply ret_Ok in H as [<- <-]. simpl in *.
  rewrite drop_0 in Hcopies.
  rewrite take_app_length' by done.
  eapply Forall2_impl; [exact Hcopies|].
  intros orig copy ((gs & Hgs & Hgs') & Hrange & Hf).
  split; [exists gs; split; [done|]|split; [|done]].
  - apply (pointsTo_keep _ _ _ _ Hgs'). intros r Hr.
    apply Hkeep; [by apply Hrange|].
    intros Hpop. apply Hin in Hpop. apply Hrange in Hr. lia.
  - intros r Hr. apply Hrange in Hr. lia.
Qed.

(** ** The best chromosome is kept out of reach *)

Lemma sameSetup_refl ga : sameSetup ga ga.
Proof. by repeat split. Qed.

Lemma sameSetup_trans ga1 ga2 ga3 :
  sameSetup ga1 ga2 -> sameSetup ga2 ga3 -> sameSetup ga1 ga3.
Proof. unfold sameSetup. intros H1 H2. intuition congruence. Qed.

Lemma evaluatedIn_setup ga ga' s c :
  sameSetup ga ga' -> evaluatedIn ga s c -> evaluatedIn ga' s c.
Proof.
  intros (_ & _ & _ & _ & _ & _ & E1 & E2 & E3 & E4 & _ & E5)
    (gs & Hgs & H).
  exists gs. split; [done|]. by rewrite E1, E2, E3, E4, E5.
Qed.

Lemma pointsTo_fun s refs gs gs' :
  pointsTo s refs gs -> pointsTo s refs gs' -> gs = gs'.
Proof.
  intros H. revert gs'. induction H as [|r g refs gs Hr _ IH]; intros gs' H'.
  - by inversion H'.
  - inversion H' as [|r' g' refs' gs'' Hr' Hrest]; subst.
    f_equal; [congruence | by apply IH].
Qed.

Lemma evaluateChromosome_Ok ga c w c' w' :
  evaluateChromosome ga c w = Ok (c', w') ->
  w' = w /\ genes c' = genes c /\ evaluatedIn ga (store w) c'.
Proof.
  unfold evaluateChromosome, resolve. intros H.
  apply bind_Ok in H as (gs & w1 & [-> Hgs]%mapM_deref_Ok & H).
  apply ret_Ok in H as [<- <-]. split; [done|]. split; [done|].
  exists gs. by repeat split.
Qed.

Lemma mapM_evaluate_Ok ga l w l' w' :
  mapM (evaluateChromosome ga) l w = Ok (l', w') ->
  w' = w
  /\ Forall2 (fun c c' => genes c' = genes c /\ evaluatedIn ga (store w) c')
             l l'.
Proof.
  revert l' w'. induction l as [|c l IH]; intros l' w' H; simpl in H.
  - apply ret_Ok in H as [<- <-]. split; [done | constructor].
  - apply bind_Ok in H as (c' & w1 & (-> & Hg & He)%evaluateChromosome_Ok & H).
    apply bind_Ok in H as (l1 & w2 & [-> Hl]%IH & H).
    apply ret_Ok in H as [<- <-]. split; [done|]. by constructor.
Qed.

Lemma evaluatePopulation_Ok ga w ga' w' :
  evaluatePopulation ga w = Ok (ga', w') ->
  w' = w /\ sameSetup ga ga'
  /\ bestChromosome ga' = bestChromosome ga
  /\ generationHistory ga' = generationHistory ga
  /\ (forall r, popRef ga' r <-> popRef ga r)
  /\ (forall c, c ∈ population ga' -> evaluatedIn ga (store w) c)
  /\ length (population ga') = length (population ga).
Proof.
  unfold evaluatePopulation. intros H.
  apply bind_Ok in H as (p & w1 & [-> Hp]%mapM_evaluate_Ok & H).
  apply ret_Ok in H as [<- <-]. simpl.
  split; [done|]. split; [by repeat split|]. split; [done|].
  split; [done|]. split; [|split].
  - intros r. unfold popRef. simpl. split.
    + intros (c' & Hc' & Hr).
      apply list_elem_of_lookup_1 in Hc' as [i Hi].
      destruct (Forall2_lookup_r _ _ _ _ _ Hp Hi) as (c & Hc & Hg & _).
      exists c. split; [by eapply list_elem_of_lookup_2 | congruence].
    + intros (c & Hc & Hr).
      apply list_elem_of_lookup_1 in Hc as [i Hi].
      destruct (Forall2_lookup_l _ _ _ _ _ Hp Hi) as (c' & Hc' & Hg & _).
      exists c'. split; [by eapply list_elem_of_lookup_2 | congruence].
  - intros c' Hc'. apply list_elem_of_lookup_1 in Hc' as [i Hi].
    by destruct (Forall2_lookup_r _ _ _ _ _ Hp Hi) as (c & Hc & _ & He).
  - symmetry. by eapply Forall2_length.
Qed.

Lemma getBestChromosome_Ok ga w b w' :
  getBestChromosome ga w = Ok (b, w') -> w' = w /\ b ∈ population ga.
Proof.
  unfold getBestChromosome.
  destruct (population ga) as [|c rest] eqn:E; [done|].
  intros [<- <-]%ret_Ok. split; [done|]. apply fold_best_spec.
Qed.

Lemma theBest_Ok ga w b w' :
  theBest ga w = Ok (b, w') -> bestChromosome ga = Some b /\ w' = w.
Proof.
  unfold theBest. destruct (bestChromosome ga); [|done].
  by intros [<- <-]%ret_Ok.
Qed.

Lemma trackBest_kept ga0 ga currentBest w ga' w' :
  trackBest ga currentBest w = Ok (ga', w') ->
  currentBest ∈ population ga ->
  evaluatedIn ga0 (store w) currentBest ->
  bestIsKept ga0 ga w ->
  bestIsKept ga0 ga' w'
  /\ population ga' = population ga
  /\ generationHistory ga' = generationHistory ga
  /\ notified w' = notified w.
Proof.
  unfold trackBest. intros H Hin Hev Hinv.
  pose proof Hinv as (Hsetup & Hpop & Hbest).
  destruct (better currentBest (bestChromosome ga)).
  - apply bind_Ok in H as (copy & w1 & Hcopy & H).
    apply ret_Ok in H as [<- <-].
    apply deepCopy_Ok in Hcopy
      as (gs & Hgs & Hs & Hg & Hf & Hh & Hsv & Hd & _ & _ & Hn).
    split; [|by repeat split].
    split; [exact Hsetup|]. split.
    + intros r Hr. rewrite Hs, length_app. specialize (Hpop r Hr). lia.
    + simpl. intros b [= <-]. split.
      * destruct Hev as (gs' & Hgs' & Hev).
        rewrite (pointsTo_fun _ _ _ _ Hgs' Hgs) in Hev.
        exists gs. split; [rewrite Hs, Hg; apply pointsTo_fresh|].
        by rewrite Hf, Hh, Hsv, Hd.
      * intros r Hr. rewrite Hg in Hr. apply elem_of_seq in Hr.
        rewrite Hs, length_app. split; [lia|].
        intros Hp. apply Hpop in Hp. lia.
  - apply ret_Ok in H as [<- <-]. split; [exact Hinv | by repeat split].
Qed.

Lemma evolve_kept ga0 ga w ga' w' :
  evolve ga w = Ok (ga', w') ->
  bestIsKept ga0 ga w ->
  bestIsKept ga0 ga' w'.
Proof.
  unfold evolve. intros H (Hsetup & Hpop & Hbest).
  apply bind_Ok in H as (elite & w1 & He & H).
  apply (elites_Ok _ _ _ _ _ _ _ (store w) []) in He
    as (copies & X' & -> & Hs1 & Hcopies); [|by rewrite app_nil_r|].
  2:{ intros c Hc r Hr. apply Hpop. exists c. split; [|done].
      by rewrite sortByFitness_perm in Hc. }
  apply bind_Ok in H as (p & w2 & Hp & H).
  apply (offspringLoop_Ok ga (length (store w1))) in Hp
    as (new & -> & _ & Hlen2 & _ & _ & Hkeep & Hnew); [|done].
  apply ret_Ok in H as [<- <-]. simpl in *.
  assert (forall r, popRef (set_population (copies ++ new) ga) r ->
            (popRef ga r \/ length (store w) <= r)%nat
            /\ (r < length (store w2))%nat) as Hrefs.
  { intros r (c & Hc & Hr). simpl in Hc.
    apply elem_of_app in Hc as [Hc|Hc].
    - apply list_elem_of_lookup_1 in Hc as [i Hi].
      destruct (Forall2_lookup_r _ _ _ _ _ Hcopies Hi)
        as (orig & _ & _ & Hrange & _).
      apply Hrange in Hr. lia.
    - rewrite Forall_forall in Hnew.
      destruct (Hnew c Hc r Hr) as [Hp|Hp].
      + split; [by left|]. apply Hpop in Hp. rewrite Hs1, length_app in Hlen2.
        lia.
      + rewrite Hs1, length_app in Hp. split; [right|]; lia. }
  split; [exact Hsetup|]. split.
  - intros r Hr. by apply Hrefs.
  - intros b Hb. destruct (Hbest b Hb) as [(gs & Hgs & Hev) Hb'].
    split.
    + exists gs. split; [|done].
      apply (pointsTo_keep _ _ _ _ Hgs). intros r Hr.
      destruct (Hb' r Hr) as [Hlt Hnp].
      rewrite Hkeep; [|rewrite Hs1, length_app; lia|done].
      rewrite Hs1. by apply lookup_app_l.
    + intros r Hr. destruct (Hb' r Hr) as [Hlt Hnp]. split.
      * rewrite Hs1, length_app in Hlen2. lia.
      * intros Hp. apply Hrefs in Hp as [[Hp|Hp] _]; [done | lia].
Qed.

Lemma generationBody_kept ga0 cb gen ga w r w' :
  generationBody cb gen ga w = Ok (r, w') ->
  bestIsKept ga0 ga w ->
  bestIsKept ga0 (snd r) w'.
Proof.
  unfold generationBody. intros H Hinv.
  apply bind_Ok in H as (ga1 & w1 & Hev & H).
  apply evaluatePopulation_Ok in Hev
    as (-> & Hsetup1 & Hbest1 & _ & Hpop1 & Heval1 & _).
  apply bind_Ok in H as (currentBest & w2 & [-> Hcb]%getBestChromosome_Ok & H).
  apply bind_Ok in H as (ga2 & w3 & Htrack & H).
  destruct Hinv as (Hsetup & Hpop & Hbest).
  apply (trackBest_kept ga0) in Htrack as (Hinv2 & _); [|done| |].
  2:{ apply (evaluatedIn_setup ga); [|by apply Heval1].
      unfold sameSetup in *. intuition congruence. }
  2:{ split; [by eapply sameSetup_trans|]. split.
      - intros r0 Hr0. by apply Hpop, Hpop1.
      - rewrite Hbest1. intros b Hb. destruct (Hbest b Hb) as [He Hr0].
        split; [done|]. intros r0 Hr0'. destruct (Hr0 r0 Hr0') as [? Hnp].
        split; [done|]. by rewrite Hpop1. }
  apply bind_Ok in H as (best & w4 & [Hb ->]%theBest_Ok & H).
  apply bind_Ok in H as (x & w5 & Hnote & H).
  assert (store w5 = store w3) as Hs5.
  { destruct (_ && _) in Hnote.
    - unfold notify in Hnote. by injection Hnote as _ <-.
    - by apply ret_Ok in Hnote as [_ <-]. }
  set (ga3 := push_history _ ga2) in *.
  assert (bestIsKept ga0 ga3 w5) as Hinv3.
  { destruct Hinv2 as (Hsetup2 & Hpop2 & Hbest2).
    split; [exact Hsetup2|]. split.
    - intros r0 Hr0. rewrite Hs5. by apply Hpop2.
    - intros b0 Hb0. rewrite Hs5. by apply Hbest2. }
  destruct (_ && _) in H.
  - by apply ret_Ok in H as [<- <-].
  - apply bind_Ok in H as (ga4 & w6 & Hevolve & H).
    apply ret_Ok in H as [<- <-]. simpl.
    by apply (evolve_kept ga0) in Hevolve.
Qed.

Lemma generationLoop_kept ga0 cb rounds gen ga w r w' :
  generationLoop cb rounds gen ga w = Ok (r, w') ->
  bestIsKept ga0 ga w ->
  bestIsKept ga0 (snd r) w'.
Proof.
  revert gen ga w. induction rounds as [|rounds IH]; intros gen ga w H Hinv;
    simpl in H.
  - by apply ret_Ok in H as [<- <-].
  - apply bind_Ok in H as (r1 & w1 & Hbody & H).
    apply (generationBody_kept ga0) in Hbody; [|done].
    destruct (fst r1).
    + by apply ret_Ok in H as [<- <-].
    + by apply IH in H.
Qed.

Lemma generateInitialPopulation_kept ga w ga' w' :
  generateInitialPopulation ga w = Ok (ga', w') ->
  bestChromosome ga = None ->
  bestIsKept ga ga' w'.
Proof.
  unfold generateInitialPopulation. intros H Hnone.
  apply bind_Ok in H as (p & w1 & Hp & H).
  apply populate_Ok in Hp as (gs & Hs & Hcat & _).
  apply ret_Ok in H as [<- <-]. simpl in Hcat.
  split; [by repeat split|]. split.
  - intros r (c & Hc & Hr). simpl in Hc.
    assert (r ∈ concat (map genes p)) as Hin.
    { apply list_elem_of_In, in_concat. exists (genes c).
      split; [|by apply list_elem_of_In].
      apply in_map. by apply list_elem_of_In. }
    rewrite Hcat in Hin. apply elem_of_seq in Hin.
    rewrite Hs, length_app. lia.
  - simpl. by rewrite Hnone.
Qed.

(** X22.  The schedule that a run returns is evaluated on the genes it
    is returned with: its fitness, its violation counts and its
    breakdown are those that the calculator gives for these gene values
    on the snapshot, although crossover shares gene objects and mutation
    writes them in place. *)
Theorem returned_schedule_is_evaluated config data cb rnd r w :
  run config data cb rnd = Ok (r, w) ->
  let ev := calculate (FitnessCalculator (cfg_weights config))
                      (scheduleGenes r) (d_courses data) (d_faculty data)
                      (d_rooms data) (d_constraints data) in
  pointsTo (store w) (genes (schedule r)) (scheduleGenes r)
  /\ fitness (schedule r) = ev_fitness ev
  /\ hardViolations (schedule r) = ev_hardViolations ev
  /\ softViolations (schedule r) = ev_softViolations ev
  /\ details (schedule r) = Some (ev_details ev).
Proof.
  unfold run. intros H.
  destruct (optimize cb _ _) as [[[r0 ga1] w1]| | |] eqn:E; [|done..].
  injection H as -> ->.
  unfold optimize in E.
  apply bind_Ok in E as (ga2 & w2 & Hinit & E).
  apply generateInitialPopulation_kept in Hinit; [|done].
  apply bind_Ok in E as (r1 & w3 & Hloop & E).
  apply (generationLoop_kept _ _ _ _ _ _ _ _ Hloop) in Hinit.
  apply bind_Ok in E as (best & w4 & [Hb ->]%theBest_Ok & E).
  apply bind_Ok in E as (gs & w5 & [-> Hgs]%mapM_deref_Ok & E).
  apply ret_Ok in E as [[= <- <-] <-]. simpl.
  destruct Hinit as (_ & _ & Hbest).
  destruct (Hbest best Hb) as [(gs' & Hgs' & Hev) _].
  rewrite (pointsTo_fun _ _ _ _ Hgs' Hgs) in Hev.
  split; [done|]. exact Hev.
Qed.

(** ** The history of a run *)

Lemma stats_best_is_fittest ga w b w' :
  getBestChromosome ga w = Ok (b, w') ->
  fst (getGenerationStats ga) = fitness b.
Proof.
  unfold getBestChromosome, getGenerationStats.
  destruct (population ga) as [|c rest] eqn:E; [done|].
  intros [<- _]%ret_Ok. simpl.
  destruct (fold_best_spec rest c) as [Hin Hmax].
  destruct (fold_max_spec (map fitness rest) (fitness c)) as [Hin' Hmax'].
  apply Z.le_antisymm.
  - change (fitness c :: map fitness rest) with (map fitness (c :: rest))
      in Hin'.
    apply list_elem_of_fmap in Hin' as (x & -> & Hx). by apply Hmax.
  - apply Hmax'.
    change (fitness c :: map fitness rest) with (map fitness (c :: rest)).
    by apply list_elem_of_fmap_2.
Qed.

Lemma trackBest_Ok ga currentBest w ga' w' :
  trackBest ga currentBest w = Ok (ga', w') ->
  (exists b, bestChromosome ga' = Some b
             /\ fitness currentBest <= fitness b
             /\ forall old, bestChromosome ga = Some old ->
                            fitness old <= fitness b)
  /\ population ga' = population ga
  /\ generationHistory ga' = generationHistory ga
  /\ maxGenerations ga' = maxGenerations ga
  /\ notified w' = notified w.
Proof.
  unfold trackBest. intros H.
  destruct (better currentBest (bestChromosome ga)) eqn:Hb.
  - apply bind_Ok in H as (copy & w1 & Hcopy & H).
    apply ret_Ok in H as [<- <-].
    apply deepCopy_Ok in Hcopy
      as (gs & _ & _ & _ & Hf & _ & _ & _ & _ & _ & Hn).
    split; [|by repeat split]. exists copy. simpl. split; [done|].
    split; [lia|]. intros old Hold. rewrite Hold in Hb. simpl in Hb. lia.
  - apply ret_Ok in H as [<- <-]. split; [|by repeat split].
    unfold better in Hb. destruct (bestChromosome ga) as [b|]; [|done].
    exists b. split; [done|]. split; [lia|]. by intros old [= <-].
Qed.

Lemma evolve_frame ga w ga' w' :
  evolve ga w = Ok (ga', w') ->
  bestChromosome ga' = bestChromosome ga
  /\ generationHistory ga' = generationHistory ga
  /\ maxGenerations ga' = maxGenerations ga
  /\ notified w' = notified w.
Proof.
  unfold evolve. intros H.
  apply bind_Ok in H as (elite & w1 & He & H).
  apply elites_length in He as (_ & _ & Hn1 & _).
  apply bind_Ok in H as (p & w2 & Hp & H).
  apply (offspringLoop_Ok ga 0) in Hp as (new & _ & _ & _ & _ & Hn2 & _);
    [|lia].
  apply ret_Ok in H as [<- <-]. simpl. repeat split; congruence.
Qed.

(** One generation: one history record, and one progress record if the
    callback is due. *)
Lemma generationBody_record cb gen ga w stop ga' w' :
  generationBody cb gen ga w = Ok ((stop, ga'), w') ->
  exists h b,
    generationHistory ga' = generationHistory ga ++ [h]
    /\ generation h = gen
    /\ bestChromosome ga' = Some b
    /\ bestFitness h <= fitness b
    /\ h_hardViolations h = hardViolations b
    /\ h_softViolations h = softViolations b
    /\ (forall old, bestChromosome ga = Some old -> fitness old <= fitness b)
    /\ (stop = true -> hardViolations b = 0 /\ 950 < fitness b)
    /\ maxGenerations ga' = maxGenerations ga
    /\ notified w'
       = notified w ++ (if cb && isReported h
                        then [progressOf (maxGenerations ga) h] else []).
Proof.
  unfold generationBody. intros H.
  apply bind_Ok in H as (ga1 & w1 & Hev & H).
  apply evaluatePopulation_Ok in Hev
    as (-> & Hsetup1 & Hbest1 & Hhist1 & _).
  destruct Hsetup1 as (_ & Hmax1 & _).
  apply bind_Ok in H as (currentBest & w2 & Hcb & H).
  pose proof (stats_best_is_fittest _ _ _ _ Hcb) as Hstats.
  apply getBestChromosome_Ok in Hcb as [-> Hcb].
  apply bind_Ok in H as (ga2 & w3 & Htrack & H).
  apply trackBest_Ok in Htrack
    as ((b & Hb & Hcbb & Hold) & Hpop2 & Hhist2 & Hmax2 & Hn2).
  apply bind_Ok in H as (best & w4 & [Hb' ->]%theBest_Ok & H).
  rewrite Hb in Hb'. injection Hb' as <-.
  assert (fst (getGenerationStats ga2) = fitness currentBest) as Hstats2.
  { unfold getGenerationStats in *. by rewrite Hpop2. }
  set (h := {| generation := gen;
               bestFitness := fst (getGenerationStats ga2);
               avgFitness := snd (getGenerationStats ga2);
               h_hardViolations := hardViolations b;
               h_softViolations := softViolations b |}) in *.
  apply bind_Ok in H as (x & w5 & Hnote & H).
  assert (notified w5
          = notified w ++ (if cb && isReported h
                           then [progressOf (maxGenerations ga) h] else []))
    as Hn5.
  { unfold isReported. simpl. destruct (cb && _).
    - unfold notify in Hnote. injection Hnote as _ <-. simpl.
      rewrite Hn2. unfold progressOf. simpl. by rewrite Hmax2, Hmax1.
    - apply ret_Ok in Hnote as [_ <-]. by rewrite app_nil_r. }
  assert (bestFitness h <= fitness b) as Hhb
    by (change (bestFitness h) with (fst (getGenerationStats ga2)); lia).
  exists h, b.
  destruct (_ && _) eqn:Hstop in H.
  - apply ret_Ok in H as [[= <- <-] <-]. simpl.
    split; [congruence|]. split; [done|]. split; [done|].
    split; [exact Hhb|]. split; [done|]. split; [done|]. split.
    { intros old Ho. apply Hold. congruence. }
    split; [|split; [congruence | done]].
    intros _. apply andb_true_iff in Hstop as [H1 H2]. lia.
  - apply bind_Ok in H as (ga4 & w6 & Hevolve & H).
    apply ret_Ok in H as [[= <- <-] <-].
    apply evolve_frame in Hevolve as (Hb4 & Hh4 & Hm4 & Hn4). simpl in *.
    split; [congruence|]. split; [done|]. split; [congruence|].
    split; [exact Hhb|]. split; [done|]. split; [done|]. split.
    { intros old Ho. apply Hold. congruence. }
    split; [done|]. split; congruence.
Qed.

Lemma generationLoop_record cb rounds gen ga w stop ga' w' :
  generationLoop cb rounds gen ga w = Ok ((stop, ga'), w') ->
  exists new,
    generationHistory ga' = generationHistory ga ++ new
    /\ map generation new = seq gen (length new)
    /\ (length new <= rounds)%nat
    /\ (stop = false -> length new = rounds)
    /\ maxGenerations ga' = maxGenerations ga
    /\ notified w'
       = notified w ++ (if cb
                        then map (progressOf (maxGenerations ga))
                                 (List.filter isReported new)
                        else [])
    /\ ((0 < rounds)%nat ->
        new <> []
        /\ exists b, bestChromosome ga' = Some b
          /\ Forall (fun h => bestFitness h <= fitness b) new
          /\ (forall old, bestChromosome ga = Some old ->
                          fitness old <= fitness b)
          /\ (forall h, last new = Some h ->
                 h_hardViolations h = hardViolations b
                 /\ h_softViolations h = softViolations b)
          /\ (stop = true -> hardViolations b = 0 /\ 950 < fitness b)).
Proof.
  revert gen ga w. induction rounds as [|rounds IH]; intros gen ga w H;
    simpl in H.
  { apply ret_Ok in H as [[= <- <-] <-]. exists []. rewrite !app_nil_r.
    split; [done|]. split; [done|]. split; [done|]. split; [done|].
    split; [done|]. split; [destruct cb; by rewrite app_nil_r | lia]. }
  apply bind_Ok in H as ([stop1 ga1] & w1 & Hbody & H).
  apply generationBody_record in Hbody
    as (h & b & Hh & Hgen & Hb & Hhb & Hhv & Hsv & Hold & Hstop & Hmax & Hn).
  simpl in H.
  assert (forall stop0,
            (stop0 = true -> hardViolations b = 0 /\ 950 < fitness b) ->
            (stop0 = false -> 1%nat = S rounds) ->
            exists new,
              generationHistory ga1 = generationHistory ga ++ new
              /\ map generation new = seq gen (length new)
              /\ (length new <= S rounds)%nat
              /\ (stop0 = false -> length new = S rounds)
              /\ maxGenerations ga1 = maxGenerations ga
              /\ notified w1
                 = notified w ++ (if cb
                                  then map (progressOf (maxGenerations ga))
                                           (List.filter isReported new)
                                  else [])
              /\ ((0 < S rounds)%nat ->
                  new <> []
                  /\ exists b0, bestChromosome ga1 = Some b0
                    /\ Forall (fun h => bestFitness h <= fitness b0) new
                    /\ (forall old, bestChromosome ga = Some old ->
                                    fitness old <= fitness b0)
                    /\ (forall h, last new = Some h ->
                           h_hardViolations h = hardViolations b0
                           /\ h_softViolations h = softViolations b0)
                    /\ (stop0 = true ->
                        hardViolations b0 = 0 /\ 950 < fitness b0)))
    as Hone.
  { intros stop0 Hs0 Hr0. exists [h]. simpl. rewrite Hgen.
    split; [done|]. split; [done|]. split; [lia|]. split; [done|].
    split; [done|]. split.
    { rewrite Hn. by destruct cb, (isReported h). }
    intros _. split; [done|]. exists b. split; [done|].
    split; [by constructor|]. split; [done|].
    split; [by intros h' [= <-] | done]. }
  destruct stop1.
  { apply ret_Ok in H as [[= <- <-] <-]. apply Hone; [done | discriminate]. }
  destruct rounds as [|rounds].
  { simpl in H. apply ret_Ok in H as [[= <- <-] <-].
    apply Hone; [discriminate | done]. }
  clear Hone.
  apply IH in H as (new & Hh' & Hgens & Hlen & Hfull & Hmax' & Hn' & Hrest).
  destruct (Hrest ltac:(lia))
    as (Hne & b' & Hb' & Hall & Hold' & Hlast & Hstop').
  exists (h :: new). simpl length. simpl map. rewrite Hgen, Hgens.
  split; [by rewrite Hh', Hh, <-app_assoc|]. split; [done|].
  split; [lia|]. split; [intros Hs; by rewrite Hfull|].
  split; [congruence|]. split.
  { rewrite Hn', Hn, Hmax, <-app_assoc. f_equal.
    destruct cb; simpl; [|done]. by destruct (isReported h). }
  intros _. split; [done|]. exists b'. split; [done|]. split.
  { constructor; [|done]. specialize (Hold' b Hb). lia. }
  split; [intros old Ho; specialize (Hold old Ho);
          specialize (Hold' b Hb); lia|].
  split; [|done].
  intros h'. destruct new as [|h0 new]; [done|]. exact (Hlast h').
Qed.

(** X23.  The history that a run returns, no [null] offspring having
    entered a population, has one record per generation
    that was evaluated, numbered from 0: at least one, and only numbers
    below [maxGenerations], so three records at most (0, 1, 2) for a
    [maxGenerations] of 2.5.  The run stops before the first number that
    is not below [maxGenerations] only on a best chromosome without hard
    violation and with a fitness above 950.  No record has a
    [bestFitness] above the fitness of the schedule returned, and the
    last record carries the violation counts of that schedule. *)
Theorem history_has_one_record_per_generation config data cb rnd r w :
  run config data cb rnd = Ok (r, w) ->
  let n := length (generations r) in
  let maxGen := maxGenerations (GeneticAlgorithm_new config) in
  map generation (generations r) = seq 0 n
  /\ (1 <= n <= loopCount maxGen)%nat
  /\ Forall (fun h => (inject_Z (Z.of_nat (generation h)) < maxGen)%Q)
            (generations r)
  /\ ((inject_Z (Z.of_nat n) < maxGen)%Q ->
      hardViolations (schedule r) = 0 /\ 950 < fitness (schedule r))
  /\ Forall (fun h => bestFitness h <= fitness (schedule r)) (generations r)
  /\ (forall h, last (generations r) = Some h ->
        h_hardViolations h = hardViolations (schedule r)
        /\ h_softViolations h = softViolations (schedule r)).
Proof.
  unfold run. intros H.
  destruct (optimize cb _ _) as [[[r0 ga1] w1]| | |] eqn:E; [|done..].
  injection H as -> ->.
  unfold optimize in E.
  apply bind_Ok in E as (ga2 & w2 & Hinit & E).
  unfold generateInitialPopulation in Hinit.
  apply bind_Ok in Hinit as (p & w0 & _ & Hinit).
  apply ret_Ok in Hinit as [<- <-].
  apply bind_Ok in E as ([stop ga3] & w3 & Hloop & E).
  apply bind_Ok in E as (best & w4 & [Hb ->]%theBest_Ok & E).
  apply bind_Ok in E as (gs & w5 & [-> Hgs]%mapM_deref_Ok & E).
  apply ret_Ok in E as [[= <- <-] <-].
  cbn [maxGenerations set_population initialize] in Hloop.
  set (maxGen := maxGenerations (GeneticAlgorithm_new config)) in *.
  assert (0 < loopCount maxGen)%nat as Hpos.
  { destruct (loopCount maxGen); [|lia]. simpl in Hloop.
    apply ret_Ok in Hloop as [[= _ <-] _]. done. }
  apply generationLoop_record in Hloop
    as (new & Hh & Hgens & Hlen & Hfull & _ & _ & Hrest).
  simpl in Hh, Hlen, Hfull, Hrest. simpl in *. subst new.
  destruct (Hrest Hpos) as (Hne & b & Hb' & Hall & _ & Hlast & Hstop).
  rewrite Hb in Hb'. injection Hb' as <-.
  split; [done|]. split.
  { split; [|done]. destruct (generationHistory ga3); [done | simpl; lia]. }
  split.
  { apply Forall_forall. intros h Hin. apply loopCount_lt.
    apply (list_elem_of_fmap_2 generation) in Hin.
    change (generation <$> generationHistory ga3)
      with (map generation (generationHistory ga3)) in Hin.
    rewrite Hgens in Hin. apply elem_of_seq in Hin. lia. }
  split; [|by split].
  intros Hlt%loopCount_lt. apply Hstop. destruct stop; [done|].
  specialize (Hfull eq_refl). lia.
Qed.

(** X24.  The progress callback of a run is called once for every
    generation that was evaluated and whose number is a multiple of 10,
    in order, with the best and average fitness and the hard violations
    that the history records for that generation; without a callback
    nothing is reported. *)
Theorem progress_is_reported_every_tenth_generation config data cb rnd r w :
  run config data cb rnd = Ok (r, w) ->
  notified w
  = if cb
    then map (progressOf (maxGenerations (GeneticAlgorithm_new config)))
             (List.filter isReported (generations r))
    else [].
Proof.
  unfold run. intros H.
  destruct (optimize cb _ _) as [[[r0 ga1] w1]| | |] eqn:E; [|done..].
  injection H as -> ->.
  unfold optimize in E.
  apply bind_Ok in E as (ga2 & w2 & Hinit & E).
  unfold generateInitialPopulation in Hinit.
  apply bind_Ok in Hinit as (p & w0 & Hp & Hinit).
  apply populate_Ok in Hp as (_ & _ & _ & _ & _ & Hn0).
  apply ret_Ok in Hinit as [<- <-].
  apply bind_Ok in E as ([stop ga3] & w3 & Hloop & E).
  apply generationLoop_record in Hloop
    as (new & Hh & _ & _ & _ & _ & Hn & _).
  simpl in Hh, Hn.
  apply bind_Ok in E as (best & w4 & [Hb ->]%theBest_Ok & E).
  apply bind_Ok in E as (gs & w5 & [-> Hgs]%mapM_deref_Ok & E).
  apply ret_Ok in E as [[= <- <-] <-]. simpl in *. subst new.
  rewrite Hn, Hn0. simpl. done.
Qed.

(** ** The fast pass and the fitness calculator *)

Lemma remove_dups_snoc_length {A} `{EqDecision A} (l : list A) (x : A) :
  length (remove_dups (l ++ [x]))
  = (length (remove_dups l) + (if decide (x ∈ l) then 0 else 1))%nat.
Proof.
  rewrite (remove_dups_length_perm (l ++ [x]) (x :: l))
    by (symmetry; apply Permutation_cons_append).
  simpl. destruct (decide_rel elem_of x l) as [Hin|Hin].
  - rewrite decide_True by done. lia.
  - rewrite decide_False by done. simpl. lia.
Qed.

Lemma typeCount_snoc type cs c :
  typeCount type (cs ++ [c])
  = (typeCount type cs + (if String.eqb (cf_type c) type then 1 else 0))%nat.
Proof.
  unfold typeCount. rewrite List.filter_app, length_app. simpl.
  by destruct (String.eqb (cf_type c) type).
Qed.

Lemma booked_empty k t : ~ booked k t JsMap.empty.
Proof. unfold booked. simpl. apply not_elem_of_nil. Qed.

(** What the fast pass has counted after the entries [P]. *)
Lemma detect_counts (P : list Entry) :
  let st := fold_left detectStep P initialConflictState in
  ((forall k t, booked k t (facultySchedule st) <-> (k, t) ∈ map facultyBooking P)
   /\ (forall k t, booked k t (roomSchedule st) <-> (k, t) ∈ map roomBooking P)
   /\ (forall k t, booked k t (sectionSchedule st)
                   <-> (k, t) ∈ map sectionBooking P))
  /\ (typeCount "faculty_double_booking" (cs_conflicts st)
      + length (remove_dups (map facultyBooking P)) = length P)%nat
  /\ (typeCount "room_double_booking" (cs_conflicts st)
      + length (remove_dups (map roomBooking P)) = length P)%nat
  /\ (typeCount "student_section_conflict" (cs_conflicts st)
      + length (remove_dups (map sectionBooking P)) = length P)%nat
  /\ length (cs_conflicts st)
     = (typeCount "faculty_double_booking" (cs_conflicts st)
        + typeCount "room_double_booking" (cs_conflicts st)
        + typeCount "student_section_conflict" (cs_conflicts st))%nat
  /\ Forall (fun c => cf_severity c = "critical") (cs_conflicts st).
Proof.
  induction P as [|e P IH] using rev_ind.
  { simpl. split; [|by repeat split].
    repeat split; intros H; try (by apply booked_empty in H);
      by apply elem_of_nil in H. }
  rewrite fold_left_app. simpl.
  set (st := fold_left detectStep P initialConflictState) in *.
  destruct IH as ((HbF & HbR & HbS) & HcF & HcR & HcS & Hlen & Hcrit).
  rewrite !map_app. cbn [map].
  rewrite !remove_dups_snoc_length, !length_app. cbn [length].
  split.
  { unfold detectStep. simpl.
    repeat split; intros H;
      try (apply bookSlot_booked in H as [[-> ->]|H];
           [apply elem_of_app; right; apply list_elem_of_here
           |apply elem_of_app; left; first [by apply HbF | by apply HbR | by apply HbS]]);
      (apply bookSlot_booked; apply elem_of_app in H as [H|H];
       [right; first [by apply HbF | by apply HbR | by apply HbS]
       |left; apply list_elem_of_singleton in H; by injection H as -> ->]). }
  assert (forall (b : bool) (Q : Prop) `{Decision Q},
            (b = true <-> Q) -> b = if decide Q then true else false) as Hdec.
  { intros b Q ? Hb. destruct (decide Q) as [HQ|HQ].
    - by apply Hb.
    - destruct b; [|done]. destruct HQ. by apply Hb. }
  assert (fst (bookSlot (e_faculty e) (entryTimeKey e) (facultySchedule st))
          = if decide (facultyBooking e ∈ map facultyBooking P)
            then true else false) as EF.
  { apply Hdec. rewrite bookSlot_fst. apply HbF. }
  assert (fst (bookSlot (e_room e) (entryTimeKey e) (roomSchedule st))
          = if decide (roomBooking e ∈ map roomBooking P)
            then true else false) as ER.
  { apply Hdec. rewrite bookSlot_fst. apply HbR. }
  assert (fst (bookSlot (e_section e) (entryTimeKey e) (sectionSchedule st))
          = if decide (sectionBooking e ∈ map sectionBooking P)
            then true else false) as ES.
  { apply Hdec. rewrite bookSlot_fst. apply HbS. }
  unfold bookSlot in EF, ER, ES. cbn [fst] in EF, ER, ES.
  unfold detectStep, bookSlot. cbv zeta. cbn [cs_conflicts fst].
  rewrite EF, ER, ES.
  destruct (decide (facultyBooking e ∈ map facultyBooking P));
    destruct (decide (roomBooking e ∈ map roomBooking P));
    destruct (decide (sectionBooking e ∈ map sectionBooking P));
    rewrite ?typeCount_snoc, ?length_app; simpl;
    (split; [lia|]); (split; [lia|]); (split; [lia|]); (split; [lia|]);
    rewrite ?Forall_app; repeat split; try done;
    by apply Forall_singleton.
Qed.

Lemma remove_dups_length_same_keys {A K1 K2} `{EqDecision K1} `{EqDecision K2}
    (f : A -> K1) (g : A -> K2) (l : list A) :
  (forall x y, f x = f y <-> g x = g y) ->
  length (remove_dups (map f l)) = length (remove_dups (map g l)).
Proof.
  intros Hfg. induction l as [|x l IH]; [done|]. simpl.
  assert (f x ∈ map f l <-> g x ∈ map g l) as Hin.
  { rewrite !list_elem_of_fmap.
    split; intros (y & E & Hy); exists y; (split; [|done]); by apply Hfg. }
  destruct (decide_rel elem_of (f x) (map f l)) as [H1|H1],
    (decide_rel elem_of (g x) (map g l)) as [H2|H2]; simpl; try tauto; lia.
Qed.

Lemma conflictKey_booking (ent : Gene -> string) (g1 g2 : Gene) :
  ent g1 +:+ "-" +:+ timeKey (timeSlot g1)
  = ent g2 +:+ "-" +:+ timeKey (timeSlot g2)
  <-> (ent g1, timeKey (timeSlot g1)) = (ent g2, timeKey (timeSlot g2)).
Proof.
  split.
  - unfold timeKey. intros (E1 & E2 & E3)%slot_key_inj. by rewrite E1, E2, E3.
  - by intros [= -> ->].
Qed.

Lemma detect_typeCount (ent : Gene -> string) (key : Gene -> string)
    (booking : Entry -> string * string) (genes : list Gene) (n : nat) :
  (forall g, key g = ent g +:+ "-" +:+ timeKey (timeSlot g)) ->
  (forall g, booking (entryOfGene g) = (ent g, timeKey (timeSlot g))) ->
  (n + length (remove_dups (map booking (map entryOfGene genes)))
   = length (map entryOfGene genes))%nat ->
  Z.of_nat n = fst (checkConflicts key genes).
Proof.
  intros Hkey Hbooking Hn. rewrite checkConflicts_count.
  rewrite length_map, map_map in Hn.
  rewrite (remove_dups_length_same_keys key
             (fun g => booking (entryOfGene g))); [lia|].
  intros g1 g2. rewrite !Hkey, !Hbooking. apply conflictKey_booking.
Qed.

(** X25.  On the entries that the controller builds from the genes of a
    schedule, [detectConflicts] emits as many faculty, room and section
    conflicts as the fitness calculator counts double bookings of each
    kind, and nothing else; all are critical, so the
    [hardConstraintViolations] it stores is their number, which does not
    include availability or capacity violations and is never above the
    hard violations that [calculate] counts. *)
Theorem fast_pass_agrees_with_the_calculator w genes courses faculty rooms
    constraints :
  let cs := detectConflicts (map entryOfGene genes) in
  Z.of_nat (typeCount "faculty_double_booking" cs)
  = fst (checkFacultyConflicts genes)
  /\ Z.of_nat (typeCount "room_double_booking" cs)
     = fst (checkRoomConflicts genes)
  /\ Z.of_nat (typeCount "student_section_conflict" cs)
     = fst (checkSectionConflicts genes)
  /\ Z.of_nat (length cs)
     = fst (checkFacultyConflicts genes) + fst (checkRoomConflicts genes)
       + fst (checkSectionConflicts genes)
  /\ detectedHardViolations (map entryOfGene genes) = length cs
  /\ Z.of_nat (detectedHardViolations (map entryOfGene genes))
     <= ev_hardViolations
          (calculate w genes courses faculty rooms constraints).
Proof.
  intros cs.
  destruct (detect_counts (map entryOfGene genes))
    as (_ & HcF & HcR & HcS & Hlen & Hcrit).
  fold (detectConflicts (map entryOfGene genes)) in HcF, HcR, HcS, Hlen, Hcrit.
  fold cs in HcF, HcR, HcS, Hlen, Hcrit.
  assert (Z.of_nat (typeCount "faculty_double_booking" cs)
          = fst (checkFacultyConflicts genes)) as EF
    by (by apply (detect_typeCount facultyId _ facultyBooking)).
  assert (Z.of_nat (typeCount "room_double_booking" cs)
          = fst (checkRoomConflicts genes)) as ER
    by (by apply (detect_typeCount roomId _ roomBooking)).
  assert (Z.of_nat (typeCount "student_section_conflict" cs)
          = fst (checkSectionConflicts genes)) as ES
    by (by apply (detect_typeCount section _ sectionBooking)).
  assert (detectedHardViolations (map entryOfGene genes) = length cs) as EH.
  { unfold detectedHardViolations. fold cs. clear -Hcrit.
    induction Hcrit as [|c l Hc _ IH]; [done|]. simpl. rewrite Hc. simpl.
    by rewrite IH. }
  split; [done|]. split; [done|]. split; [done|]. split; [lia|].
  split; [done|]. rewrite EH.
  unfold calculate. cbv zeta. cbn [ev_hardViolations].
  pose proof (checkFacultyAvailability_nonneg genes faculty).
  pose proof (checkRoomCapacity_nonneg genes courses rooms).
  rewrite checkLabContinuity_zero. lia.
Qed.

(** ** The validator *)

Lemma resultOf_violated l :
  violated (resultOf l) = true ->
  cr_count (resultOf l) = Some (Z.of_nat (length (cr_details (resultOf l))))
  /\ (0 < length (cr_details (resultOf l)))%nat.
Proof. unfold resultOf. simpl. intros H%Nat.ltb_lt. by split. Qed.

Lemma checkLabContinuityConstraint_silent constraint entries :
  checkLabContinuityConstraint constraint entries = resultOf [].
Proof.
  unfold checkLabContinuityConstraint. f_equal.
  generalize (List.filter entryIsLab entries) as l.
  assert (forall l acc,
            fold_left (fun violations session =>
              if e_consecutiveSlots session >? 1 then
                let requiredSlots := e_consecutiveSlots session in
                let isConsecutive := true in
                if negb isConsecutive
                then violations ++ [LabNotConsecutive (e_courseCode session)
                                      (e_section session) (e_day session)
                                      requiredSlots]
                else violations
              else violations) l acc = acc) as H; [|intros l; apply H].
  induction l as [|e l IH]; intros acc; simpl; [done|].
  rewrite IH. by destruct (_ >? _).
Qed.

Lemma checkFacultyWorkloadConstraint_silent constraint entries faculty :
  includes (name constraint) "Max" = false ->
  includes (name constraint) "Min" = false ->
  checkFacultyWorkloadConstraint constraint entries faculty = resultOf [].
Proof.
  intros HMax HMin. unfold checkFacultyWorkloadConstraint. rewrite HMax, HMin.
  f_equal. simpl.
  generalize (@nil ViolationDetail) as acc.
  induction faculty as [|f l IH]; intros acc; simpl; [done|]. apply IH.
Qed.

Lemma checkRoomAllocationConstraint_silent constraint entries rooms :
  includes (name constraint) "Double Booking" = false ->
  includes (name constraint) "Capacity" = false ->
  checkRoomAllocationConstraint constraint entries rooms = resultOf [].
Proof.
  intros H1 H2. unfold checkRoomAllocationConstraint. by rewrite H1, H2.
Qed.

Lemma checkStudentSectionConstraint_silent constraint entries :
  includes (name constraint) "Conflict" = false ->
  includes (name constraint) "No Student Section" = false ->
  includes (name constraint) "Gap" = false ->
  checkStudentSectionConstraint constraint entries = resultOf [].
Proof.
  intros H1 H2 H3. unfold checkStudentSectionConstraint.
  by rewrite H1, H2, H3.
Qed.

(** A check that finds a violation is one of a working category, and
    counts its details. *)
Lemma checkConstraint_violated c entries cs fs rs :
  let r := checkConstraint c entries cs fs rs in
  violated r = true ->
  workingCategory (category c)
  /\ cr_count r = Some (Z.of_nat (length (cr_details r)))
  /\ (0 < length (cr_details r))%nat.
Proof.
  unfold checkConstraint, workingCategory.
  destruct (category c); cbv zeta.
  - intros H. split; [tauto|]. revert H. apply resultOf_violated.
  - intros H. split; [tauto|]. revert H. apply resultOf_violated.
  - done.
  - intros H. split; [tauto|]. revert H. apply resultOf_violated.
  - by rewrite checkLabContinuityConstraint_silent.
  - intros H. split; [tauto|]. revert H. apply resultOf_violated.
  - done.
  - done.
Qed.

Lemma validateStep_reported entries cs fs rs constraints vs c :
  c ∈ constraints ->
  Forall (reportedFor entries cs fs rs constraints hard) (v_hard vs) ->
  Forall (reportedFor entries cs fs rs constraints soft) (v_soft vs) ->
  let vs' := validateStep entries cs fs rs vs c in
  Forall (reportedFor entries cs fs rs constraints hard) (v_hard vs')
  /\ Forall (reportedFor entries cs fs rs constraints soft) (v_soft vs')
  /\ (length (v_hard vs') + length (v_soft vs')
      <= length (v_hard vs) + length (v_soft vs) + 1)%nat.
Proof.
  intros Hc Hh Hs. unfold validateStep.
  destruct (isActive c) eqn:Hact; cbn [negb]; cbv zeta;
    [|split; [done|split; [done|lia]]].
  destruct (violated _) eqn:Hv; [|split; [done|split; [done|lia]]].
  destruct (checkConstraint_violated c entries cs fs rs Hv)
    as (Hcat & Hcount & Hlen).
  assert (js_or (cr_count (checkConstraint c entries cs fs rs)) 1
          = Z.of_nat (length (cr_details (checkConstraint c entries cs fs rs))))
    as Hjs.
  { rewrite Hcount. unfold js_or.
    destruct (Z.eqb_spec (Z.of_nat (length (cr_details
                (checkConstraint c entries cs fs rs)))) 0); [lia | done]. }
  destruct (kind c) eqn:Hk; simpl.
  - split; [|split; [done | rewrite length_app; simpl; lia]].
    apply Forall_app. split; [done|]. apply Forall_singleton.
    exists c. simpl. rewrite Hjs. repeat split; try done. lia.
  - split; [done|]. split; [|rewrite length_app; simpl; lia].
    apply Forall_app. split; [done|]. apply Forall_singleton.
    exists c. simpl. rewrite Hjs. repeat split; try done. lia.
Qed.

Lemma validate_reported entries cs fs rs constraints :
  let vs := validateSchedule entries cs fs rs constraints in
  Forall (reportedFor entries cs fs rs constraints hard) (v_hard vs)
  /\ Forall (reportedFor entries cs fs rs constraints soft) (v_soft vs)
  /\ (length (v_hard vs) + length (v_soft vs)
      <= length (List.filter isActive constraints))%nat.
Proof.
  unfold validateSchedule.
  assert (forall l vs,
            (forall c, c ∈ l -> c ∈ constraints) ->
            Forall (reportedFor entries cs fs rs constraints hard) (v_hard vs) ->
            Forall (reportedFor entries cs fs rs constraints soft) (v_soft vs) ->
            let vs' := fold_left (validateStep entries cs fs rs) l vs in
            Forall (reportedFor entries cs fs rs constraints hard) (v_hard vs')
            /\ Forall (reportedFor entries cs fs rs constraints soft)
                      (v_soft vs')
            /\ (length (v_hard vs') + length (v_soft vs')
                <= length (v_hard vs) + length (v_soft vs)
                   + length (List.filter isActive l))%nat) as H.
  { induction l as [|c l IH]; intros vs Hin Hh Hs.
    - simpl. split; [done|]. split; [done|]. lia.
    - simpl fold_left.
      destruct (validateStep_reported entries cs fs rs constraints vs c)
        as (Hh' & Hs' & Hlen'); [apply Hin, list_elem_of_here|done..|].
      destruct (IH (validateStep entries cs fs rs vs c))
        as (Hh'' & Hs'' & Hlen'');
        [intros c' Hc'; by apply Hin, list_elem_of_further|done..|].
      split; [done|]. split; [done|].
      simpl in *. unfold validateStep in *.
      destruct (isActive c); simpl in *; lia. }
  destruct (H constraints {| v_hard := []; v_soft := [] |})
    as (Hh & Hs & Hlen); try done.
Qed.

(** X26.  Every violation that [validateSchedule] returns is the report
    of an active constraint of the list, filed under [hard] or [soft] by
    the type of the constraint, with the weight only when soft; its
    count is the number of its details, at least one; and its constraint
    is of the category faculty workload, room allocation, student
    section or elective grouping: the checks of the categories time
    slot, lab continuity, preference and institutional policy never find
    anything.  There are at most as many violations as active
    constraints. *)
Theorem validator_reports_working_categories_only entries cs fs rs constraints :
  let vs := validateSchedule entries cs fs rs constraints in
  Forall (reportedFor entries cs fs rs constraints hard) (v_hard vs)
  /\ Forall (reportedFor entries cs fs rs constraints soft) (v_soft vs)
  /\ (length (v_hard vs) + length (v_soft vs)
      <= length (List.filter isActive constraints))%nat.
Proof. apply validate_reported. Qed.

Ltac among_defaults H :=
  unfold getDefaultConstraints in H;
  repeat (apply elem_of_cons in H as [->|H]);
  [..|by apply elem_of_nil in H].

Ltac is_listed :=
  by repeat first [apply list_elem_of_here | apply list_elem_of_further].

Ltac never_fires Hv :=
  exfalso; revert Hv; unfold checkConstraint;
  cbn [category mkConstraint];
  first [ rewrite checkFacultyWorkloadConstraint_silent by reflexivity
        | rewrite checkRoomAllocationConstraint_silent by reflexivity
        | rewrite checkStudentSectionConstraint_silent by reflexivity
        | rewrite checkLabContinuityConstraint_silent
        | unfold checkTimeSlotConstraint
        | idtac ];
  simpl; discriminate.

(** X27.  With the default catalog of 18 constraints, [validateSchedule]
    can report four hard constraints only (room double booking, room
    capacity, section conflict, elective overlap) and three soft ones
    (maximum hours, minimum hours, student gaps), whatever the schedule:
    the other eleven are dispatched to checks that do not act on their
    names or that check nothing. *)
Theorem default_catalog_reports_seven_constraints entries cs fs rs :
  let vs := validateSchedule entries cs fs rs getDefaultConstraints in
  Forall (fun v => v_constraint v
                   ∈ ["No Room Double Booking"; "No Student Section Conflict";
                      "Room Capacity Check"; "Elective Group No Overlap"])
         (v_hard vs)
  /\ Forall (fun v => v_constraint v
                      ∈ ["Faculty Max Hours Per Week";
                         "Faculty Min Hours Per Week";
                         "Minimize Student Gaps"])
            (v_soft vs).
Proof.
  destruct (validate_reported entries cs fs rs getDefaultConstraints)
    as (Hh & Hs & _).
  split.
  - eapply Forall_impl; [exact Hh|].
    intros v (c & Hc & _ & Hk & Hv & Hn & _). rewrite Hn.
    among_defaults Hc; cbn [kind name mkConstraint] in *;
      first [discriminate Hk | is_listed | never_fires Hv].
  - eapply Forall_impl; [exact Hs|].
    intros v (c & Hc & _ & Hk & Hv & Hn & _). rewrite Hn.
    among_defaults Hc; cbn [kind name mkConstraint] in *;
      first [discriminate Hk | is_listed | never_fires Hv].
Qed.

(** ** Consecutive time slots *)




(** ** The summary of a validation *)

Lemma category_name_inj c1 c2 :
  category_name c1 = category_name c2 -> c1 = c2.
Proof. by destruct c1, c2. Qed.

Lemma groupByCategory_snoc violations v :
  groupByCategory (violations ++ [v])
  = let grouped := groupByCategory violations in
    let k := category_name (v_category v) in
    match JsMap.get k grouped with
    | Some l => JsMap.set k (l ++ [v]) grouped
    | None => JsMap.set k [v] grouped
    end.
Proof.
  unfold groupByCategory. rewrite fold_left_app. cbn [fold_left]. cbv zeta.
  set (grouped := fold_left _ violations JsMap.empty).
  unfold JsMap.has.
  destruct (JsMap.get (category_name (v_category v)) grouped) as [l|] eqn:E;
    cbn [negb].
  - by rewrite E.
  - rewrite JsMap_get_set_eq. simpl.
    clear E. induction grouped as [|[k' l'] m IH]; simpl.
    + by rewrite String.eqb_refl.
    + destruct (String.eqb k' (category_name (v_category v))) eqn:Ek; simpl.
      * by rewrite Ek.
      * by rewrite Ek, IH.
Qed.

(** The group of a category holds the violations of the category, and a
    category without a violation has no group. *)
Lemma groupByCategory_get violations c :
  JsMap.get (category_name c) (groupByCategory violations)
  = match ofCategory c violations with
    | [] => None
    | l => Some l
    end.
Proof.
  induction violations as [|v violations IH] using rev_ind; [done|].
  rewrite groupByCategory_snoc. cbv zeta.
  unfold ofCategory in *. rewrite filter_app.
  destruct (decide (v_category v = c)) as [<-|Hne].
  - rewrite IH. rewrite (filter_cons_True _ v []) by done.
    rewrite filter_nil.
    destruct (filter _ violations) as [|x l]; by rewrite JsMap_get_set_eq.
  - rewrite (filter_cons_False _ v []) by done. rewrite filter_nil, app_nil_r.
    rewrite <-IH.
    assert (category_name (v_category v) <> category_name c) as Hk
      by (by intros ?%category_name_inj).
    destruct (JsMap.get (category_name (v_category v)) _);
      by rewrite JsMap_get_set_ne.
Qed.

Lemma groupByCategory_keys violations k :
  k ∈ JsMap.keys (groupByCategory violations)
  <-> exists v, v ∈ violations /\ k = category_name (v_category v).
Proof.
  induction violations as [|v violations IH] using rev_ind.
  - split; [by intros ?%elem_of_nil | by intros (v & ?%elem_of_nil & _)].
  - rewrite groupByCategory_snoc. cbv zeta.
    assert (k ∈ JsMap.keys (groupByCategory violations)
            \/ k = category_name (v_category v)
            <-> exists v0, v0 ∈ violations ++ [v]
                           /\ k = category_name (v_category v0)) as H.
    { rewrite IH. split.
      - intros [(v0 & Hv0 & ->)| ->].
        + exists v0. split; [|done]. apply elem_of_app. by left.
        + exists v. split; [|done]. apply elem_of_app. right.
          by apply list_elem_of_singleton.
      - intros (v0 & [Hv0| ->%list_elem_of_singleton]%elem_of_app & ->).
        + left. by exists v0.
        + by right. }
    rewrite <-H.
    destruct (JsMap.get (category_name (v_category v)) _);
      rewrite JsMap_keys_set_elem; tauto.
Qed.

Lemma groupByCategory_NoDup violations :
  NoDup (JsMap.keys (groupByCategory violations)).
Proof.
  induction violations as [|v violations IH] using rev_ind.
  - apply NoDup_nil_2.
  - rewrite groupByCategory_snoc. cbv zeta.
    destruct (JsMap.get (category_name (v_category v)) _);
      by apply JsMap_keys_set_NoDup.
Qed.

(** X29.  In the summary of what [validateSchedule] returned, the list
    of critical issues is the whole list of hard violations: their
    counts are all positive, so the filter on the count drops nothing.
    The group of a category, hard or soft, holds the violations of that
    category in their order, a category without a violation has no
    group, and only the four categories with a working check have
    one. *)
Theorem summary_of_a_validation entries cs fs rs constraints :
  let vs := validateSchedule entries cs fs rs constraints in
  let s := getSummary vs in
  criticalIssues s = v_hard vs
  /\ totalHard s = length (criticalIssues s)
  /\ (forall c,
        JsMap.get (category_name c) (hardByCategory s)
        = match ofCategory c (v_hard vs) with [] => None | l => Some l end)
  /\ (forall c,
        JsMap.get (category_name c) (softByCategory s)
        = match ofCategory c (v_soft vs) with [] => None | l => Some l end)
  /\ NoDup (JsMap.keys (hardByCategory s))
  /\ NoDup (JsMap.keys (softByCategory s))
  /\ Forall (fun k => k ∈ ["faculty_workload"; "room_allocation";
                           "student_section"; "elective_grouping"])
            (JsMap.keys (hardByCategory s) ++ JsMap.keys (softByCategory s)).
Proof.
  intros vs s.
  destruct (validate_reported entries cs fs rs constraints)
    as (Hh & Hs & _). fold vs in Hh, Hs.
  assert (criticalIssues s = v_hard vs) as Hcrit.
  { unfold s, getSummary. cbn [criticalIssues].
    induction Hh as [|v l (c & _ & _ & _ & _ & _ & _ & _ & _ & _ & Hpos & _) Hl IH];
      [done|].
    simpl. rewrite IH.
    destruct (Z.gtb_spec (v_count v) 0); [done | lia]. }
  split; [done|]. split; [by rewrite Hcrit|].
  split; [intros c; apply groupByCategory_get|].
  split; [intros c; apply groupByCategory_get|].
  split; [apply groupByCategory_NoDup|].
  split; [apply groupByCategory_NoDup|].
  assert (forall k l kind,
            Forall (reportedFor entries cs fs rs constraints kind) l ->
            k ∈ JsMap.keys (groupByCategory l) ->
            k ∈ ["faculty_workload"; "room_allocation";
                 "student_section"; "elective_grouping"]) as Hkeys.
  { intros k l kind Hl (v & Hv & ->)%groupByCategory_keys.
    rewrite Forall_forall in Hl.
    destruct (Hl v Hv)
      as (c & _ & _ & _ & _ & _ & Hvc & _ & _ & _ & _ & _ & Hcat).
    rewrite Hvc. destruct Hcat as [-> | [-> | [-> | ->]]]; simpl;
      repeat first [apply list_elem_of_here | apply list_elem_of_further]. }
  apply Forall_app. split; apply Forall_forall; intros k Hk.
  - by apply (Hkeys k (v_hard vs) hard).
  - by apply (Hkeys k (v_soft vs) soft).
Qed.

(** ** The gap report of the validator *)

Lemma append_cons (x : ascii) (s1 s2 : string) :
  String x s1 +:+ s2 = String x (s1 +:+ s2).
Proof. reflexivity. Qed.

Lemma split_go_app c cur a b :
  split_go c cur (a +:+ String c b)
  = split_go c cur a ++ split_go c EmptyString b.
Proof.
  revert cur. induction a as [|x a IH]; intros cur.
  - change (EmptyString +:+ String c b) with (String c b). simpl.
    by rewrite Ascii.eqb_refl.
  - rewrite append_cons. simpl.
    destruct (Ascii.eqb x c); simpl; by rewrite IH.
Qed.

Lemma split_go_whole c cur s :
  c ∉ list_ascii_of_string s -> split_go c cur s = [String.rev_app cur s].
Proof.
  revert cur. induction s as [|a s IH]; intros cur Hc; simpl; [done|].
  simpl in Hc. apply not_elem_of_cons in Hc as [Hne Hc].
  destruct (Ascii.eqb_spec a c) as [->|_]; [done|].
  by rewrite IH.
Qed.

Lemma first_occurrence c s :
  c ∈ list_ascii_of_string s ->
  exists a b, s = a +:+ String c b /\ c ∉ list_ascii_of_string a.
Proof.
  induction s as [|x s IH]; simpl; intros Hc.
  - by apply elem_of_nil in Hc.
  - destruct (decide (x = c)) as [->|Hne].
    + exists EmptyString, s. split; [done|]. simpl. apply not_elem_of_nil.
    + apply elem_of_cons in Hc as [->|Hc]; [done|].
      destruct (IH Hc) as (a & b & -> & Ha).
      exists (String x a), b. split; [done|]. simpl.
      apply not_elem_of_cons. by split.
Qed.

(** The pieces of [section-day]: those of the section, and the day. *)
Lemma split_sectionDay sec d :
  split "-" (sec +:+ "-" +:+ day_name d) = split "-" sec ++ [day_name d].
Proof.
  unfold split.
  change (sec +:+ "-" +:+ day_name d) with (sec +:+ String "-" (day_name d)).
  rewrite split_go_app. f_equal. by destruct d.
Qed.

Lemma split_whole c s :
  c ∉ list_ascii_of_string s -> split c s = [s].
Proof. intros H. unfold split. by rewrite split_go_whole. Qed.

Lemma split_first c s :
  c ∈ list_ascii_of_string s ->
  exists a, split c s !! 0%nat = Some a /\ a <> s.
Proof.
  intros (a & b & -> & Ha)%first_occurrence. exists a. split.
  - unfold split. rewrite split_go_app, split_go_whole by done. done.
  - intros E. apply (f_equal list_ascii_of_string) in E.
    rewrite chars_app in E. apply (f_equal length) in E.
    rewrite length_app in E. simpl in E. lia.
Qed.

Lemma entrySchedulesBy_keys key entries k :
  k ∈ JsMap.keys (entrySchedulesBy key entries) ->
  exists e, e ∈ entries /\ k = key e.
Proof.
  unfold entrySchedulesBy.
  induction entries as [|e entries IH] using rev_ind.
  - by intros ?%elem_of_nil.
  - rewrite fold_left_app. cbn [fold_left]. unfold pushTo at 1.
    intros Hk.
    assert (k = key e \/ k ∈ JsMap.keys
              (fold_left (fun m entry => pushTo (key entry) (e_slotNumber entry) m)
                         entries JsMap.empty)) as [->|Hin].
    { destruct (JsMap.get (key e) _);
        by apply JsMap_keys_set_elem in Hk. }
    + exists e. split; [|done]. apply elem_of_app. right.
      by apply list_elem_of_singleton.
    + destruct (IH Hin) as (e' & He' & ->). exists e'. split; [|done].
      apply elem_of_app. by left.
Qed.

Lemma gapViolations_form key slots :
  Forall (fun v => exists gap between,
                     v = SectionGap (split "-" key !! 0%nat)
                                    (split "-" key !! 1%nat) gap between
                     /\ 2 < gap)
         (gapViolations key slots).
Proof.
  induction slots as [|a [|b slots] IH]; [done | done |].
  change (gapViolations key (a :: b :: slots))
    with ((if b - a - 1 >? 2
           then [SectionGap (split "-" key !! 0%nat) (split "-" key !! 1%nat)
                            (b - a - 1) (js_num a +:+ " and " +:+ js_num b)]
           else [])
          ++ gapViolations key (b :: slots)).
  apply Forall_app. split; [|done].
  destruct (Z.gtb_spec (b - a - 1) 2); [|done].
  apply Forall_singleton. eexists _, _. split; [done | lia].
Qed.

Lemma gapReportOf_key entries e gap between :
  e ∈ entries -> 2 < gap ->
  gapReportOf entries
    (SectionGap (split "-" (entrySectionDayKey e) !! 0%nat)
                (split "-" (entrySectionDayKey e) !! 1%nat) gap between).
Proof.
  intros He Hgap. unfold entrySectionDayKey. rewrite split_sectionDay.
  split; [done|]. exists e. split; [done|]. split; [done|]. split; [done|].
  split.
  - intros Hd. by rewrite (split_whole _ _ Hd).
  - intros (a & Ha & Hne)%split_first.
    rewrite (lookup_app_l_Some _ _ _ _ Ha). congruence.
Qed.

Lemma scan_only_reports key report entries acc :
  Forall (fun v => v ∈ fst acc \/ exists e o, v = report e o)
         (fst (fold_left (scanStep key report) entries acc)).
Proof.
  revert acc. induction entries as [|e entries IH]; intros acc; simpl.
  - apply Forall_forall. intros v Hv. by left.
  - eapply Forall_impl; [apply IH|]. intros v [Hv|Hv]; [|by right].
    unfold scanStep in Hv. cbn [fst] in Hv.
    destruct (JsMap.has _ _); [|by left].
    apply elem_of_app in Hv as [Hv| ->%list_elem_of_singleton];
      [by left | right; by eexists _, _].
Qed.

(** X30.  A gap report of the section check names the first and the
    second piece of the key [section-day] cut at every dash: for a
    section whose name has no dash these are the section and the day of
    classes of the schedule, and for a section whose name has a dash the
    section reported is the name up to its first dash, not the section.
    Every gap reported is of more than two slots. *)
Theorem gap_report_cuts_the_key_at_dashes constraint entries :
  Forall (gapReportOf entries)
         (cr_details (checkStudentSectionConstraint constraint entries)).
Proof.
  unfold checkStudentSectionConstraint. cbv zeta. cbn [cr_details resultOf].
  set (vs := if _ || _ then _ else _).
  assert (Forall (gapReportOf entries) vs) as Hvs.
  { unfold vs. destruct (_ || _); [|done]. unfold duplicateScan.
    eapply Forall_impl; [apply scan_only_reports|].
    intros v [Hv|(e & o & ->)]; [by apply elem_of_nil in Hv | done]. }
  destruct (includes (name constraint) "Gap"); [|done].
  assert (forall m acc,
            (forall kv, kv ∈ m ->
                        exists e, e ∈ entries /\ fst kv = entrySectionDayKey e) ->
            Forall (gapReportOf entries) acc ->
            Forall (gapReportOf entries)
              (fold_left
                 (fun violations (kv : string * list Z) =>
                    violations ++ gapViolations (fst kv) (sort_asc (snd kv)))
                 m acc)) as Hfold.
  { induction m as [|kv m IH]; intros acc Hm Hacc; [done|]. simpl.
    apply IH; [intros kv' Hkv'; by apply Hm, list_elem_of_further|].
    apply Forall_app. split; [done|].
    destruct (Hm kv) as (e & He & ->); [apply list_elem_of_here|].
    eapply Forall_impl; [apply gapViolations_form|].
    intros v (gap & between & -> & Hgap). by apply gapReportOf_key. }
  apply Hfold; [|done].
  intros kv Hkv. apply entrySchedulesBy_keys.
  unfold JsMap.keys. by apply list_elem_of_fmap_2.
Qed.

(** For section "CSE-A" the report names section "CSE" and day "A". *)
Example gap_report_of_a_dashed_section :
  cr_details
    (checkStudentSectionConstraint
       (mkConstraint "Minimize Student Gaps" soft student_section
          "Minimize gaps between classes for students" 5 10)
       dashedSection)
  = [SectionGap (Some "CSE") (Some "A") 3 "1 and 5"].
Proof. vm_compute. reflexivity. Qed.

(** ** The reach of the model *)

Create HintDb modelled.

Lemma modelled_ret {A} (a : A) : modelled (ret a).
Proof. by intros w. Qed.

Lemma modelled_throw {A} (e : JsError) : modelled (@throw A e).
Proof. by intros w. Qed.

Lemma modelled_diverge {A} : modelled (@diverge A).
Proof. by intros w. Qed.

Lemma modelled_bind_Ok {A B} (m : M A) (f : A -> M B) :
  modelled m ->
  (forall w a w', m w = Ok (a, w') -> modelled (f a)) ->
  modelled (bind m f).
Proof.
  intros Hm Hf w. unfold bind.
  destruct (m w) as [[a w1]| | |] eqn:E;
    [by eapply Hf | done | done | by apply Hm in E].
Qed.

Lemma modelled_bind {A B} (m : M A) (f : A -> M B) :
  modelled m -> (forall a, modelled (f a)) -> modelled (bind m f).
Proof. intros Hm Hf. apply modelled_bind_Ok; [done | intros; apply Hf]. Qed.

Lemma modelled_Math_random : modelled Math_random.
Proof. by intros w. Qed.

Lemma modelled_alloc g : modelled (alloc g).
Proof. by intros w. Qed.

Lemma modelled_deref r : modelled (deref r).
Proof. intros w. unfold deref. by destruct (store w !! r). Qed.

Lemma modelled_assign r g : modelled (assign r g).
Proof. by intros w. Qed.

Lemma modelled_notify p : modelled (notify p).
Proof. by intros w. Qed.

#[global] Hint Resolve modelled_ret modelled_throw modelled_diverge
  modelled_Math_random modelled_alloc modelled_deref modelled_assign
  modelled_notify : modelled.

(** One step through a computation: a known computation, or else the
    parts of a [bind], a [let] or a case distinction. *)
Ltac modelled_step :=
  first
    [ assumption
    | match goal with H : context [modelled] |- _ => apply H end
    | solve [auto 2 with modelled nocore]
    | apply modelled_bind; [|intros ?]
    | match goal with
      | |- modelled (let _ := _ in _) => cbv zeta
      | |- modelled (match ?x with _ => _ end) => destruct x
      end ].

Ltac modelled_auto := repeat modelled_step.

Lemma modelled_mapM {A B} (f : A -> M B) (l : list A) :
  (forall a, modelled (f a)) -> modelled (mapM f l).
Proof. intros Hf. induction l as [|a l IH]; cbn [mapM]; modelled_auto. Qed.

Lemma modelled_createRandomGene ga course sec session :
  modelled (createRandomGene ga course sec session).
Proof. unfold createRandomGene. modelled_auto. Qed.

#[global] Hint Resolve modelled_createRandomGene : modelled.

Lemma modelled_forSessions ga course sec sessions acc :
  modelled (forSessions ga course sec sessions acc).
Proof.
  revert acc.
  induction sessions as [|session sessions IH]; intros acc; cbn [forSessions];
    modelled_auto.
Qed.

#[global] Hint Resolve modelled_forSessions : modelled.

Lemma modelled_forSections ga course sessions secs acc :
  modelled (forSections ga course sessions secs acc).
Proof.
  revert acc. induction secs as [|sec secs IH]; intros acc; cbn [forSections];
    modelled_auto.
Qed.

#[global] Hint Resolve modelled_forSections : modelled.

Lemma modelled_forCourses ga cs acc : modelled (forCourses ga cs acc).
Proof.
  revert acc. induction cs as [|course cs IH]; intros acc; cbn [forCourses];
    modelled_auto.
Qed.

#[global] Hint Resolve modelled_forCourses : modelled.

Lemma modelled_createRandomChromosome ga :
  modelled (createRandomChromosome ga).
Proof. unfold createRandomChromosome. modelled_auto. Qed.

#[global] Hint Resolve modelled_createRandomChromosome : modelled.

Lemma modelled_populate ga n acc : modelled (populate ga n acc).
Proof.
  revert acc. induction n as [|n IH]; intros acc; cbn [populate];
    modelled_auto.
Qed.

#[global] Hint Resolve modelled_populate : modelled.

Lemma modelled_generateInitialPopulation ga :
  modelled (generateInitialPopulation ga).
Proof. unfold generateInitialPopulation. modelled_auto. Qed.

Lemma modelled_resolve c : modelled (resolve c).
Proof. apply modelled_mapM, modelled_deref. Qed.

#[global] Hint Resolve modelled_resolve : modelled.

Lemma modelled_evaluateChromosome ga c : modelled (evaluateChromosome ga c).
Proof. unfold evaluateChromosome. modelled_auto. Qed.

Lemma modelled_evaluatePopulation ga : modelled (evaluatePopulation ga).
Proof.
  unfold evaluatePopulation.
  apply modelled_bind;
    [apply modelled_mapM, modelled_evaluateChromosome | intros; modelled_auto].
Qed.

Lemma modelled_deepCopy c : modelled (deepCopy c).
Proof. intros w. apply deepCopy_ends. Qed.

#[global] Hint Resolve modelled_deepCopy : modelled.

Lemma modelled_elites sorted i n acc : modelled (elites sorted i n acc).
Proof.
  revert i acc. induction n as [|n IH]; intros i acc; cbn [elites];
    modelled_auto.
Qed.

#[global] Hint Resolve modelled_elites : modelled.

Lemma modelled_tournamentLoop ga n best : modelled (tournamentLoop ga n best).
Proof.
  revert best. induction n as [|n IH]; intros best; cbn [tournamentLoop];
    modelled_auto.
Qed.

Lemma modelled_tournamentSelection ga : modelled (tournamentSelection ga).
Proof. apply modelled_tournamentLoop. Qed.

Lemma modelled_mutate ga c : modelled (mutate ga c).
Proof. intros w. apply mutate_ends. Qed.

#[global] Hint Resolve modelled_tournamentSelection modelled_mutate : modelled.

(** With a positive tournament size the offspring of a round is a
    chromosome. *)
Lemma modelled_offspringLoop ga rounds acc :
  (0 < tournamentSize ga)%Q -> modelled (offspringLoop ga rounds acc).
Proof.
  intros Hts.
  assert ((loopCount (tournamentSize ga) =? 0)%nat = false) as Hrounds.
  { apply Nat.eqb_neq.
    pose proof (proj2 (loopCount_lt (tournamentSize ga) 0) Hts). lia. }
  revert acc. induction rounds as [|rounds IH]; intros acc;
    cbn [offspringLoop]; [apply modelled_ret|].
  apply modelled_bind; [apply modelled_tournamentSelection | intros parent1].
  apply modelled_bind; [apply modelled_tournamentSelection | intros parent2].
  apply modelled_bind; [apply modelled_Math_random | intros u].
  apply modelled_bind_Ok.
  { destruct (Qltb _ _).
    - unfold crossoverOf, crossover. modelled_auto.
    - unfold copyOfParent. rewrite Hrounds. modelled_auto. }
  intros w offspring w' Hoff.
  assert (is_Some offspring) as [c ->].
  { destruct (Qltb _ _).
    - apply crossoverOf_Ok in Hoff as (_ & _ & c & _ & _ & -> & _). by eexists.
    - unfold copyOfParent in Hoff. rewrite Hrounds in Hoff.
      destruct parent1 as [p1|]; [|done].
      apply bind_Ok in Hoff as (c & w1 & _ & Hret).
      apply ret_Ok in Hret as [<- _]. by eexists. }
  apply modelled_bind; [apply modelled_Math_random | intros u'].
  apply modelled_bind; [|intros _; apply IH].
  destruct (Qltb (u_value u') _);
    [apply (modelled_mutate ga c) | apply modelled_ret].
Qed.

Lemma modelled_evolve ga :
  (0 < tournamentSize ga)%Q -> modelled (evolve ga).
Proof.
  intros Hts. unfold evolve.
  apply modelled_bind; [apply modelled_elites | intros newPopulation].
  apply modelled_bind; [by apply modelled_offspringLoop | intros; modelled_auto].
Qed.

Lemma modelled_generationBody cb gen ga :
  (0 < tournamentSize ga)%Q -> modelled (generationBody cb gen ga).
Proof.
  intros Hts. unfold generationBody.
  apply modelled_bind_Ok; [apply modelled_evaluatePopulation|].
  intros w ga1 w1 (_ & Hsame & _)%evaluatePopulation_Ok.
  assert (tournamentSize ga1 = tournamentSize ga) as Hts1 by apply Hsame.
  apply modelled_bind; [unfold getBestChromosome; modelled_auto | intros b].
  apply modelled_bind_Ok; [unfold trackBest; modelled_auto|].
  intros w2 ga2 w3 Htrack.
  assert (tournamentSize ga2 = tournamentSize ga1) as Hts2.
  { unfold trackBest in Htrack. destruct (better _ _).
    - apply bind_Ok in Htrack as (copy & w4 & _ & Hret).
      by apply ret_Ok in Hret as [<- _].
    - by apply ret_Ok in Htrack as [<- _]. }
  apply modelled_bind; [unfold theBest; modelled_auto | intros best].
  apply modelled_bind; [modelled_auto | intros _].
  destruct (_ && _); [apply modelled_ret|].
  apply modelled_bind; [|intros; apply modelled_ret].
  apply modelled_evolve. cbn. by rewrite Hts2, Hts1.
Qed.

Lemma generationBody_tournamentSize cb gen ga w r w' :
  generationBody cb gen ga w = Ok (r, w') ->
  tournamentSize (snd r) = tournamentSize ga.
Proof.
  unfold generationBody. intros H.
  apply bind_Ok in H as (ga1 & w1 & (_ & Hsame & _)%evaluatePopulation_Ok & H).
  assert (tournamentSize ga1 = tournamentSize ga) as Hts1 by apply Hsame.
  apply bind_Ok in H as (b & w2 & _ & H).
  apply bind_Ok in H as (ga2 & w3 & Htrack & H).
  assert (tournamentSize ga2 = tournamentSize ga1) as Hts2.
  { unfold trackBest in Htrack. destruct (better _ _).
    - apply bind_Ok in Htrack as (copy & w4 & _ & Hret).
      by apply ret_Ok in Hret as [<- _].
    - by apply ret_Ok in Htrack as [<- _]. }
  apply bind_Ok in H as (best & w4 & _ & H).
  apply bind_Ok in H as ([] & w5 & _ & H).
  destruct (_ && _).
  - apply ret_Ok in H as [<- _]. cbn. by rewrite Hts2, Hts1.
  - apply bind_Ok in H as (ga3 & w6 & Hev & H).
    apply ret_Ok in H as [<- _]. cbn.
    unfold evolve in Hev.
    apply bind_Ok in Hev as (p1 & w7 & _ & Hev).
    apply bind_Ok in Hev as (p2 & w8 & _ & Hev).
    apply ret_Ok in Hev as [<- _]. cbn. by rewrite Hts2, Hts1.
Qed.

Lemma modelled_generationLoop cb rounds gen ga :
  (0 < tournamentSize ga)%Q -> modelled (generationLoop cb rounds gen ga).
Proof.
  revert gen ga. induction rounds as [|rounds IH]; intros gen ga Hts;
    cbn [generationLoop]; [apply modelled_ret|].
  apply modelled_bind_Ok; [by apply modelled_generationBody|].
  intros w r w' Hr. destruct (fst r); [apply modelled_ret|].
  apply IH. by rewrite (generationBody_tournamentSize _ _ _ _ _ _ Hr).
Qed.

(** A run with a positive tournament size returns, throws or has no end:
    no population of it holds a [null]. *)
Lemma run_is_modelled config data cb rnd :
  (0 < tournamentSize (GeneticAlgorithm_new config))%Q ->
  run config data cb rnd <> Unmodelled.
Proof.
  intros Hts. unfold run.
  assert (modelled (optimize cb (initialize data (GeneticAlgorithm_new config))))
    as Hm.
  { unfold optimize.
    apply modelled_bind_Ok; [apply modelled_generateInitialPopulation|].
    intros w ga w' Hga.
    assert (tournamentSize ga = tournamentSize (GeneticAlgorithm_new config))
      as Hts1.
    { unfold generateInitialPopulation in Hga.
      apply bind_Ok in Hga as (p & w1 & _ & Hret).
      by apply ret_Ok in Hret as [<- _]. }
    apply modelled_bind; [apply modelled_generationLoop; by rewrite Hts1|].
    intros r. unfold theBest. modelled_auto. }
  specialize (Hm (newWorld rnd)).
  by destruct (optimize _ _ _) as [[[r ga] w]| | |].
Qed.

(** The default tournament size is 5. *)
Lemma default_tournament_is_modelled config data cb rnd :
  cfg_tournamentSize config = None -> run config data cb rnd <> Unmodelled.
Proof.
  intros Hnone. apply run_is_modelled. cbn. by rewrite Hnone.
Qed.

(** ** The further properties on the sample run *)

Lemma sampleStart_Ok :
  generateInitialPopulation sampleGA (newWorld sampleRandom)
  = Ok (sampleStartGA, sampleStartWorld).
Proof. vm_compute. reflexivity. Qed.

Lemma sampleStart_within : populationWithin (store sampleStartWorld) sampleStartGA.
Proof.
  by destruct (generateInitialPopulation_kept _ _ _ _ sampleStart_Ok eq_refl)
    as (_ & H & _).
Qed.

Lemma deep_copy_has_equal_new_genes_witness :
  exists c' w' gs,
    deepCopy firstChromosome sampleStartWorld = Ok (c', w')
    /\ genes c' = [6%nat; 7%nat]
    /\ pointsTo (store sampleStartWorld) (genes firstChromosome) gs
    /\ pointsTo (store w') (genes c') gs.
Proof.
  assert (deepCopy firstChromosome sampleStartWorld = Ok (_, _)) as H
    by (vm_compute; reflexivity).
  destruct (deep_copy_has_equal_new_genes _ _ _ _ H)
    as (gs & H1 & _ & H3 & _).
  eexists _, _, gs. split; [exact H|]. split; [reflexivity|]. by split.
Defined.

Lemma mutating_a_copy_spares_the_original_witness :
  exists c' w1 w2,
    deepCopy firstChromosome mutationWorld = Ok (c', w1)
    /\ mutate sampleStartGA c' w1 = Ok (tt, w2)
    /\ store w2 <> store w1
    /\ take (length (store mutationWorld)) (store w2) = store mutationWorld.
Proof.
  assert (deepCopy firstChromosome mutationWorld = Ok (_, _)) as H1
    by (vm_compute; reflexivity).
  match type of H1 with
  | _ = Ok (?c, ?w) =>
      assert (mutate sampleStartGA c w = Ok (tt, _)) as H2
        by (vm_compute; reflexivity)
  end.
  eexists _, _, _. split; [exact H1|]. split; [exact H2|].
  split; [vm_compute; discriminate|].
  apply (mutating_a_copy_spares_the_original _ _ _ _ _ _ H1 H2).
Defined.

Lemma mutating_an_offspring_writes_a_parent_gene_witness :
  exists c w1 w2,
    crossover firstChromosome secondChromosome mutationWorld = Ok (c, w1)
    /\ mutate sampleStartGA c w1 = Ok (tt, w2)
    /\ store w2 <> store mutationWorld
    /\ (store w2 = store mutationWorld
        \/ exists r g',
             (r ∈ genes firstChromosome \/ r ∈ genes secondChromosome)
             /\ store w2 = <[r := g']> (store mutationWorld)).
Proof.
  assert (crossover firstChromosome secondChromosome mutationWorld = Ok (_, _))
    as H1 by (vm_compute; reflexivity).
  match type of H1 with
  | _ = Ok (?c, ?w) =>
      assert (mutate sampleStartGA c w = Ok (tt, _)) as H2
        by (vm_compute; reflexivity)
  end.
  eexists _, _, _. split; [exact H1|]. split; [exact H2|].
  split; [vm_compute; discriminate|].
  apply (mutating_an_offspring_writes_a_parent_gene _ _ _ _ _ _ _ H1 H2).
Defined.

Lemma random_gene_is_well_formed_witness :
  exists g w',
    createRandomGene sampleGA (sampleCourse "CS101" 1 0)
      {| sectionName := "A"; strength := 30 |}
      {| s_type := theory; s_duration := 1; s_consecutiveSlots := 1 |}
      (newWorld sampleRandom) = Ok (Some g, w')
    /\ facultyId g = "F1" /\ roomId g = "R1"
    /\ drawnFrom sampleGA (sampleCourse "CS101" 1 0)
         {| sectionName := "A"; strength := 30 |}
         {| s_type := theory; s_duration := 1; s_consecutiveSlots := 1 |} g
    /\ drawn w' = 3%nat.
Proof.
  assert (createRandomGene sampleGA (sampleCourse "CS101" 1 0)
            {| sectionName := "A"; strength := 30 |}
            {| s_type := theory; s_duration := 1; s_consecutiveSlots := 1 |}
            (newWorld sampleRandom) = Ok (Some _, _)) as H
    by (vm_compute; reflexivity).
  destruct (random_gene_is_well_formed _ _ _ _ _ _ _ H) as (Hd & _ & _ & Hn).
  eexists _, _. split; [exact H|]. split; [reflexivity|].
  split; [reflexivity|]. by split.
Defined.

Lemma random_chromosome_owns_new_genes_witness :
  exists c w' gs,
    createRandomChromosome sampleGA (newWorld sampleRandom) = Ok (c, w')
    /\ genes c = [0%nat; 1%nat]
    /\ store w' = gs /\ Forall (required sampleGA) gs.
Proof.
  assert (createRandomChromosome sampleGA (newWorld sampleRandom) = Ok (_, _))
    as H by (vm_compute; reflexivity).
  destruct (random_chromosome_owns_new_genes _ _ _ _ H)
    as (gs & Hs & _ & _ & Hreq & _).
  eexists _, _, gs. split; [exact H|]. split; [reflexivity|].
  split; [exact Hs | exact Hreq].
Defined.

(** A population size of 2.5 gives three chromosomes. *)
Lemma initial_population_is_unshared_witness :
  exists ga' w',
    generateInitialPopulation fractionalGA (newWorld sampleRandom)
    = Ok (ga', w')
    /\ populationSize fractionalGA = (5 # 2)%Q
    /\ length (population ga') = 3%nat
    /\ concat (map genes (population ga')) = seq 0 6.
Proof.
  assert (generateInitialPopulation fractionalGA (newWorld sampleRandom)
          = Ok (_, _)) as H by (vm_compute; reflexivity).
  destruct (initial_population_is_unshared _ _ _ _ H) as (H1 & _ & H2 & _).
  eexists _, _. split; [exact H|]. split; [reflexivity|].
  split; [exact H1 | exact H2].
Defined.

(** A population size of 2.5 with 1.5 elites: three chromosomes, the
    first two of them elites. *)
Lemma evolve_keeps_the_population_size_witness :
  exists ga w ga' w',
    generateInitialPopulation fractionalGA (newWorld sampleRandom)
    = Ok (ga, w)
    /\ evolve ga w = Ok (ga', w')
    /\ populationSize ga = (5 # 2)%Q /\ elitismCount ga = (3 # 2)%Q
    /\ length (population ga') = 3%nat.
Proof.
  assert (generateInitialPopulation fractionalGA (newWorld sampleRandom)
          = Ok (_, _)) as H0 by (vm_compute; reflexivity).
  match type of H0 with
  | _ = Ok (?ga, ?w) =>
      assert (evolve ga w = Ok (_, _)) as H by (vm_compute; reflexivity)
  end.
  destruct (evolve_keeps_the_population_size _ _ _ _ H) as (Hlen & _).
  eexists _, _, _, _. split; [exact H0|]. split; [exact H|].
  split; [reflexivity|]. split; [reflexivity | exact Hlen].
Defined.

Lemma evolve_throws_on_a_small_population_witness :
  exists ga w e w',
    generateInitialPopulation smallGA (newWorld sampleRandom) = Ok (ga, w)
    /\ length (population ga) = 3%nat /\ elitismCount ga = (5 # 1)%Q
    /\ evolve ga w = Throw e w' /\ e = SyntaxError.
Proof.
  assert (generateInitialPopulation smallGA (newWorld sampleRandom) = Ok (_, _))
    as H by (vm_compute; reflexivity).
  pose proof (generateInitialPopulation_kept _ _ _ _ H eq_refl)
    as (_ & Hin & _).
  match type of H with
  | _ = Ok (?ga, ?w) =>
      destruct (evolve_throws_on_a_small_population ga w)
        as (e & w' & E & He); [vm_compute; reflexivity|]
  end.
  eexists _, _, e, w'. split; [exact H|]. split; [reflexivity|].
  split; [reflexivity|]. split; [exact E | exact (He Hin)].
Defined.

Lemma elitism_carries_the_fittest_over_witness :
  exists ga' w' elite,
    evolve sampleStartGA sampleStartWorld = Ok (ga', w')
    /\ take 1 (population ga') = [elite]
    /\ genes elite = [6%nat; 7%nat]
    /\ Forall2 (copyOf (store sampleStartWorld) (store w'))
         (take 1 (sortByFitness (population sampleStartGA)))
         (take 1 (population ga')).
Proof.
  assert (evolve sampleStartGA sampleStartWorld = Ok (_, _)) as H
    by (vm_compute; reflexivity).
  destruct (elitism_carries_the_fittest_over _ _ _ _ H sampleStart_within)
    as (_ & _ & Hcopy).
  eexists _, _, _. split; [exact H|]. split; [reflexivity|].
  split; [reflexivity | exact Hcopy].
Defined.

Lemma returned_schedule_is_evaluated_witness :
  exists r w,
    run sampleConfig sampleData false sampleRandom = Ok (r, w)
    /\ fitness (schedule r) = 1000
    /\ fitness (schedule r)
       = ev_fitness (calculate (FitnessCalculator None) (scheduleGenes r)
                      (d_courses sampleData) (d_faculty sampleData)
                      (d_rooms sampleData) (d_constraints sampleData)).
Proof.
  assert (run sampleConfig sampleData false sampleRandom = Ok (_, _)) as H
    by (vm_compute; reflexivity).
  destruct (returned_schedule_is_evaluated _ _ _ _ _ _ H) as (_ & Hf & _).
  eexists _, _. split; [exact H|]. split; [reflexivity | exact Hf].
Defined.

(** A run of 2.5 generations that does not stop early: the generations
    0, 1 and 2. *)
Lemma history_has_one_record_per_generation_witness :
  exists r w,
    run fractionalConfig busyData false sampleRandom = Ok (r, w)
    /\ maxGenerations (GeneticAlgorithm_new fractionalConfig) = (5 # 2)%Q
    /\ map generation (generations r) = [0; 1; 2]%nat
    /\ Forall (fun h => bestFitness h <= fitness (schedule r)) (generations r).
Proof.
  assert (run fractionalConfig busyData false sampleRandom = Ok (_, _)) as H
    by (vm_compute; reflexivity).
  pose proof (history_has_one_record_per_generation _ _ _ _ _ _ H) as Hx.
  cbv zeta in Hx. destruct Hx as (Hg & _ & _ & _ & Hb & _).
  eexists _, _. split; [exact H|]. split; [reflexivity|].
  split; [exact Hg | exact Hb].
Defined.

Lemma progress_is_reported_every_tenth_generation_witness :
  exists r w,
    run sampleConfig sampleData true sampleRandom = Ok (r, w)
    /\ notified w
       = map (progressOf (maxGenerations (GeneticAlgorithm_new sampleConfig)))
             (List.filter isReported (generations r)).
Proof.
  assert (run sampleConfig sampleData true sampleRandom = Ok (_, _)) as H
    by (vm_compute; reflexivity).
  eexists _, _. split; [exact H|].
  exact (progress_is_reported_every_tenth_generation _ _ _ _ _ _ H).
Defined.
